(** * Live spectrum monitor: sweep planner, sweep stitcher, frequency policy,
      antenna selection and interference detector

    Shallow embedding of the numerical core of [Code/Live_spectogram.py].

    Python floats are idealised as exact numbers: rationals ([Q]) for the
    sweep planner, the stitcher and the frequency policy, whose arithmetic is
    field arithmetic and comparisons only, and real numbers ([R]) for the
    interference detector, which needs square roots, logarithms and powers.
    Rounding, NaN and infinities are outside the model, except that a probe
    reading may contain non-finite samples, which the validation rejects. *)

From Stdlib Require Import String Ascii.
From Stdlib Require Import QArith Qround Qabs ZArith Lia List Bool Arith.
From Stdlib Require Import Sorting.Sorted Sorting.Permutation.
From Stdlib Require Import Reals Psatz.
Import ListNotations.

#[global] Set Warnings "-abstract-large-number".

(** [mode]: the operating mode the window was built for. *)
Inductive mode_t :=
| ModeTime | ModeFrequency | ModeJamming | ModeWideSpectrum
| ModeWideSpectrumFrequency | ModeDelay.

(* ================================================================== *)
(** * Sweep planner and sweep stitcher (exact rational model) *)
(* ================================================================== *)

Module Sweep.

Local Open Scope Q_scope.

Definition Qltb (a b : Q) : bool := negb (Qle_bool b a).

Definition is_sweep_mode (m : mode_t) : bool :=
  match m with
  | ModeWideSpectrum | ModeWideSpectrumFrequency => true
  | _ => false
  end.

(** One sample of a probe reading: a finite value, or NaN / infinity. *)
Inductive sample := Finite (q : Q) | NonFinite.

(** Result of [probe.level()]: an exception or [None], or a flat vector. *)
Inductive reading := ReadFail | ReadVec (v : list sample).

(** What a callback hands to the scheduler and to the display. *)
Inductive action :=
| SingleShot (ms : nat)                    (* Qt.QTimer.singleShot(ms, capture_fft) *)
| Notice (msg : string)                    (* show_temporary_label *)
| LogError (msg : string)                  (* print("[ERROR] ...") *)
| Plot (x_hz : list Q) (y_lin : list Q).   (* pg_curve.setData, before the dB map *)

Record sweep_state := {
  mode : mode_t;
  toggle_checked : bool;
  sweep_active : bool;
  sweep_busy : bool;
  rebuilding : bool;
  probe_present : bool;
  fft_size : nat;
  samp_rate : Q;
  center_freqs : list Q;
  total_steps : nat;
  total_bins : nat;
  freq_axis : list Q;
  sweep_buffer : list Q;
  sweep_ptr : nat;
  step_freq_hz : option Q;
  cap_retries : nat;
  last_fft : option (list Q);
  last_valid_sweep_start : Q;
  last_valid_sweep_end : Q;
  sweep_prev_linear : option (list Q);
  sweep_avg_alpha : Q
}.

(** ** numpy helpers *)

Definition inject_nat (n : nat) : Q := inject_Z (Z.of_nat n).

(** [np.linspace(a, b, n, endpoint=False)] *)
Definition linspace_open (a b : Q) (n : nat) : list Q :=
  map (fun j => a + inject_nat j * ((b - a) / inject_nat n)) (seq 0 n).

(** [np.linspace(a, b, n)] (right edge included) *)
Definition linspace_closed (a b : Q) (n : nat) : list Q :=
  match n with
  | O => []
  | S O => [a]
  | _ => map (fun j => a + inject_nat j * ((b - a) / inject_nat (n - 1))) (seq 0 n)
  end.

Definition zeros (n : nat) : list Q := repeat 0 n.

Definition mean (l : list Q) : Q := fold_right Qplus 0 l / inject_nat (length l).

(** Python slice [l[a:b]] for in-range non-negative bounds. *)
Definition slice {A} (a b : nat) (l : list A) : list A := firstn (b - a) (skipn a l).

(** ** [validate_sweep_inputs] *)

(** The single-bin fallback installed on every failure path. *)
Definition fallback_plan (st : sweep_state) : sweep_state :=
  {| mode := mode st; toggle_checked := false;
     sweep_active := sweep_active st; sweep_busy := sweep_busy st;
     rebuilding := rebuilding st; probe_present := probe_present st;
     fft_size := fft_size st; samp_rate := samp_rate st;
     center_freqs := center_freqs st; total_steps := total_steps st;
     total_bins := fft_size st;
     freq_axis := linspace_closed 0 (samp_rate st) (fft_size st);
     sweep_buffer := zeros (fft_size st);
     sweep_ptr := sweep_ptr st; step_freq_hz := step_freq_hz st;
     cap_retries := cap_retries st; last_fft := last_fft st;
     last_valid_sweep_start := last_valid_sweep_start st;
     last_valid_sweep_end := last_valid_sweep_end st;
     sweep_prev_linear := sweep_prev_linear st;
     sweep_avg_alpha := sweep_avg_alpha st |}.

Definition set_last_valid (st : sweep_state) (s e : Q) : sweep_state :=
  {| mode := mode st; toggle_checked := toggle_checked st;
     sweep_active := sweep_active st; sweep_busy := sweep_busy st;
     rebuilding := rebuilding st; probe_present := probe_present st;
     fft_size := fft_size st; samp_rate := samp_rate st;
     center_freqs := center_freqs st; total_steps := total_steps st;
     total_bins := total_bins st; freq_axis := freq_axis st;
     sweep_buffer := sweep_buffer st;
     sweep_ptr := sweep_ptr st; step_freq_hz := step_freq_hz st;
     cap_retries := cap_retries st; last_fft := last_fft st;
     last_valid_sweep_start := s; last_valid_sweep_end := e;
     sweep_prev_linear := sweep_prev_linear st;
     sweep_avg_alpha := sweep_avg_alpha st |}.

(** Hard limits 1 Hz .. 4 GHz applied to each parsed edge.  Frequencies are
    in Hz, written out in full. *)
Definition clamp_edge (f : Q) : Q :=
  if Qle_bool f 0 then 1
  else if Qltb 4000000000 f then 4000000000
  else f.

(** [num_steps = int(np.ceil((sweep_end - sweep_start) / step))] *)
Definition plan_num_steps (sweep_start sweep_end step : Q) : Z :=
  Qceiling ((sweep_end - sweep_start) / step).

(** [[sweep_start + (i + 0.5) * step for i in range(num_steps)]] *)
Definition plan_center_freqs (sweep_start step : Q) (num_steps : Z) : list Q :=
  map (fun i => sweep_start + (inject_nat i + 0.5) * step) (seq 0 (Z.to_nat num_steps)).

(** [np.concatenate([bin_freqs + cf for cf in center_freqs])] *)
Definition plan_freq_axis (step : Q) (n : nat) (cfs : list Q) : list Q :=
  flat_map (fun cf => map (fun b => b + cf) (linspace_open (- step / 2) (step / 2) n)) cfs.

(** [validate_sweep_inputs].  The two arguments are the outcomes of
    [parse_freq_input] on the start and end fields ([None]: the parser
    raised).  The plan signature only gates a log line and is left out. *)
Definition validate_sweep_inputs (st : sweep_state) (start_in end_in : option Q)
  : sweep_state * bool :=
  match start_in, end_in with
  | Some s0, Some e0 =>
      let sweep_start := clamp_edge s0 in
      let sweep_end := clamp_edge e0 in
      if Qle_bool sweep_end sweep_start then (fallback_plan st, false)
      else
        let st1 := set_last_valid st sweep_start sweep_end in
        let step := samp_rate st in
        if Qle_bool step 0 then (fallback_plan st1, false)
        else
          let num_steps := plan_num_steps sweep_start sweep_end step in
          if (num_steps <? 1)%Z then (fallback_plan st1, false)
          else
            let cfs := plan_center_freqs sweep_start step num_steps in
            let steps := length cfs in
            let bins := (steps * fft_size st)%nat in
            ({| mode := mode st; toggle_checked := toggle_checked st;
                sweep_active := sweep_active st; sweep_busy := sweep_busy st;
                rebuilding := rebuilding st; probe_present := probe_present st;
                fft_size := fft_size st; samp_rate := samp_rate st;
                center_freqs := cfs; total_steps := steps; total_bins := bins;
                freq_axis := plan_freq_axis step (fft_size st) cfs;
                sweep_buffer := zeros bins;
                sweep_ptr := 0; step_freq_hz := step_freq_hz st;
                cap_retries := cap_retries st; last_fft := last_fft st;
                last_valid_sweep_start := sweep_start;
                last_valid_sweep_end := sweep_end;
                sweep_prev_linear := None;
                sweep_avg_alpha := sweep_avg_alpha st |}, true)
  | _, _ => (fallback_plan st, false)
  end.

(** ** [capture_fft] *)

Definition set_busy (b : bool) (st : sweep_state) : sweep_state :=
  {| mode := mode st; toggle_checked := toggle_checked st;
     sweep_active := sweep_active st; sweep_busy := b;
     rebuilding := rebuilding st; probe_present := probe_present st;
     fft_size := fft_size st; samp_rate := samp_rate st;
     center_freqs := center_freqs st; total_steps := total_steps st;
     total_bins := total_bins st; freq_axis := freq_axis st;
     sweep_buffer := sweep_buffer st;
     sweep_ptr := sweep_ptr st; step_freq_hz := step_freq_hz st;
     cap_retries := cap_retries st; last_fft := last_fft st;
     last_valid_sweep_start := last_valid_sweep_start st;
     last_valid_sweep_end := last_valid_sweep_end st;
     sweep_prev_linear := sweep_prev_linear st;
     sweep_avg_alpha := sweep_avg_alpha st |}.

Definition set_retries (n : nat) (st : sweep_state) : sweep_state :=
  {| mode := mode st; toggle_checked := toggle_checked st;
     sweep_active := sweep_active st; sweep_busy := sweep_busy st;
     rebuilding := rebuilding st; probe_present := probe_present st;
     fft_size := fft_size st; samp_rate := samp_rate st;
     center_freqs := center_freqs st; total_steps := total_steps st;
     total_bins := total_bins st; freq_axis := freq_axis st;
     sweep_buffer := sweep_buffer st;
     sweep_ptr := sweep_ptr st; step_freq_hz := step_freq_hz st;
     cap_retries := n; last_fft := last_fft st;
     last_valid_sweep_start := last_valid_sweep_start st;
     last_valid_sweep_end := last_valid_sweep_end st;
     sweep_prev_linear := sweep_prev_linear st;
     sweep_avg_alpha := sweep_avg_alpha st |}.

Definition set_ptr (n : nat) (st : sweep_state) : sweep_state :=
  {| mode := mode st; toggle_checked := toggle_checked st;
     sweep_active := sweep_active st; sweep_busy := sweep_busy st;
     rebuilding := rebuilding st; probe_present := probe_present st;
     fft_size := fft_size st; samp_rate := samp_rate st;
     center_freqs := center_freqs st; total_steps := total_steps st;
     total_bins := total_bins st; freq_axis := freq_axis st;
     sweep_buffer := sweep_buffer st;
     sweep_ptr := n; step_freq_hz := step_freq_hz st;
     cap_retries := cap_retries st; last_fft := last_fft st;
     last_valid_sweep_start := last_valid_sweep_start st;
     last_valid_sweep_end := last_valid_sweep_end st;
     sweep_prev_linear := sweep_prev_linear st;
     sweep_avg_alpha := sweep_avg_alpha st |}.

Definition set_last_fft (v : option (list Q)) (st : sweep_state) : sweep_state :=
  {| mode := mode st; toggle_checked := toggle_checked st;
     sweep_active := sweep_active st; sweep_busy := sweep_busy st;
     rebuilding := rebuilding st; probe_present := probe_present st;
     fft_size := fft_size st; samp_rate := samp_rate st;
     center_freqs := center_freqs st; total_steps := total_steps st;
     total_bins := total_bins st; freq_axis := freq_axis st;
     sweep_buffer := sweep_buffer st;
     sweep_ptr := sweep_ptr st; step_freq_hz := step_freq_hz st;
     cap_retries := cap_retries st; last_fft := v;
     last_valid_sweep_start := last_valid_sweep_start st;
     last_valid_sweep_end := last_valid_sweep_end st;
     sweep_prev_linear := sweep_prev_linear st;
     sweep_avg_alpha := sweep_avg_alpha st |}.

Definition set_buffer (v : list Q) (st : sweep_state) : sweep_state :=
  {| mode := mode st; toggle_checked := toggle_checked st;
     sweep_active := sweep_active st; sweep_busy := sweep_busy st;
     rebuilding := rebuilding st; probe_present := probe_present st;
     fft_size := fft_size st; samp_rate := samp_rate st;
     center_freqs := center_freqs st; total_steps := total_steps st;
     total_bins := total_bins st; freq_axis := freq_axis st;
     sweep_buffer := v;
     sweep_ptr := sweep_ptr st; step_freq_hz := step_freq_hz st;
     cap_retries := cap_retries st; last_fft := last_fft st;
     last_valid_sweep_start := last_valid_sweep_start st;
     last_valid_sweep_end := last_valid_sweep_end st;
     sweep_prev_linear := sweep_prev_linear st;
     sweep_avg_alpha := sweep_avg_alpha st |}.

Definition set_prev (v : option (list Q)) (st : sweep_state) : sweep_state :=
  {| mode := mode st; toggle_checked := toggle_checked st;
     sweep_active := sweep_active st; sweep_busy := sweep_busy st;
     rebuilding := rebuilding st; probe_present := probe_present st;
     fft_size := fft_size st; samp_rate := samp_rate st;
     center_freqs := center_freqs st; total_steps := total_steps st;
     total_bins := total_bins st; freq_axis := freq_axis st;
     sweep_buffer := sweep_buffer st;
     sweep_ptr := sweep_ptr st; step_freq_hz := step_freq_hz st;
     cap_retries := cap_retries st; last_fft := last_fft st;
     last_valid_sweep_start := last_valid_sweep_start st;
     last_valid_sweep_end := last_valid_sweep_end st;
     sweep_prev_linear := v;
     sweep_avg_alpha := sweep_avg_alpha st |}.

(** What one run of [capture_fft] reads from its collaborators: the tuner
    before the read ([None]: [get_center_freq] raised), the probe, and the
    tuner after the read. *)
Record capture_input := {
  tuned_before : option Q;
  raw : reading;
  tuned_after : option Q
}.

(** [self.sweep_ptr = (self.sweep_ptr + 1) % len(self.center_freqs)] and
    [self._cap_retries = 0] *)
Definition advance (st : sweep_state) : sweep_state :=
  set_retries 0 (set_ptr ((sweep_ptr st + 1) mod length (center_freqs st)) st).

(** The tail shared by the four validation failures: a bounded retry after
    8 ms, then the step is skipped.  The [finally] clause clears the busy
    flag on both ways out. *)
Definition retry_or_skip (st : sweep_state) : sweep_state * list action :=
  if (cap_retries st <? 3)%nat
  then (set_busy false (set_retries (cap_retries st + 1) st), [SingleShot 8])
  else (set_busy false (advance st), []).

Fixpoint finite_values (v : list sample) : option (list Q) :=
  match v with
  | [] => Some []
  | Finite q :: v' => option_map (cons q) (finite_values v')
  | NonFinite :: _ => None
  end.

(** [mags], or [None] when the reading is missing, of the wrong length or
    not all finite. *)
Definition read_mags (r : reading) (n : nat) : option (list Q) :=
  match r with
  | ReadFail => None
  | ReadVec v => if (length v =? n)%nat then finite_values v else None
  end.

(** [abs(tuned - step) > 1.0] *)
Definition off_tune (tuned step : Q) : bool := Qltb 1 (Qabs (tuned - step)).

(** One element of [np.isclose(a, b, rtol=0.0, atol=1e-8)] *)
Definition isclose (a b : Q) : bool := Qle_bool (Qabs (a - b)) (1 # 100000000).

(** [np.allclose(a, b, rtol=0.0, atol=1e-8)] on flat vectors; [None] when
    the two shapes cannot be broadcast together (numpy raises). *)
Definition allclose (a b : list Q) : option bool :=
  if (length a =? length b)%nat
  then Some (forallb (fun p => isclose (fst p) (snd p)) (combine a b))
  else if (length a =? 1)%nat then Some (forallb (fun y => isclose (hd 0 a) y) b)
  else if (length b =? 1)%nat then Some (forallb (fun x => isclose x (hd 0 b)) a)
  else None.

(** [mags *= 1.0 / float(fft_size)] *)
Definition scale_mags (n : nat) (mags : list Q) : list Q :=
  map (fun x => x * (1 / inject_nat n)) mags.

(** [l[a:b] = v]: every position [a <= i < b] takes the value [v]. *)
Definition fill (a b : nat) (v : Q) (l : list Q) : list Q :=
  map (fun p => if ((a <=? fst p) && (fst p <? b))%nat then v else snd p)
      (combine (seq 0 (length l)) l).

(** The DC notch of [capture_fft], on the scaled magnitudes.  Subtraction on
    [nat] is truncated, which is [max(0, .)]. *)
Definition dc_notch (n : nat) (mags : list Q) : list Q :=
  let c := (n / 2)%nat in
  let k := 2%nat in
  if (16 <=? n)%nat then
    let loL := (c - (k + 3))%nat in
    let loR := (c - (k + 1))%nat in
    let hiL := Nat.min n (c + (k + 1)) in
    let hiR := Nat.min n (c + (k + 3)) in
    let neigh := (if (loL <? loR)%nat then slice loL loR mags else [])
              ++ (if (hiL <? hiR)%nat then slice hiL hiR mags else []) in
    if (2 <=? length neigh)%nat
    then fill (c - k) (Nat.min n (c + k + 1)) (mean neigh) mags
    else mags
  else mags.

(** [buf[s:s+len(seg)] = seg]; [None] when numpy cannot broadcast the segment
    into the slice. *)
Definition write_segment (buf : list Q) (s : nat) (seg : list Q) : option (list Q) :=
  let e := (s + length seg)%nat in
  let span := (Nat.min e (length buf) - Nat.min s (length buf))%nat in
  if (span =? length seg)%nat then Some (firstn s buf ++ seg ++ skipn e buf)
  else if (length seg =? 1)%nat
       then Some (firstn s buf ++ repeat (hd 0 seg) span ++ skipn e buf)
       else None.

(** [np.flatnonzero((axis >= lo) & (axis <= hi))] *)
Definition in_range (lo hi f : Q) : bool := Qle_bool lo f && Qle_bool f hi.

Definition in_range_idx (axis : list Q) (lo hi : Q) : list nat :=
  filter (fun i => in_range lo hi (nth i axis 0)) (seq 0 (length axis)).

(** [l[::stride]] *)
Definition decimate {A} (stride : nat) (l : list A) : list A :=
  map snd (filter (fun p => (fst p mod stride =? 0)%nat) (combine (seq 0 (length l)) l)).

(** [l[sel]] with an index vector; [None] is numpy's IndexError. *)
Fixpoint gather (l : list Q) (sel : list nat) : option (list Q) :=
  match sel with
  | [] => Some []
  | i :: sel' =>
      match nth_error l i, gather l sel' with
      | Some x, Some r => Some (x :: r)
      | _, _ => None
      end
  end.

Definition clip (x lo hi : Q) : Q :=
  if Qltb x lo then lo else if Qltb hi x then hi else x.

(** [(1 - a) * prev + a * y], elementwise on vectors of one length *)
Definition blend (a : Q) (prev y : list Q) : list Q :=
  map (fun p => (1 - a) * fst p + a * snd p) (combine prev y).


(** Stitching, once the segment is in the buffer: mask the axis to the
    sweep range, decimate to at most 1024 points, smooth in linear power,
    hand the trace to the plot and advance.  The dB map, the peak-hold
    envelope and the axis limits belong to the display and are not
    modelled. *)
Definition stitch (st2 : sweep_state) : sweep_state * list action :=
  let idx := in_range_idx (freq_axis st2)
               (last_valid_sweep_start st2) (last_valid_sweep_end st2) in
  match idx with
  | [] => (set_busy false (advance st2), [])
  | _ =>
      let stride := ((length idx + 1023) / 1024)%nat in
      let sel := decimate stride idx in
      match gather (sweep_buffer st2) sel, gather (freq_axis st2) sel with
      | Some y_lin, Some x_hz =>
          let a := clip (sweep_avg_alpha st2) 0 1 in
          let prev :=
            match sweep_prev_linear st2 with
            | Some p => if (length p =? length y_lin)%nat then p else y_lin
            | None => y_lin
            end in
          let sm_lin := blend a prev y_lin in
          (set_busy false (advance (set_prev (Some sm_lin) st2)), [Plot x_hz sm_lin])
      | _, _ => (set_busy false st2, [LogError "capture_fft failed"])
      end
  end.

(** A capture that passed validation: remember it, scale, notch, write the
    segment at the step's offset, stitch. *)
Definition accept_capture (st : sweep_state) (mags : list Q)
  : sweep_state * list action :=
  let st1 := set_last_fft (Some mags) st in
  match fft_size st with
  | O => (set_busy false st1, [LogError "capture_fft failed"])
  | S _ =>
      let seg := dc_notch (fft_size st) (scale_mags (fft_size st) mags) in
      let expected := (length (center_freqs st) * fft_size st)%nat in
      let buf0 := if (length (sweep_buffer st) =? expected)%nat
                  then sweep_buffer st else zeros expected in
      match write_segment buf0 (sweep_ptr st * fft_size st) seg with
      | None => (set_busy false (set_buffer buf0 st1), [LogError "capture_fft failed"])
      | Some buf => stitch (set_buffer buf st1)
      end
  end.

(** [capture_fft]: the guards, then the validation chain (tuner before the
    read, the reading itself, tuner after the read, stale vector), each
    failure ending in [retry_or_skip]. *)
Definition capture_fft (st : sweep_state) (inp : capture_input)
  : sweep_state * list action :=
  if negb (is_sweep_mode (mode st)) || negb (sweep_active st) || rebuilding st
  then (set_busy false st, [])
  else if negb (probe_present st) || (length (center_freqs st) =? 0)%nat
  then (set_busy false st, [])
  else
    match step_freq_hz st with
    | None => (set_busy false (set_retries 0 st), [])
    | Some step =>
        if match tuned_before inp with
           | Some t => off_tune t step
           | None => false
           end
        then retry_or_skip st
        else
          match read_mags (raw inp) (fft_size st) with
          | None => retry_or_skip st
          | Some mags =>
              if match tuned_after inp with
                 | Some t => off_tune t step
                 | None => true
                 end
              then retry_or_skip st
              else
                match (match last_fft st with
                       | Some prev => allclose mags prev
                       | None => Some false
                       end) with
                | None => (set_busy false st, [LogError "capture_fft failed"])
                | Some true => retry_or_skip st
                | Some false => accept_capture st mags
                end
          end
    end.



(** ** Predicates and scenarios used in the statements *)

(** The sweep window as its constructor leaves it, with a given sample rate
    and FFT size. *)
Definition initial_state (rate : Q) (n : nat) : sweep_state :=
  {| mode := ModeWideSpectrum; toggle_checked := false;
     sweep_active := false; sweep_busy := false; rebuilding := false;
     probe_present := true; fft_size := n; samp_rate := rate;
     center_freqs := []; total_steps := 0; total_bins := 0;
     freq_axis := []; sweep_buffer := [];
     sweep_ptr := 0; step_freq_hz := None; cap_retries := 0;
     last_fft := None;
     last_valid_sweep_start := 80000000; last_valid_sweep_end := 100000000;
     sweep_prev_linear := None; sweep_avg_alpha := 0.20 |}.


(** The capture passes the guards and the first three validations at the
    planned step: the tuner is within 1 Hz of the step before and after the
    read, and the reading is a finite vector of [fft_size] magnitudes. *)
Definition validated (st : sweep_state) (inp : capture_input) (mags : list Q) : Prop :=
  is_sweep_mode (mode st) = true
  /\ sweep_active st = true
  /\ rebuilding st = false
  /\ probe_present st = true
  /\ center_freqs st <> []
  /\ (exists step,
        step_freq_hz st = Some step
        /\ (forall t, tuned_before inp = Some t -> Qabs (t - step) <= 1)
        /\ (exists t, tuned_after inp = Some t /\ Qabs (t - step) <= 1))
  /\ read_mags (raw inp) (fft_size st) = Some mags.


(** A sweep in progress at the first of two 16 Hz steps over 100..120 Hz,
    with 16 bins per step. *)
Definition demo_state (prev : option (list Q)) : sweep_state :=
  {| mode := ModeWideSpectrum; toggle_checked := true;
     sweep_active := true; sweep_busy := true; rebuilding := false;
     probe_present := true; fft_size := 16; samp_rate := 16;
     center_freqs := [108; 124]; total_steps := 2; total_bins := 32;
     freq_axis := plan_freq_axis 16 16 [108; 124]; sweep_buffer := zeros 32;
     sweep_ptr := 0; step_freq_hz := Some 108; cap_retries := 0;
     last_fft := prev;
     last_valid_sweep_start := 100; last_valid_sweep_end := 120;
     sweep_prev_linear := None; sweep_avg_alpha := 0.20 |}.

Definition demo_input (v : list Q) : capture_input :=
  {| tuned_before := Some 108; raw := ReadVec (map Finite v); tuned_after := Some 108 |}.


(** A capture of 16 bins whose only raised bin is [c-3], the bin next to the
    notch on the low side. *)
Definition spike16 : list Q :=
  [16; 16; 16; 16; 16; 112; 16; 16; 16; 16; 16; 16; 16; 16; 16; 16].

End Sweep.

(* ================================================================== *)
(** * Frequency policy: validation of the port range table *)
(* ================================================================== *)

Module Policy.

Local Open Scope Q_scope.

(** What one range field yields once [text.replace(" ", "").split(":")] and
    the two [float(...)] conversions have run: a failure (not exactly two
    parts, or a part that is not a number), or the two bounds in MHz. *)
Inductive field := Malformed | Bounds (low high : Q).

(** One entry [(low, high, port)] of the local list [ranges]. *)
Definition range : Type := Q * Q * string.

Definition low (r : range) : Q := fst (fst r).
Definition high (r : range) : Q := snd (fst r).
Definition port_of (r : range) : string := snd r.

(** The first loop of [validate_port_ranges]: [None] stands for the
    [return False] of the exception handler. *)
Fixpoint collect_ranges (inputs : list (string * field)) : option (list range) :=
  match inputs with
  | [] => Some []
  | (port, Malformed) :: _ => None
  | (port, Bounds lo hi) :: rest =>
      if Qle_bool hi lo then None
      else if Sweep.Qltb 4000 hi then None
      else option_map (cons (lo, hi, port)) (collect_ranges rest)
  end.

(** Python's [<] on the tuples [(low, high, port)]: the first component on
    which the two differ decides. *)
Definition range_ltb (a b : range) : bool :=
  if negb (Qeq_bool (low a) (low b)) then Sweep.Qltb (low a) (low b)
  else if negb (Qeq_bool (high a) (high b)) then Sweep.Qltb (high a) (high b)
  else String.ltb (port_of a) (port_of b).

(** [ranges.sort()]: a stable sort by [range_ltb]. *)
Fixpoint insert_range (x : range) (l : list range) : list range :=
  match l with
  | [] => [x]
  | y :: l' => if range_ltb y x then y :: insert_range x l' else x :: y :: l'
  end.

Definition sort_ranges (l : list range) : list range :=
  fold_right insert_range [] l.

(** The second loop: no entry may reach the next one's lower bound. *)
Fixpoint adjacent_clear (l : list range) : bool :=
  match l with
  | r1 :: ((r2 :: _) as tl) =>
      if Qle_bool (low r2) (high r1) then false else adjacent_clear tl
  | _ => true
  end.

Definition validate_port_ranges (inputs : list (string * field)) : bool :=
  match collect_ranges inputs with
  | None => false
  | Some ranges => adjacent_clear (sort_ranges ranges)
  end.

(** The fields of a table whose entries all parse. *)
Definition fields_of (table : list range) : list (string * field) :=
  map (fun r => (port_of r, Bounds (low r) (high r))) table.

(** ** Predicates and scenarios used in the statements *)


Definition well_formed (r : range) : Prop := low r < high r /\ high r <= 4000.

Definition low_le (a b : range) : Prop := low a <= low b.

End Policy.

(* ================================================================== *)
(** * Antenna selection and interference detector (real-number model) *)
(* ================================================================== *)

Module Detector.

Local Open Scope R_scope.

Definition Rleb (a b : R) : bool := if Rle_dec a b then true else false.
Definition Rltb (a b : R) : bool := if Rlt_dec a b then true else false.

(** ** Strings: [str.strip()] and [str.upper()] on ASCII text *)

Definition is_space (c : ascii) : bool :=
  let n := nat_of_ascii c in
  ((9 <=? n) && (n <=? 13))%nat || ((28 <=? n) && (n <=? 32))%nat.

Fixpoint lstrip (l : list ascii) : list ascii :=
  match l with
  | c :: l' => if is_space c then lstrip l' else l
  | [] => []
  end.

Definition strip (s : string) : string :=
  string_of_list_ascii (rev (lstrip (rev (lstrip (list_ascii_of_string s))))).

Definition upper_char (c : ascii) : ascii :=
  let n := nat_of_ascii c in
  if ((97 <=? n) && (n <=? 122))%nat then ascii_of_nat (n - 32) else c.

Fixpoint upper (s : string) : string :=
  match s with
  | EmptyString => EmptyString
  | String c s' => String (upper_char c) (upper s')
  end.

(** [valid] of [update_antenna] and [self.ports] of the detector. *)
Definition valid : list string :=
  ["A1"; "A2"; "A3"; "A4"; "B1"; "B2"; "B3"; "B4"]%string.

Definition ports : list string :=
  ["A4"; "A3"; "A2"; "A1"; "B4"; "B3"; "B2"; "B1"]%string.

Definition mem (s : string) (l : list string) : bool := existsb (String.eqb s) l.

(** [l.index(s)], for [s] in [l] *)
Fixpoint index (s : string) (l : list string) : nat :=
  match l with
  | [] => O
  | x :: l' => if String.eqb x s then O else S (index s l')
  end.

(** ** State *)

Record jam_params := {
  jam_alpha : R;
  jam_thresh_db : R;
  jam_occ_min : R;
  jam_occ_multipeak : R;
  jam_span_min : R;
  jam_sfm_min_db : R;
  sfm_offset : R;
  jam_median_db : R;
  jam_band_db : R;
  jam_hold_s : R;
  jam_cooldown_s : R
}.

(** The values [_build_jamming_pipeline] installs. *)
Definition default_params : jam_params :=
  {| jam_alpha := 0.05; jam_thresh_db := 6.5; jam_occ_min := 0.5;
     jam_occ_multipeak := 0.15; jam_span_min := 0.008;
     jam_sfm_min_db := -5.0; sfm_offset := 0.8; jam_median_db := 2.0;
     jam_band_db := 1.5; jam_hold_s := 0.4; jam_cooldown_s := 4.0 |}.

(** The detector's mutable attributes.  An attribute read through
    [getattr(self, name, default)] is a plain field that starts at the
    default; one tested with [hasattr] or against [None] is an option. *)
Record jam_state := {
  jam_ready_at : R;
  jam_baseline_db : option (list R);
  jam_started : option R;
  jam_cooldown_until : R;
  sfm_ref : option R;
  current_port_index : nat;
  jam_ignore_until : option R;
  baseline_freeze_until : R;
  occ_req_ema : option R;
  jam_band_state : bool;
  jam_med_state : bool;
  score_ema : option R;
  jam_last_switch : R;
  last_score_at_switch : R
}.

Record window := {
  mode : mode_t;
  toggle_checked : bool;
  rebuilding : bool;
  antenna_select : string;
  antenna_edit : option string;      (* text of the line edit, when built *)
  antenna_error_label : bool;        (* the label exists *)
  src_present : bool;
  oc_panel_present : bool;
  fft_size : nat;
  jam_mask : option (list bool);
  params : jam_params;
  jam : jam_state
}.

Inductive event :=
| SetAntenna (port : string)         (* src.set_antenna(val, 0) *)
| PanelSetActive (port : string)     (* oc_panel.set_active(val, ...) *)
| AntennaChanged (port : string)     (* antenna_changed.emit(val) *)
| Notice (label : string)            (* show_temporary_label *)
| JamAlert                           (* jam_alert_label.show() *)
| LogError.                          (* print("[ERROR] check_jamming: ...") *)

Definition set_jam (j : jam_state) (w : window) : window :=
  {| mode := mode w; toggle_checked := toggle_checked w;
     rebuilding := rebuilding w; antenna_select := antenna_select w;
     antenna_edit := antenna_edit w;
     antenna_error_label := antenna_error_label w;
     src_present := src_present w; oc_panel_present := oc_panel_present w;
     fft_size := fft_size w; jam_mask := jam_mask w; params := params w;
     jam := j |}.

Definition set_antenna_select (s : string) (w : window) : window :=
  {| mode := mode w; toggle_checked := toggle_checked w;
     rebuilding := rebuilding w; antenna_select := s;
     antenna_edit := antenna_edit w;
     antenna_error_label := antenna_error_label w;
     src_present := src_present w; oc_panel_present := oc_panel_present w;
     fft_size := fft_size w; jam_mask := jam_mask w; params := params w;
     jam := jam w |}.

Definition set_antenna_edit (t : option string) (w : window) : window :=
  {| mode := mode w; toggle_checked := toggle_checked w;
     rebuilding := rebuilding w; antenna_select := antenna_select w;
     antenna_edit := t;
     antenna_error_label := antenna_error_label w;
     src_present := src_present w; oc_panel_present := oc_panel_present w;
     fft_size := fft_size w; jam_mask := jam_mask w; params := params w;
     jam := jam w |}.

Definition is_jamming (m : mode_t) : bool :=
  match m with ModeJamming => true | _ => false end.

(** ** [update_antenna] *)

(** The value [update_antenna] validates: the argument, or the text of the
    line edit, stripped and upper-cased; the current selection as it is when
    there is neither. *)
Definition requested_port (w : window) (val : option string) : string :=
  match val with
  | Some v => upper (strip v)
  | None =>
      match antenna_edit w with
      | None => antenna_select w
      | Some txt => upper (strip txt)
      end
  end.

(** [update_antenna(val)].  [t1] and [t2] are the two readings of
    [time.time()] taken in jamming mode. *)
Definition update_antenna (val : option string) (t1 t2 : R) (w : window)
  : window * list event :=
  let v := requested_port w val in
  if mem v valid then
    let w1 := set_antenna_select v w in
    let evs := (if src_present w then [SetAntenna v] else [])
            ++ (if oc_panel_present w then [PanelSetActive v] else [])
            ++ [AntennaChanged v] in
    if is_jamming (mode w) then
      let j := jam w1 in
      (set_jam
         {| jam_ready_at := t1 + 1.5;
            jam_baseline_db := None;
            jam_started := jam_started j;
            jam_cooldown_until := jam_cooldown_until j;
            sfm_ref := sfm_ref j;
            current_port_index :=
              if mem v ports then index v ports else current_port_index j;
            jam_ignore_until := jam_ignore_until j;
            baseline_freeze_until := baseline_freeze_until j;
            occ_req_ema := occ_req_ema j;
            jam_band_state := jam_band_state j;
            jam_med_state := jam_med_state j;
            score_ema := score_ema j;
            jam_last_switch := t2;
            last_score_at_switch := last_score_at_switch j |} w1, evs)
    else (w1, evs)
  else
    let evs := if antenna_error_label w then [Notice "antenna_error_label"] else [] in
    match antenna_edit w with
    | None => (w, evs)
    | Some _ => (set_antenna_edit (Some (antenna_select w)) w, evs)
    end.

(** ** numpy on real vectors *)

(** One sample of a probe reading: a finite value, or NaN / infinity. *)
Inductive sample := Finite (x : R) | NonFinite.

(** Result of [probe.level()]: an exception or [None], or a flat vector. *)
Inductive reading := ReadFail | ReadVec (v : list sample).

Fixpoint finite_values (v : list sample) : option (list R) :=
  match v with
  | [] => Some []
  | Finite x :: v' => option_map (cons x) (finite_values v')
  | NonFinite :: _ => None
  end.

Definition read_mags (r : reading) (n : nat) : option (list R) :=
  match r with
  | ReadFail => None
  | ReadVec v => if (length v =? n)%nat then finite_values v else None
  end.

Definition Rsum (l : list R) : R := fold_right Rplus 0 l.
Definition mean (l : list R) : R := Rsum l / INR (length l).
Definition log10 (x : R) : R := ln x / ln 10.
Definition pow10 (y : R) : R := Rpower 10 y.
Definition clip (x lo hi : R) : R := Rmin (Rmax x lo) hi.

Fixpoint insert (x : R) (l : list R) : list R :=
  match l with
  | [] => [x]
  | y :: l' => if Rleb x y then x :: l else y :: insert x l'
  end.

Definition sort (l : list R) : list R := fold_right insert [] l.

(** [np.median] of a non-empty vector *)
Definition median (l : list R) : R :=
  let s := sort l in
  let n := length s in
  if Nat.even n then (nth (n / 2 - 1) s 0 + nth (n / 2) s 0) / 2
  else nth (n / 2) s 0.

(** An elementwise binary operation under numpy's broadcasting of flat
    vectors; [None] when the shapes do not agree (numpy raises). *)
Definition broadcast2 (f : R -> R -> R) (a b : list R) : option (list R) :=
  if (length a =? length b)%nat then Some (map (fun p => f (fst p) (snd p)) (combine a b))
  else if (length a =? 1)%nat then Some (map (f (hd 0 a)) b)
  else if (length b =? 1)%nat then Some (map (fun x => f x (hd 0 b)) a)
  else None.

(** [v[m]] with a boolean mask; [None] is numpy's IndexError. *)
Definition mask_select (m : list bool) (v : list R) : option (list R) :=
  if (length m =? length v)%nat then Some (map snd (filter fst (combine m v)))
  else None.

(** [spectral_flatness_db(power_lin, eps=1e-12)] *)
Definition spectral_flatness_db (power_lin : list R) : R :=
  let eps := 1e-12 in
  let x := map (fun p => Rmax p eps) power_lin in
  let gmean := exp (mean (map ln x)) in
  let amean := mean x in
  10 * log10 (gmean / (amean + eps) + eps).

(** [_rebuild_jam_mask]: the centre region and two bins at each edge are
    excluded. *)
Definition rebuild_jam_mask (n : nat) : list bool :=
  let k := Nat.max 2 (n / 256) in
  let c := (n / 2)%nat in
  map (fun i => negb ((c - k <=? i) && (i <? Nat.min n (c + k + 1)))%nat
                && negb (i <? 2)%nat && negb (n - 2 <=? i)%nat)
      (seq 0 n).

(** [np.diff] *)
Fixpoint diff (l : list Z) : list Z :=
  match l with
  | a :: ((b :: _) as tl) => (b - a)%Z :: diff tl
  | _ => []
  end.

(** [np.where(l == v)[0]] *)
Definition where_eq (v : Z) (l : list Z) : list nat :=
  filter (fun i => (nth i l 0 =? v)%Z) (seq 0 (length l)).

(** Longest contiguous run of over-threshold bins, as the detector finds it:
    rising and falling edges of the zero-padded indicator. *)
Definition max_run (over : list bool) : nat :=
  let over_i := map (fun b : bool => if b then 1%Z else 0%Z) over in
  let edges := diff (0%Z :: over_i ++ [0%Z]) in
  let starts := where_eq 1 edges in
  let ends := where_eq (-1) edges in
  let run_lengths := map (fun p => (snd p - fst p)%nat) (combine starts ends) in
  fold_right Nat.max O run_lengths.

(** ** [check_jamming] *)

(** What one tick reads: the probe, [now = time.time()], and the two clock
    readings [update_antenna] takes when the tick switches. *)
Record tick_input := {
  raw : reading;
  now : R;
  clock1 : R;
  clock2 : R
}.

(** [mags *= 1/fft_size; power_db = 20*log10(clip(mags, 1e-12, 1e9))] *)
Definition power_db_of (n : nat) (mags : list R) : list R :=
  map (fun x => 20 * log10 (clip (x * (1 / INR n)) 1e-12 1e9)) mags.

Definition set_baseline (b : option (list R)) (j : jam_state) : jam_state :=
  {| jam_ready_at := jam_ready_at j; jam_baseline_db := b;
     jam_started := jam_started j; jam_cooldown_until := jam_cooldown_until j;
     sfm_ref := sfm_ref j; current_port_index := current_port_index j;
     jam_ignore_until := jam_ignore_until j;
     baseline_freeze_until := baseline_freeze_until j;
     occ_req_ema := occ_req_ema j; jam_band_state := jam_band_state j;
     jam_med_state := jam_med_state j; score_ema := score_ema j;
     jam_last_switch := jam_last_switch j;
     last_score_at_switch := last_score_at_switch j |}.

Definition set_ignore_until (t : option R) (j : jam_state) : jam_state :=
  {| jam_ready_at := jam_ready_at j; jam_baseline_db := jam_baseline_db j;
     jam_started := jam_started j; jam_cooldown_until := jam_cooldown_until j;
     sfm_ref := sfm_ref j; current_port_index := current_port_index j;
     jam_ignore_until := t;
     baseline_freeze_until := baseline_freeze_until j;
     occ_req_ema := occ_req_ema j; jam_band_state := jam_band_state j;
     jam_med_state := jam_med_state j; score_ema := score_ema j;
     jam_last_switch := jam_last_switch j;
     last_score_at_switch := last_score_at_switch j |}.

Definition set_started (t : option R) (j : jam_state) : jam_state :=
  {| jam_ready_at := jam_ready_at j; jam_baseline_db := jam_baseline_db j;
     jam_started := t; jam_cooldown_until := jam_cooldown_until j;
     sfm_ref := sfm_ref j; current_port_index := current_port_index j;
     jam_ignore_until := jam_ignore_until j;
     baseline_freeze_until := baseline_freeze_until j;
     occ_req_ema := occ_req_ema j; jam_band_state := jam_band_state j;
     jam_med_state := jam_med_state j; score_ema := score_ema j;
     jam_last_switch := jam_last_switch j;
     last_score_at_switch := last_score_at_switch j |}.

Definition set_port_index (i : nat) (j : jam_state) : jam_state :=
  {| jam_ready_at := jam_ready_at j; jam_baseline_db := jam_baseline_db j;
     jam_started := jam_started j; jam_cooldown_until := jam_cooldown_until j;
     sfm_ref := sfm_ref j; current_port_index := i;
     jam_ignore_until := jam_ignore_until j;
     baseline_freeze_until := baseline_freeze_until j;
     occ_req_ema := occ_req_ema j; jam_band_state := jam_band_state j;
     jam_med_state := jam_med_state j; score_ema := score_ema j;
     jam_last_switch := jam_last_switch j;
     last_score_at_switch := last_score_at_switch j |}.

(** The first half of a tick, up to the two masked spectra: either the tick
    is over (guards, warm-up, a missing baseline or mask, an exception), or
    the detector goes on with the updated baseline. *)
Inductive front :=
| FrontReturn (w' : window) (evs : list event)
| FrontSpectra (j1 : jam_state) (power_db masked_curr masked_base : list R).

Definition jam_front (w : window) (inp : tick_input) : front :=
  if rebuilding w then FrontReturn w []
  else if negb (is_jamming (mode w)) || negb (toggle_checked w) then FrontReturn w []
  else
    match read_mags (raw inp) (fft_size w) with
    | None => FrontReturn w []
    | Some mags =>
        match fft_size w with
        | O => FrontReturn w [LogError]
        | S _ =>
            let power_db := power_db_of (fft_size w) mags in
            let j := jam w in
            if match jam_ignore_until j with
               | Some t => Rltb (now inp) t
               | None => false
               end
            then FrontReturn w []
            else
              let freeze_until := baseline_freeze_until j in
              match jam_baseline_db j with
              | None => FrontReturn (set_jam (set_baseline (Some power_db) j) w) []
              | Some base0 =>
                  match (if Rleb freeze_until (now inp)
                         then broadcast2
                                (fun b p => (1 - jam_alpha (params w)) * b
                                            + jam_alpha (params w) * p)
                                base0 power_db
                         else Some base0) with
                  | None => FrontReturn w [LogError]
                  | Some base =>
                      let j1 := set_baseline (Some base) j in
                      if Rltb (now inp) (jam_ready_at j) then FrontReturn (set_jam j1 w) []
                      else
                        match jam_mask w with
                        | None => FrontReturn (set_jam j1 w) []
                        | Some m =>
                            if (length m =? 0)%nat || negb (existsb (fun b => b) m)
                            then FrontReturn (set_jam j1 w) []
                            else
                              match mask_select m power_db, mask_select m base with
                              | Some masked_curr, Some masked_base =>
                                  FrontSpectra j1 power_db masked_curr masked_base
                              | _, _ => FrontReturn (set_jam j1 w) [LogError]
                              end
                        end
                  end
              end
        end
    end.

(** [clamp(v, lo, hi)], the module's own helper *)
Definition clamp (v lo hi : R) : R :=
  if Rltb v lo then lo else if Rltb hi v then hi else v.

(** The occupancy requirement: scaled with the masked bin count, relieved
    when the spectrum is flat. *)
Definition occ_requirement (occ_min : R) (Nmask : nat) (sfm_db : R) : R :=
  let scale := sqrt (256 / Rmax 64 (INR Nmask)) in
  let occ_req := Rmax 0.10 (Rmin 0.45 (occ_min * scale)) in
  if Rleb (-3.5) sfm_db then Rmax 0.10 (0.85 * occ_req)
  else if Rleb (-4.0) sfm_db then Rmax 0.12 (0.92 * occ_req)
  else occ_req.

(** Following the spec's words for the requirement: the clamped, scaled
    minimum occupancy, multiplied by 0.85 or by 0.92 when the spectrum is
    flat, with nothing else applied. *)
Definition occ_requirement_spec (occ_min : R) (Nmask : nat) (sfm_db : R) : R :=
  let base := clamp (occ_min * sqrt (256 / Rmax 64 (INR Nmask))) 0.10 0.45 in
  if Rleb (-3.5) sfm_db then 0.85 * base
  else if Rleb (-4.0) sfm_db then 0.92 * base
  else base.

(** [self._occ_req_ema] after the tick *)
Definition occ_req_smooth (prev : option R) (occ_req : R) : R :=
  match prev with
  | None => occ_req
  | Some e => 0.6 * e + 0.4 * occ_req
  end.

(** Every quantity a full tick derives from the two masked spectra. *)
Record metrics := {
  m_sfm_db : R;
  m_sfm_ref : R;
  m_sfm_gate : R;
  m_over : list bool;
  m_occ : R;
  m_occ_req : R;
  m_occ_req_ema : R;
  m_occ_req_eff : R;
  m_band_lift : R;
  m_span_frac : R;
  m_band_ok : bool;
  m_med_ok : bool;
  m_enough_bins : bool;
  m_pre : bool;
  m_cond : bool;
  m_score : R;
  m_score_ema : R;
  m_need : R;
  m_improves : bool
}.

Definition count_true (l : list bool) : nat := length (filter (fun b => b) l).

Definition jam_metrics (p : jam_params) (j : jam_state) (now : R)
    (masked_curr masked_base : list R) (med_lift : R) : metrics :=
  let Nmask := length masked_curr in
  (* spectral flatness *)
  let p_lin := map (fun x => pow10 (x / 10)) masked_curr in
  let sfm_db := spectral_flatness_db p_lin in
  let sfm_ref' := match sfm_ref j with
                  | None => sfm_db
                  | Some r => 0.95 * r + 0.05 * sfm_db
                  end in
  let sfm_gate := Rmax (jam_sfm_min_db p) (sfm_ref' + sfm_offset p) in
  (* occupancy against the baseline *)
  let over := map (fun c => Rleb (jam_thresh_db p) (fst c - snd c))
                  (combine masked_curr masked_base) in
  let occ := INR (count_true over) / INR (Nat.max 1 Nmask) in
  let occ_req := occ_requirement (jam_occ_min p) Nmask sfm_db in
  let ema := occ_req_smooth (occ_req_ema j) occ_req in
  let occ_req_eff := clip ema 0.10 0.45 in
  (* band power lift *)
  let eps := 1e-12 in
  let band_lift :=
    10 * log10 ((mean (map (fun x => pow10 (x / 10)) masked_curr) + eps)
                / (mean (map (fun x => pow10 (x / 10)) masked_base) + eps)) in
  let span_frac := INR (max_run over) / INR Nmask in
  (* hysteresis *)
  let band_on := jam_band_db p in
  let med_on := jam_median_db p in
  let band_off := Rmax 0.5 (band_on - 0.8) in
  let med_off := Rmax 0.5 (med_on - 0.8) in
  let band_ok := Rleb (if jam_band_state j then band_off else band_on) band_lift in
  let med_ok := Rleb (if jam_med_state j then med_off else med_on) med_lift in
  let min_bins := Nat.max 6 (6 * Nmask / 1000) in
  let enough_bins := (min_bins <=? count_true over)%nat in
  let pre := Rleb (0.8 * occ_req_eff) occ
             && (Rleb (0.8 * band_on) band_lift
                 || Rleb (0.8 * med_on) med_lift
                 || Rleb (0.8 * jam_span_min p) span_frac) in
  let cond_wideband := enough_bins && Rleb occ_req_eff occ
                       && (Rleb sfm_gate sfm_db || band_ok) in
  let cond_multipeak := enough_bins && Rleb (jam_occ_multipeak p) occ
                        && Rleb (jam_span_min p) span_frac in
  let cond_median := med_ok in
  let cond := cond_wideband || cond_multipeak || cond_median in
  (* score and stickiness *)
  let score := 0.6 * (occ / Rmax occ_req_eff 1e-6)
               + 0.25 * Rmax 0 (band_lift / Rmax band_on 1e-6)
               + 0.15 * Rmax 0 (med_lift / Rmax med_on 1e-6) in
  let score_ema' := match score_ema j with
                    | None => score
                    | Some e => 0.8 * e + 0.2 * score
                    end in
  let age := now - jam_last_switch j in
  let decay := Rpower 0.5 (Rmax 0 (age / 8)) in
  let last := last_score_at_switch j * decay in
  let need := Rmax 1.10 (last + 0.10) in
  {| m_sfm_db := sfm_db; m_sfm_ref := sfm_ref'; m_sfm_gate := sfm_gate;
     m_over := over; m_occ := occ; m_occ_req := occ_req;
     m_occ_req_ema := ema; m_occ_req_eff := occ_req_eff;
     m_band_lift := band_lift; m_span_frac := span_frac;
     m_band_ok := band_ok; m_med_ok := med_ok; m_enough_bins := enough_bins;
     m_pre := pre; m_cond := cond; m_score := score; m_score_ema := score_ema';
     m_need := need; m_improves := Rleb need score_ema' |}.

(** The detector's attributes once the metrics of the tick are stored, before
    the hold / cooldown gate. *)
Definition store_metrics (j : jam_state) (now : R) (mt : metrics) : jam_state :=
  {| jam_ready_at := jam_ready_at j; jam_baseline_db := jam_baseline_db j;
     jam_started := jam_started j; jam_cooldown_until := jam_cooldown_until j;
     sfm_ref := Some (m_sfm_ref mt);
     current_port_index := current_port_index j;
     jam_ignore_until := jam_ignore_until j;
     baseline_freeze_until :=
       if m_pre mt && Rleb (baseline_freeze_until j) now
       then now + 0.6 else baseline_freeze_until j;
     occ_req_ema := Some (m_occ_req_ema mt);
     jam_band_state := m_band_ok mt; jam_med_state := m_med_ok mt;
     score_ema := Some (m_score_ema mt);
     jam_last_switch := jam_last_switch j;
     last_score_at_switch := last_score_at_switch j |}.

(** The body of [if held and dwell_ok and cooldown_ok]: rotate the port,
    commit it through [update_antenna], then reset and re-arm. *)
Definition fire (w : window) (j2 : jam_state) (power_db : list R) (mt : metrics)
    (inp : tick_input) : window * list event :=
  let idx := ((current_port_index j2 + 1) mod length ports)%nat in
  let new_port := nth idx ports ""%string in
  let w1 := set_jam (set_port_index idx j2) w in
  let w2 := match antenna_edit w1 with
            | None => w1
            | Some _ => set_antenna_edit (Some new_port) w1
            end in
  let (w3, evs) := update_antenna None (clock1 inp) (clock2 inp) w2 in
  let j3 := jam w3 in
  (set_jam
     {| jam_ready_at := now inp + 0.8;
        jam_baseline_db := Some power_db;
        jam_started := None;
        jam_cooldown_until := now inp + jam_cooldown_s (params w);
        sfm_ref := Some (m_sfm_db mt);
        current_port_index := current_port_index j3;
        jam_ignore_until := jam_ignore_until j3;
        baseline_freeze_until := now inp + 0.6;
        occ_req_ema := occ_req_ema j3;
        jam_band_state := jam_band_state j3;
        jam_med_state := jam_med_state j3;
        score_ema := score_ema j3;
        jam_last_switch := now inp;
        last_score_at_switch := m_score_ema mt |} w3,
   JamAlert :: evs).

(** [held and dwell_ok and cooldown_ok], with the hold start already set *)
Definition may_fire (p : jam_params) (j2 : jam_state) (now started : R) : bool :=
  Rleb (jam_hold_s p) (now - started)
  && Rleb 0.6 (now - jam_last_switch j2)
  && Rleb (jam_cooldown_until j2) now.

Definition hold_start (j : jam_state) (now : R) : R :=
  match jam_started j with
  | None => now
  | Some t => t
  end.

(** The second half of a tick: the safety valve, the metrics, and the
    hold / cooldown / dwell gate. *)
Definition jam_decide (w : window) (inp : tick_input) (j1 : jam_state)
    (power_db masked_curr masked_base : list R) : window * list event :=
  let med_lift := median masked_curr - median masked_base in
  if Rltb 8 med_lift
  then (set_jam (set_ignore_until (Some (now inp + 0.8))
                   (set_baseline (Some power_db) j1)) w, [])
  else
    let mt := jam_metrics (params w) j1 (now inp) masked_curr masked_base med_lift in
    let j2 := store_metrics j1 (now inp) mt in
    if m_cond mt && m_improves mt then
      let started := hold_start j2 (now inp) in
      if may_fire (params w) j2 (now inp) started
      then fire w (set_started (Some started) j2) power_db mt inp
      else (set_jam (set_started (Some started) j2) w, [])
    else (set_jam (set_started None j2) w, []).

Definition check_jamming (w : window) (inp : tick_input) : window * list event :=
  match jam_front w inp with
  | FrontReturn w' evs => (w', evs)
  | FrontSpectra j1 power_db masked_curr masked_base =>
      jam_decide w inp j1 power_db masked_curr masked_base
  end.

(** ** Runs of the detector *)

(** The ticks of a run, each with its time and the events it emitted. *)
Fixpoint run (w : window) (ticks : list tick_input) : list (R * list event) :=
  match ticks with
  | [] => []
  | inp :: rest =>
      let (w', evs) := check_jamming w inp in
      (now inp, evs) :: run w' rest
  end.

Definition is_switch (e : event) : bool :=
  match e with AntennaChanged _ => true | _ => false end.

(** The times at which a run emitted a port switch. *)
Definition switch_times (w : window) (ticks : list tick_input) : list R :=
  map fst (filter (fun te => existsb is_switch (snd te)) (run w ticks)).

(** The state a run ends in. *)
Fixpoint after (w : window) (ticks : list tick_input) : window :=
  match ticks with
  | [] => w
  | inp :: rest => after (fst (check_jamming w inp)) rest
  end.


(** What the gate saw on a tick: [Some (cond and improves)] when the tick
    got as far as the gate, [None] when it ended before (guards, warm-up,
    ignore window, safety valve, exception). *)
Definition verdict (w : window) (inp : tick_input) : option bool :=
  match jam_front w inp with
  | FrontReturn _ _ => None
  | FrontSpectra j1 _ masked_curr masked_base =>
      let med_lift := median masked_curr - median masked_base in
      if Rltb 8 med_lift then None
      else
        let mt := jam_metrics (params w) j1 (now inp) masked_curr masked_base med_lift in
        Some (m_cond mt && m_improves mt)
  end.

(** Consecutive entries of a list of times are at least [gap] apart. *)
Fixpoint spaced (gap : R) (l : list R) : Prop :=
  match l with
  | t1 :: ((t2 :: _) as tl) => t1 + gap <= t2 /\ spaced gap tl
  | _ => True
  end.

(** ** Predicates and scenarios used in the statements *)

(** The detector's attributes as [_build_jamming_pipeline] leaves them at
    time [t0], on port [A4]. *)
Definition initial_jam (t0 : R) : jam_state :=
  {| jam_ready_at := t0 + 1.5; jam_baseline_db := None; jam_started := None;
     jam_cooldown_until := 0; sfm_ref := None; current_port_index := 0;
     jam_ignore_until := None; baseline_freeze_until := 0;
     occ_req_ema := None; jam_band_state := false; jam_med_state := false;
     score_ema := None; jam_last_switch := 0; last_score_at_switch := 0 |}.

(** A running window in jamming mode with [n] FFT bins. *)
Definition jamming_window (n : nat) (j : jam_state) : window :=
  {| mode := ModeJamming; toggle_checked := true; rebuilding := false;
     antenna_select := "A4"; antenna_edit := Some "A4"%string;
     antenna_error_label := true; src_present := true;
     oc_panel_present := true; fft_size := n;
     jam_mask := Some (rebuild_jam_mask n); params := default_params;
     jam := j |}.


(** The detector's attributes right after a switch at [now]. *)
Definition rearmed (p : jam_params) (j2 : jam_state) (power_db : list R)
    (mt : metrics) (now : R) (idx : nat) : jam_state :=
  {| jam_ready_at := now + 0.8;
     jam_baseline_db := Some power_db;
     jam_started := None;
     jam_cooldown_until := now + jam_cooldown_s p;
     sfm_ref := Some (m_sfm_db mt);
     current_port_index := idx;
     jam_ignore_until := jam_ignore_until j2;
     baseline_freeze_until := now + 0.6;
     occ_req_ema := occ_req_ema j2;
     jam_band_state := jam_band_state j2;
     jam_med_state := jam_med_state j2;
     score_ema := score_ema j2;
     jam_last_switch := now;
     last_score_at_switch := m_score_ema mt |}.


(** Power in dB of a bin of magnitude [x] on 16 bins. *)
Definition db16 (x : R) : R := 20 * log10 (clip (x * (1 / INR 16)) 1e-12 1e9).

(** A tick that reads the magnitude [x] in every one of 16 bins at time [t]. *)
Definition flat_input (x t : R) : tick_input :=
  {| raw := ReadVec (map Finite (repeat x 16)); now := t; clock1 := t; clock2 := t |}.

(** A running 16-bin window in jamming mode with the default parameters. *)
Definition window16 (w : window) : Prop :=
  rebuilding w = false /\ mode w = ModeJamming /\ toggle_checked w = true
  /\ fft_size w = 16%nat /\ jam_mask w = Some (rebuild_jam_mask 16)
  /\ params w = default_params.

(** The baseline a flat tick compares against, and the metrics it derives. *)
Definition flat_base (w : window) (x t b : R) : R :=
  if Rleb (baseline_freeze_until (jam w)) t
  then (1 - 0.05) * b + 0.05 * db16 x else b.

Definition flat_metrics (w : window) (x t b : R) : metrics :=
  let b' := flat_base w x t b in
  jam_metrics (params w) (set_baseline (Some (repeat b' 16)) (jam w)) t
    (repeat (db16 x) 7) (repeat b' 7)
    (median (repeat (db16 x) 7) - median (repeat b' 7)).

Definition flat_stored (w : window) (x t b : R) : jam_state :=
  store_metrics (set_baseline (Some (repeat (flat_base w x t b) 16)) (jam w)) t
    (flat_metrics w x t b).

(** A detector past its warm-up with a flat, frozen baseline at [b] dB, no
    switch on record, and the hold started or not. *)
Definition armed (b : R) (started : option R) : jam_state :=
  {| jam_ready_at := 0; jam_baseline_db := Some (repeat b 16);
     jam_started := started; jam_cooldown_until := 0; sfm_ref := None;
     current_port_index := 0; jam_ignore_until := None;
     baseline_freeze_until := 100; occ_req_ema := None;
     jam_band_state := false; jam_med_state := false; score_ema := None;
     jam_last_switch := 0; last_score_at_switch := 0 |}.

(** The window the run starts from: baseline at -7 dB, no hold. *)
Definition start16 : window := jamming_window 16 (armed (-7) None).

(** A magnitude that reads 7 dB. *)
Definition loud : R := 16 * pow10 (7 / 20).

(** Two ticks at 0 dB, then two at 7 dB eight seconds later. *)
Definition tick1 : tick_input := flat_input 16 9.5.

Definition tick2 : tick_input := flat_input 16 10.

Definition tick3 : tick_input := flat_input loud 18.

Definition tick4 : tick_input := flat_input loud 18.5.

Definition after1 : window := fst (check_jamming start16 tick1).

Definition after2 : window := fst (check_jamming after1 tick2).

Definition after3 : window := fst (check_jamming after2 tick3).

End Detector.

(* ================================================================== *)
(** * Sweep stepping: tuning to the next centre and the plot range *)
(* ================================================================== *)

Module SweepStep.

Import Sweep.
Local Open Scope Q_scope.

Definition set_step (f : option Q) (st : sweep_state) : sweep_state :=
  {| mode := mode st; toggle_checked := toggle_checked st;
     sweep_active := sweep_active st; sweep_busy := sweep_busy st;
     rebuilding := rebuilding st; probe_present := probe_present st;
     fft_size := fft_size st; samp_rate := samp_rate st;
     center_freqs := center_freqs st; total_steps := total_steps st;
     total_bins := total_bins st; freq_axis := freq_axis st;
     sweep_buffer := sweep_buffer st;
     sweep_ptr := sweep_ptr st; step_freq_hz := f;
     cap_retries := cap_retries st; last_fft := last_fft st;
     last_valid_sweep_start := last_valid_sweep_start st;
     last_valid_sweep_end := last_valid_sweep_end st;
     sweep_prev_linear := sweep_prev_linear st;
     sweep_avg_alpha := sweep_avg_alpha st |}.

(** What one run of [update_sweep_freq] asks of the tuner and of the
    scheduler. *)
Inductive command :=
| SetCenterFreq (cf_hz : Q)     (* src.set_center_freq(cf_hz) *)
| Settle (ms : nat).            (* QTimer.singleShot(ms, capture_fft) *)

(** [update_sweep_freq].  [tuned] is the tuner's reading ([None]:
    [get_center_freq] raised).  A [set_center_freq] that raises only adds a
    warning to the log: both ways out schedule the capture after the settle
    time, which is 85 ms wherever it is set. *)
Definition update_sweep_freq (st : sweep_state) (tuned : option Q)
  : sweep_state * list command :=
  if negb (is_sweep_mode (mode st)) || negb (sweep_active st)
     || sweep_busy st || rebuilding st
  then (st, [])
  else
    match center_freqs st with
    | [] => (st, [])
    | _ :: _ =>
        let ptr := if (length (center_freqs st) <=? sweep_ptr st)%nat
                   then O else sweep_ptr st in
        let cf_hz := nth ptr (center_freqs st) 0 in
        let st1 := set_retries 0 (set_step (Some cf_hz) (set_ptr ptr (set_busy true st))) in
        if match tuned with
           | None => true
           | Some t => off_tune t cf_hz
           end
        then (st1, [SetCenterFreq cf_hz; Settle 85])
        else (st1, [Settle 85])
    end.

(** The timer tick followed by the capture it schedules. *)
Definition step_and_capture (st : sweep_state) (tuned : option Q) (inp : capture_input)
  : sweep_state * list action :=
  capture_fft (fst (update_sweep_freq st tuned)) inp.

(** Python's [max(a, b)]: the first argument unless the second is larger. *)
Definition pymax (a b : Q) : Q := if Qltb a b then b else a.

(** The limits [_update_sweep_xrange] hands to the plot, in MHz. *)
Record xrange := {
  x_lo : Q;
  x_hi : Q;
  min_x_range : Q;
  max_x_range : Q
}.

Definition update_sweep_xrange (st : sweep_state) : xrange :=
  let s := last_valid_sweep_start st in
  let e := last_valid_sweep_end st in
  let span := pymax 1 (e - s) in
  let eps := pymax 100000 (0.005 * span) in
  {| x_lo := (s - eps) / 1000000;
     x_hi := (e + eps) / 1000000;
     min_x_range := (e - s) * 0.05 / 1000000;
     max_x_range := (e - s + 2 * eps) / 1000000 |}.

(** ** Predicates used in the statements *)

(** The state holds a plan: at least one bin per step, the axis and the
    buffer sized to the plan, and the pointer on one of its steps. *)
Definition planned (st : sweep_state) : Prop :=
  (0 < fft_size st)%nat
  /\ (sweep_ptr st < length (center_freqs st))%nat
  /\ length (freq_axis st) = (length (center_freqs st) * fft_size st)%nat.

(** The fields a capture reads but never writes. *)
Definition same_plan (st st' : sweep_state) : Prop :=
  mode st' = mode st
  /\ sweep_active st' = sweep_active st
  /\ rebuilding st' = rebuilding st
  /\ probe_present st' = probe_present st
  /\ fft_size st' = fft_size st
  /\ samp_rate st' = samp_rate st
  /\ center_freqs st' = center_freqs st
  /\ freq_axis st' = freq_axis st
  /\ step_freq_hz st' = step_freq_hz st
  /\ last_valid_sweep_start st' = last_valid_sweep_start st
  /\ last_valid_sweep_end st' = last_valid_sweep_end st.

(** The pointer stayed, or moved on by one step with the retry count
    cleared. *)
Definition stayed_or_advanced (st st' : sweep_state) : Prop :=
  (sweep_ptr st' = sweep_ptr st /\ (cap_retries st' <= Nat.max 3 (cap_retries st))%nat)
  \/ (sweep_ptr st' = ((sweep_ptr st + 1) mod length (center_freqs st))%nat
      /\ cap_retries st' = 0%nat).

(** The capture fails one of the first three validations of the step it
    was taken for: the tuner is more than 1 Hz off before or after the
    read, cannot be read afterwards, or the reading is missing, of the
    wrong length or not finite. *)
Definition rejected (st : sweep_state) (inp : capture_input) : Prop :=
  forall step, step_freq_hz st = Some step ->
    (exists t, tuned_before inp = Some t /\ 1 < Qabs (t - step))
    \/ read_mags (raw inp) (fft_size st) = None
    \/ tuned_after inp = None
    \/ (exists t, tuned_after inp = Some t /\ 1 < Qabs (t - step)).

(** The capture differs from the last accepted one, if there is one. *)
Definition fresh (st : sweep_state) (mags : list Q) : Prop :=
  last_fft st = None
  \/ exists prev, last_fft st = Some prev /\ allclose mags prev = Some false.

(** The sweep is running and waits for its next timer tick. *)
Definition idle (st : sweep_state) : Prop :=
  is_sweep_mode (mode st) = true
  /\ sweep_active st = true
  /\ sweep_busy st = false
  /\ rebuilding st = false
  /\ center_freqs st <> [].

Definition is_plot (a : action) : bool :=
  match a with Plot _ _ => true | _ => false end.

Definition is_error (a : action) : bool :=
  match a with LogError _ => true | _ => false end.

End SweepStep.

(* ================================================================== *)
(** * Frequency mode: the port for the centre frequency *)
(* ================================================================== *)

Module FrequencyMode.

Import Policy.
Local Open Scope Q_scope.

(** The loop of [auto_switch_port_if_needed]: the port of the first field,
    in the order of [port_inputs], whose range holds the frequency.  An
    empty field is skipped and one that does not parse is passed over by
    the handler; the loop only ever runs on a table the validation has
    accepted, where neither occurs. *)
Fixpoint select_port (inputs : list (string * field)) (current_mhz : Q) : option string :=
  match inputs with
  | [] => None
  | (port, Malformed) :: rest => select_port rest current_mhz
  | (port, Bounds lo hi) :: rest =>
      if Qle_bool lo current_mhz && Qle_bool current_mhz hi then Some port
      else select_port rest current_mhz
  end.

(** The line [auto_switch_port_if_needed] logs. *)
Inductive outcome :=
| Abort                      (* [ABORT] Port ranges are invalid *)
| Switching (port : string)  (* [AUTO-SWITCH] Switching to ... *)
| Skip (port : string)       (* [SKIP] ... already selected *)
| NoMatch.                   (* [INFO] No matching port *)

(** [auto_switch_port_if_needed], with [center_freq] in Hz.  [t1] and [t2]
    are the clock readings [update_antenna] takes in jamming mode. *)
Definition auto_switch_port_if_needed (inputs : list (string * field)) (center_freq : Q)
    (t1 t2 : R) (w : Detector.window) : Detector.window * list Detector.event * outcome :=
  if negb (validate_port_ranges inputs)
  then (w, [Detector.Notice "port_error_label"], Abort)
  else
    let current_mhz := center_freq / 1000000 in
    match select_port inputs current_mhz with
    | None => (w, [], NoMatch)
    | Some selected_port =>
        if String.eqb selected_port EmptyString then (w, [], NoMatch)
        else if negb (String.eqb selected_port (Detector.antenna_select w))
        then
          let (w', evs) := Detector.update_antenna (Some selected_port) t1 t2 w in
          (w', evs, Switching selected_port)
        else (w, [], Skip selected_port)
    end.

(** ** Predicates and scenarios used in the statements *)






End FrequencyMode.

(* ================================================================== *)
(** * Time mode: the switching schedule *)
(* ================================================================== *)

Module TimeMode.

Local Open Scope Q_scope.

(** [self.per_port_elapsed]: a dict from the index of a row to the seconds
    already spent on it. *)
Definition elapsed_map : Type := list (nat * Q).

(** [d.get(k, 0.0)] *)
Fixpoint get (d : elapsed_map) (k : nat) : Q :=
  match d with
  | [] => 0
  | (k', v) :: d' => if (k' =? k)%nat then v else get d' k
  end.

(** [d[k] = v] *)
Fixpoint put (k : nat) (v : Q) (d : elapsed_map) : elapsed_map :=
  match d with
  | [] => [(k, v)]
  | (k', v') :: d' => if (k' =? k)%nat then (k, v) :: d' else (k', v') :: put k v d'
  end.

Record time_state := {
  time_config : list (string * Q);     (* (port, duration in s) *)
  last_time_index : nat;
  per_port_elapsed : elapsed_map;
  timer_start_time : option Q;
  toggle_checked : bool
}.

Inductive command :=
| TimerStop                          (* timer.stop() *)
| StopFlowgraph                      (* self.stop(); self.wait() *)
| UpdateAntenna (port : string)      (* self.update_antenna(port) *)
| TimerStart (ms : Z).               (* timer.setSingleShot(True); timer.start(ms) *)

(** [int(x)]: truncation towards zero *)
Definition int_of (x : Q) : Z := Z.quot (Qnum x) (Zpos (Qden x)).

(** One row of the form: the port of the combo box, and the duration field
    as [float(...)] reads it ([None]: the conversion raised). *)
Definition row : Type := string * option Q.

(** The rows that make it into [time_config]: a non-empty port and a
    duration above zero; a row that does not convert is skipped. *)
Fixpoint valid_rows (rows : list row) : list (string * Q) :=
  match rows with
  | [] => []
  | (port, None) :: rest => valid_rows rest
  | (port, Some dur) :: rest =>
      if negb (String.eqb port EmptyString) && Sweep.Qltb 0 dur
      then (port, dur) :: valid_rows rest
      else valid_rows rest
  end.

(** [refresh_time_config] *)
Definition refresh_time_config (st : time_state) (rows : list row)
  : time_state * list command * bool :=
  match valid_rows rows with
  | [] =>
      ({| time_config := []; last_time_index := last_time_index st;
          per_port_elapsed := per_port_elapsed st;
          timer_start_time := timer_start_time st;
          toggle_checked := false |},
       [TimerStop; StopFlowgraph], false)
  | cfg =>
      ({| time_config := cfg;
          last_time_index := if (length cfg <=? last_time_index st)%nat
                             then O else last_time_index st;
          per_port_elapsed := per_port_elapsed st;
          timer_start_time := timer_start_time st;
          toggle_checked := toggle_checked st |},
       [], true)
  end.

(** The search loop of [perform_time_switch], run for at most [fuel]
    rounds from row [idx]: the first row with time left, that time, and the
    counters as the loop leaves them.  The inner [None] is the loop running
    out (its [else] clause), the outer one an index outside the table
    (IndexError). *)
Fixpoint next_slot (fuel : nat) (cfg : list (string * Q)) (idx : nat) (el : elapsed_map)
  : option (option (string * Q) * nat * elapsed_map) :=
  match fuel with
  | O => Some (None, idx, el)
  | S fuel' =>
      match nth_error cfg idx with
      | None => None
      | Some (port, dur) =>
          let remaining := SweepStep.pymax 0 (dur - get el idx) in
          if Sweep.Qltb 0 remaining then Some (Some (port, remaining), idx, el)
          else next_slot fuel' cfg ((idx + 1) mod length cfg) (put idx 0 el)
      end
  end.

(** The bookkeeping at the head of [perform_time_switch]: the time since
    the timer was started is added to the row that was on, and the row's
    counter is cleared once it is within a millisecond of its duration. *)
Definition account (st : time_state) (now : Q) : option elapsed_map :=
  match timer_start_time st with
  | None => Some (per_port_elapsed st)
  | Some t0 =>
      let i := last_time_index st in
      let el1 := put i (get (per_port_elapsed st) i + (now - t0)) (per_port_elapsed st) in
      match nth_error (time_config st) i with
      | None => None
      | Some (_, dur) =>
          Some (if Qle_bool (dur - 0.001) (get el1 i) then put i 0 el1 else el1)
      end
  end.

(** [perform_time_switch].  [now] and [now'] are the two readings of
    [time.time()]; [None] is an IndexError. *)
Definition perform_time_switch (st : time_state) (now now' : Q)
  : option (time_state * list command) :=
  match time_config st with
  | [] =>
      Some ({| time_config := []; last_time_index := last_time_index st;
               per_port_elapsed := per_port_elapsed st;
               timer_start_time := timer_start_time st;
               toggle_checked := false |},
            [TimerStop; StopFlowgraph])
  | _ :: _ =>
      let cfg := time_config st in
      let num := length cfg in
      match account st now with
      | None => None
      | Some el =>
          match next_slot num cfg ((last_time_index st + 1) mod num) el with
          | None => None
          | Some (Some (port, remaining), idx, el') =>
              Some ({| time_config := cfg; last_time_index := idx;
                       per_port_elapsed := el';
                       timer_start_time := Some now';
                       toggle_checked := toggle_checked st |},
                    [UpdateAntenna port; TimerStart (int_of (remaining * 1000))])
          | Some (None, idx, _) =>
              match nth_error cfg idx with
              | None => None
              | Some (port, dur) =>
                  Some ({| time_config := cfg; last_time_index := idx;
                           per_port_elapsed := map (fun i => (i, 0)) (seq 0 num);
                           timer_start_time := Some now';
                           toggle_checked := toggle_checked st |},
                        [UpdateAntenna port; TimerStart (int_of (dur * 1000))])
              end
          end
      end
  end.

(** ** Predicates and scenarios used in the statements *)



(** Three ports, the timer started at 10 s on the first one. *)
Definition demo_schedule : time_state :=
  {| time_config := [("A1"%string, 2); ("B2"%string, 3); ("A4"%string, 1.5)];
     last_time_index := 0; per_port_elapsed := [];
     timer_start_time := Some 10; toggle_checked := true |}.

End TimeMode.

(* ================================================================== *)
(** * DSP utilities: edge taper and peak picking *)
(* ================================================================== *)

Module Dsp.

Local Open Scope Q_scope.

(** [l[i]] for a Python index: a negative index counts from the end;
    [None] is an IndexError. *)
Definition py_index (l : list Q) (i : Z) : option Q :=
  let n := Z.of_nat (length l) in
  if (0 <=? i)%Z then nth_error l (Z.to_nat i)
  else if (- n <=? i)%Z then nth_error l (Z.to_nat (n + i))
  else None.

(** [l[:len(w)] *= w], for a vector of at least [len(w)] elements *)
Definition scale_head (w l : list Q) : list Q :=
  map (fun p => fst p * snd p) (combine (firstn (length w) l) w)
  ++ skipn (length w) l.

(** [l[-len(w):] *= w], for a vector of at least [len(w)] elements *)
Definition scale_tail (w l : list Q) : list Q :=
  firstn (length l - length w) l
  ++ map (fun p => fst p * snd p) (combine (skipn (length l - length w) l) w).

(** [process_fft_data]: the centre bins replaced by the mean of four
    neighbours, then both edges tapered over ten bins.  [None] stands for
    the exception Python raises: an IndexError on a neighbour outside the
    vector, or numpy's refusal to multiply fewer than ten bins by the
    ten-point ramp. *)
Definition process_fft_data (mags : list Q) : option (list Q) :=
  let n := length mags in
  let center := (n / 2)%nat in
  let c := Z.of_nat center in
  match (if (3 <=? center)%nat
         then match py_index mags (c - 4)%Z, py_index mags (c - 3)%Z,
                    py_index mags (c + 3)%Z, py_index mags (c + 4)%Z with
              | Some m1, Some m2, Some m3, Some m4 =>
                  Some (Sweep.fill (center - 2)%nat (center + 3)%nat
                          (Sweep.mean [m1; m2; m3; m4]) mags)
              | _, _, _, _ => None
              end
         else Some mags) with
  | None => None
  | Some notched =>
      let fade := 10%nat in
      if (n <? fade)%nat then None
      else
        Some (scale_tail (Sweep.linspace_closed 1.0 0.3 fade)
                (scale_head (Sweep.linspace_closed 0.3 1.0 fade) notched))
  end.

(** [np.argmax]: the first index of the largest value; [None] on an empty
    vector, where numpy raises. *)
Fixpoint argmax_from (l : list Q) (i best_i : nat) (best : Q) : nat :=
  match l with
  | [] => best_i
  | x :: l' =>
      if Sweep.Qltb best x then argmax_from l' (S i) i x
      else argmax_from l' (S i) best_i best
  end.

Definition argmax (l : list Q) : option nat :=
  match l with
  | [] => None
  | x :: l' => Some (argmax_from l' 1 0 x)
  end.

(** [np.where(~used, db, -1e9)] *)
Definition masked_db (used : list bool) (db : list Q) : list Q :=
  map (fun p : bool * Q => if fst p then - 1000000000 else snd p) (combine used db).

(** [used[a:b] = True] *)
Definition mark (a b : nat) (used : list bool) : list bool :=
  map (fun p : nat * bool => ((a <=? fst p) && (fst p <? b))%nat || snd p)
      (combine (seq 0 (length used)) used).

(** The loop of [_find_peaks], with [n] rounds to go. *)
Fixpoint pick_peaks (n min_sep_bins : nat) (db : list Q) (used : list bool)
    (peaks : list nat) : option (list nat) :=
  match n with
  | O => Some peaks
  | S n' =>
      let masked := masked_db used db in
      match argmax masked with
      | None => None
      | Some i =>
          if Qle_bool (nth i masked 0) (- 100000000) then Some peaks
          else pick_peaks n' min_sep_bins db
                 (mark (i - min_sep_bins)%nat (i + min_sep_bins + 1)%nat used)
                 (peaks ++ [i])
      end
  end.

(** Python's [sorted] on indices *)
Fixpoint insert_index (x : nat) (l : list nat) : list nat :=
  match l with
  | [] => [x]
  | y :: l' => if (x <=? y)%nat then x :: l else y :: insert_index x l'
  end.

Definition sorted (l : list nat) : list nat := fold_right insert_index [] l.

(** [_find_peaks(db, n, min_sep_bins)] *)
Definition find_peaks (db : list Q) (n min_sep_bins : nat) : option (list nat) :=
  option_map sorted (pick_peaks n min_sep_bins db (repeat false (length db)) []).

(** ** Predicates and scenarios used in the statements *)

(** Two indices more than [sep] bins apart. *)
Definition far (sep a b : nat) : Prop := (a + sep < b)%nat \/ (b + sep < a)%nat.

(** A trace in dB with three humps. *)
Definition humps : list Q :=
  [-90; -80; -60; -80; -90; -90; -90; -70; -40; -70; -90; -90; -90; -90;
   -90; -90; -90; -90; -90; -55; -90; -90; -90; -90; -90].

(** A ramp of 25 magnitudes. *)
Definition ramp25 : list Q := map Sweep.inject_nat (seq 1 25).

End Dsp.

(* ================================================================== *)
(** * The detector's fixed setup *)
(* ================================================================== *)

Module DetectorSetup.

Import Detector.

(** ** Predicates used in the statements *)

(** What neither a tick of the detector nor [update_antenna] writes. *)
Definition same_setup (w w' : window) : Prop :=
  mode w' = mode w
  /\ toggle_checked w' = toggle_checked w
  /\ rebuilding w' = rebuilding w
  /\ antenna_error_label w' = antenna_error_label w
  /\ src_present w' = src_present w
  /\ oc_panel_present w' = oc_panel_present w
  /\ fft_size w' = fft_size w
  /\ jam_mask w' = jam_mask w
  /\ params w' = params w.

(** The selection is one of the eight port names. *)
Definition selection_valid (w : window) : Prop := mem (antenna_select w) valid = true.

(** The detector's index points into its ring of ports. *)
Definition index_in_ring (w : window) : Prop :=
  (current_port_index (jam w) < length ports)%nat.


End DetectorSetup.

(* ================================================================== *)
(** * The OperaCake panel: port states ([Code/LED.py], ASCII port names) *)
(* ================================================================== *)

Module Panel.

(** [PortState] *)
Inductive PortState := ACTIVE | INACTIVE | UNAVAILABLE | DISCONNECTED.

(** The keys of [_leds], in the order [_build_overlay] adds them. *)
Definition leds : list string :=
  ["A4"; "A3"; "A2"; "A1"; "A0"; "B4"; "B3"; "B2"; "B1"; "B0"]%string.

(** [_states]: a dict from port name to state. *)
Definition state_map : Type := list (string * PortState).

(** [d.get(k)] *)
Fixpoint get (d : state_map) (k : string) : option PortState :=
  match d with
  | [] => None
  | (k', v) :: d' => if String.eqb k' k then Some v else get d' k
  end.

(** [d[k] = v] *)
Fixpoint put (k : string) (v : PortState) (d : state_map) : state_map :=
  match d with
  | [] => [(k, v)]
  | (k', v') :: d' => if String.eqb k' k then (k, v) :: d' else (k', v') :: put k v d'
  end.

Record panel := {
  states : state_map;
  active_port : option string
}.

(** [c.isdigit()] on an ASCII character *)
Definition is_digit (c : ascii) : bool :=
  let n := nat_of_ascii c in ((48 <=? n) && (n <=? 57))%nat.

(** [set_active(port, connected, fixed_input)].  [None] stands for Python's
    [None], which [port or ""] and [fixed_input or "A0"] replace, as they do
    the empty string. *)
Definition set_active (pn : panel) (port : option string) (connected : bool)
    (fixed_input : option string) : panel :=
  let port := Detector.upper (match port with
                              | Some s => s
                              | None => EmptyString
                              end) in
  let fixed_input :=
    Detector.upper (match fixed_input with
                    | Some EmptyString | None => "A0"%string
                    | Some s => s
                    end) in
  let s0 := fold_left (fun d p => put p INACTIVE d) leds (states pn) in
  let s1 := if Detector.mem fixed_input leds
            then put fixed_input (if connected then ACTIVE else DISCONNECTED) s0
            else s0 in
  if negb connected then {| states := s1; active_port := None |}
  else
    let s2 := if Detector.mem "B0"%string leds then put "B0"%string UNAVAILABLE s1 else s1 in
    let s3 :=
      match port with
      | String c0 (String c1 EmptyString) =>
          if (Ascii.eqb c0 "A"%char || Ascii.eqb c0 "B"%char) && is_digit c1
          then
            let idx := (nat_of_ascii c1 - 48)%nat in
            if (idx <=? 4)%nat && Detector.mem port leds
            then
              let s := put port ACTIVE s2 in
              let other_side := if Ascii.eqb c0 "A"%char then "B"%char else "A"%char in
              let paired := String other_side (String c1 EmptyString) in
              if Detector.mem paired leds then put paired UNAVAILABLE s else s
            else s2
          else s2
      | _ => s2
      end in
    {| states := s3; active_port := Some port |}.

(** ** Predicates used in the statements *)

Definition state_eqb (a b : PortState) : bool :=
  match a, b with
  | ACTIVE, ACTIVE | INACTIVE, INACTIVE
  | UNAVAILABLE, UNAVAILABLE | DISCONNECTED, DISCONNECTED => true
  | _, _ => false
  end.

(** How many of the ten LEDs show the state. *)
Definition count_state (s : PortState) (pn : panel) : nat :=
  length (filter (fun p => match get (states pn) p with
                           | Some s' => state_eqb s' s
                           | None => false
                           end) leds).

(** The port with the same number on the other bank. *)
Definition partner (port : string) : string :=
  match port with
  | String c0 rest => String (if Ascii.eqb c0 "A"%char then "B"%char else "A"%char) rest
  | EmptyString => EmptyString
  end.

End Panel.

(* ================================================================== *)
(** * Properties of the sweep planner *)
(* ================================================================== *)

Module SweepPlan.

Import Sweep.
Local Open Scope Q_scope.

Lemma Qltb_true a b : Qltb a b = true <-> a < b.
Proof.
  unfold Qltb. rewrite negb_true_iff. split; intro H.
  - apply Qnot_le_lt. intro L. apply Qle_bool_iff in L. congruence.
  - destruct (Qle_bool b a) eqn:E; [|reflexivity].
    apply Qle_bool_iff in E. exfalso. apply (Qlt_not_le _ _ H E).
Qed.

Lemma Qltb_false a b : Qltb a b = false <-> b <= a.
Proof.
  unfold Qltb. rewrite negb_false_iff. apply Qle_bool_iff.
Qed.

Lemma Qle_bool_false a b : Qle_bool a b = false <-> b < a.
Proof.
  split; intro H.
  - apply Qnot_le_lt. intro L. apply Qle_bool_iff in L. congruence.
  - destruct (Qle_bool a b) eqn:E; [|reflexivity].
    apply Qle_bool_iff in E. exfalso. apply (Qlt_not_le _ _ H E).
Qed.



(** A positive ratio has a ceiling of at least one. *)
Lemma plan_num_steps_pos s e step :
  s < e -> 0 < step -> (1 <= plan_num_steps s e step)%Z.
Proof.
  intros Hse Hstep. unfold plan_num_steps.
  assert (Hpos : 0 < (e - s) / step).
  { apply Qlt_shift_div_l; [exact Hstep|]. lra. }
  pose proof (Qle_ceiling ((e - s) / step)) as Hc.
  assert (Hz : 0 < inject_Z (Qceiling ((e - s) / step))) by (eapply Qlt_le_trans; eauto).
  change 0 with (inject_Z 0) in Hz. rewrite <- Zlt_Qlt in Hz. lia.
Qed.


Lemma plan_center_freqs_length s step k :
  length (plan_center_freqs s step k) = Z.to_nat k.
Proof. unfold plan_center_freqs. now rewrite length_map, length_seq. Qed.




End SweepPlan.

(* ================================================================== *)
(** * The stitched frequency axis *)
(* ================================================================== *)

Module SweepAxis.

Import Sweep SweepPlan.
Local Open Scope Q_scope.

(** ** Sorted lists *)

Section SortedLists.

Context {A : Type} (R : A -> A -> Prop).






End SortedLists.





(** ** The axis of a plan *)





Section BinOrder.

Variables (s step : Q) (n : nat).
Hypothesis step_pos : 0 < step.
Hypothesis n_pos : (0 < n)%nat.

Let d : Q := (step / 2 - - step / 2) / inject_nat n.







End BinOrder.





End SweepAxis.

(* ================================================================== *)
(** * One sweep capture: stale vectors and the DC notch *)
(* ================================================================== *)

Module SweepCapture.

Import Sweep SweepPlan.
Local Open Scope Q_scope.

Lemma off_tune_false t step : Qabs (t - step) <= 1 -> off_tune t step = false.
Proof. intro H. unfold off_tune. now apply Qltb_false. Qed.


(** Past the guards and the first three validations only the stale-vector
    test is left. *)
Lemma capture_fft_validated st inp mags :
  validated st inp mags ->
  capture_fft st inp =
  match (match last_fft st with
         | Some prev => allclose mags prev
         | None => Some false
         end) with
  | None => (set_busy false st, [LogError "capture_fft failed"])
  | Some true => retry_or_skip st
  | Some false => accept_capture st mags
  end.
Proof.
  intros (Hm & Ha & Hr & Hp & Hc & (step & Hs & Hb & (t & Ht & Hta)) & Hmags).
  unfold capture_fft. rewrite Hm, Ha, Hr, Hp. cbn [negb orb].
  destruct (center_freqs st) as [|cf cfs] eqn:E; [congruence|]. cbn [length Nat.eqb].
  rewrite Hs.
  assert (Hb' : match tuned_before inp with
                | Some t0 => off_tune t0 step
                | None => false
                end = false).
  { destruct (tuned_before inp) as [t0|]; [|reflexivity].
    apply off_tune_false. now apply Hb. }
  rewrite Hb', Hmags, Ht, (off_tune_false _ _ Hta). reflexivity.
Qed.






(** ** The DC notch *)

Lemma finite_values_length v mags :
  finite_values v = Some mags -> length mags = length v.
Proof.
  revert mags. induction v as [|x v IH]; intros mags H.
  - injection H as <-. reflexivity.
  - destruct x as [q|]; [|discriminate]. cbn [finite_values] in H.
    destruct (finite_values v) as [r|]; [|discriminate].
    injection H as <-. cbn [length]. f_equal. now apply IH.
Qed.

Lemma read_mags_length r n mags : read_mags r n = Some mags -> length mags = n.
Proof.
  destruct r as [|v]; [discriminate|]. cbn [read_mags].
  destruct (length v =? n)%nat eqn:E; [|discriminate].
  intro H. apply finite_values_length in H. apply Nat.eqb_eq in E. congruence.
Qed.

Lemma fill_length a b v l : length (fill a b v l) = length l.
Proof.
  unfold fill. rewrite length_map, length_combine, length_seq. apply Nat.min_id.
Qed.

Lemma nth_map_in {A B} (f : A -> B) (l : list A) (i : nat) (d : B) (d' : A) :
  (i < length l)%nat -> nth i (map f l) d = f (nth i l d').
Proof.
  revert i. induction l as [|x l IH]; intros i H; [cbn in H; lia|].
  destruct i as [|i]; [reflexivity|]. cbn [map nth]. apply IH. cbn in H. lia.
Qed.

Lemma nth_fill a b v l i d :
  (i < length l)%nat ->
  nth i (fill a b v l) d = if ((a <=? i) && (i <? b))%nat then v else nth i l d.
Proof.
  intro Hi. unfold fill.
  rewrite (nth_map_in _ _ i d (O, d))
    by (rewrite length_combine, length_seq, Nat.min_id; exact Hi).
  rewrite combine_nth by (now rewrite length_seq).
  rewrite seq_nth by exact Hi. reflexivity.
Qed.



Lemma dc_notch_length n v : length (dc_notch n v) = length v.
Proof.
  unfold dc_notch. destruct (16 <=? n)%nat; [|reflexivity].
  match goal with |- context [if ?c then fill _ _ _ _ else _] => destruct c end;
    [apply fill_length|reflexivity].
Qed.



(** ** The segment a successful capture writes *)

Lemma stitch_buffer st2 : sweep_buffer (fst (stitch st2)) = sweep_buffer st2.
Proof.
  unfold stitch. destruct (in_range_idx _ _ _); [reflexivity|].
  destruct (gather (sweep_buffer st2) _); [|reflexivity].
  destruct (gather (freq_axis st2) _); reflexivity.
Qed.

Lemma write_segment_fits buf s seg :
  (s + length seg <= length buf)%nat ->
  write_segment buf s seg = Some (firstn s buf ++ seg ++ skipn (s + length seg) buf).
Proof.
  intro H. unfold write_segment.
  replace (Nat.min (s + length seg) (length buf) - Nat.min s (length buf))%nat
    with (length seg) by lia.
  now rewrite Nat.eqb_refl.
Qed.




Lemma demo_validated v :
  length v = 16%nat -> validated (demo_state None) (demo_input v) v.
Proof.
  intro Hl. repeat split; try reflexivity; try discriminate.
  - exists 108. repeat split.
    + intros t Ht. injection Ht as <-. vm_compute. discriminate.
    + exists 108. split; [reflexivity|]. vm_compute. discriminate.
  - unfold demo_input, read_mags, raw. cbn [demo_state fft_size].
    rewrite length_map, Hl. cbn [Nat.eqb].
    clear Hl. induction v as [|x v IH]; [reflexivity|].
    cbn [map finite_values]. now rewrite IH.
Qed.



End SweepCapture.

(* ================================================================== *)
(** * Validation of the frequency policy table *)
(* ================================================================== *)

Module PolicyValidation.

Import Policy.
Local Open Scope Q_scope.

(** ** The first loop *)

Lemma collect_ranges_all table :
  Forall well_formed table -> collect_ranges (fields_of table) = Some table.
Proof.
  induction 1 as [|r table [Hlt Hhi] _ IH]; [reflexivity|].
  destruct r as [[lo hi] p]. unfold low, high in *. cbn [fst snd] in *.
  cbn [fields_of map collect_ranges port_of low high fst snd].
  rewrite (proj2 (SweepPlan.Qle_bool_false hi lo) Hlt).
  rewrite (proj2 (SweepPlan.Qltb_false 4000 hi) Hhi).
  fold (fields_of table). rewrite IH. reflexivity.
Qed.



(** ** The sort *)

Lemma insert_range_perm x l : Permutation (insert_range x l) (x :: l).
Proof.
  induction l as [|y l IH]; [reflexivity|]. cbn [insert_range].
  destruct (range_ltb y x); [|reflexivity].
  rewrite IH. apply perm_swap.
Qed.


Lemma range_ltb_low a b : range_ltb a b = true -> low a <= low b.
Proof.
  unfold range_ltb. destruct (Qeq_bool (low a) (low b)) eqn:E; cbn [negb].
  - intros _. apply Qeq_bool_iff in E. rewrite E. apply Qle_refl.
  - intro H. apply SweepPlan.Qltb_true in H. now apply Qlt_le_weak.
Qed.

Lemma range_ltb_low_rev a b : range_ltb a b = false -> low b <= low a.
Proof.
  unfold range_ltb. destruct (Qeq_bool (low a) (low b)) eqn:E; cbn [negb].
  - intros _. apply Qeq_bool_iff in E. rewrite E. apply Qle_refl.
  - intro H. now apply SweepPlan.Qltb_false in H.
Qed.

Lemma insert_range_sorted x l :
  StronglySorted low_le l -> StronglySorted low_le (insert_range x l).
Proof.
  induction 1 as [|y l Sl IH Fy]; cbn [insert_range].
  - repeat constructor.
  - destruct (range_ltb y x) eqn:E.
    + constructor; [exact IH|].
      apply Forall_forall. intros z Hz.
      apply (Permutation_in _ (insert_range_perm x l)) in Hz.
      destruct Hz as [<-|Hz]; [now apply range_ltb_low|].
      rewrite Forall_forall in Fy. now apply Fy.
    + pose proof (range_ltb_low_rev _ _ E) as Hxy.
      constructor; [now constructor|].
      constructor; [exact Hxy|].
      eapply Forall_impl; [|exact Fy]. intros z Hz. unfold low_le in *.
      eapply Qle_trans; eauto.
Qed.

(** [ranges.sort()] orders the table by lower bound and keeps its entries. *)
Lemma sort_ranges_sorted l : StronglySorted low_le (sort_ranges l).
Proof.
  induction l as [|x l IH]; [constructor|]. cbn [sort_ranges fold_right].
  now apply insert_range_sorted.
Qed.

(** ** The second loop *)



(** A field that does not parse rejects the table, whatever the others hold. *)
Lemma malformed_field_rejected pre port post :
  validate_port_ranges (pre ++ (port, Malformed) :: post) = false.
Proof.
  unfold validate_port_ranges.
  replace (collect_ranges (pre ++ (port, Malformed) :: post)) with (@None (list range));
    [reflexivity|].
  induction pre as [|[p f] pre IH]; [reflexivity|].
  cbn [app collect_ranges]. destruct f as [|lo hi]; [reflexivity|].
  destruct (Qle_bool hi lo); [reflexivity|].
  destruct (Sweep.Qltb 4000 hi); [reflexivity|].
  now rewrite <- IH.
Qed.

End PolicyValidation.

(* ================================================================== *)
(** * Antenna selection *)
(* ================================================================== *)

Module AntennaSelection.

Import Detector.
Local Open Scope R_scope.

Example strip_upper_example : upper (strip " b2  ") = "B2"%string.
Proof. reflexivity. Qed.

Example update_antenna_valid_example :
  update_antenna (Some " b2 "%string) 0 0 (jamming_window 1024 (initial_jam 0))
  = (set_jam
       {| jam_ready_at := 0 + 1.5; jam_baseline_db := None; jam_started := None;
          jam_cooldown_until := 0; sfm_ref := None; current_port_index := 6;
          jam_ignore_until := None; baseline_freeze_until := 0;
          occ_req_ema := None; jam_band_state := false; jam_med_state := false;
          score_ema := None; jam_last_switch := 0; last_score_at_switch := 0 |}
       (set_antenna_select "B2" (jamming_window 1024 (initial_jam 0))),
     [SetAntenna "B2"; PanelSetActive "B2"; AntennaChanged "B2"]).
Proof. reflexivity. Qed.




End AntennaSelection.

(* ================================================================== *)
(** * The interference detector *)
(* ================================================================== *)

Module DetectorProps.

Import Detector AntennaSelection.
Local Open Scope R_scope.

(** ** Comparisons *)

Lemma Rleb_true a b : Rleb a b = true <-> a <= b.
Proof. unfold Rleb. destruct (Rle_dec a b); split; auto; discriminate. Qed.

Lemma Rleb_false a b : Rleb a b = false <-> b < a.
Proof.
  unfold Rleb. destruct (Rle_dec a b); split; auto; try discriminate; intro; lra.
Qed.

Lemma Rltb_true a b : Rltb a b = true <-> a < b.
Proof. unfold Rltb. destruct (Rlt_dec a b); split; auto; discriminate. Qed.

Lemma Rltb_false a b : Rltb a b = false <-> b <= a.
Proof.
  unfold Rltb. destruct (Rlt_dec a b); split; auto; try discriminate; intro; lra.
Qed.

Lemma Rmax_min_clamp x lo hi : lo <= hi -> Rmax lo (Rmin hi x) = clamp x lo hi.
Proof.
  intro H. unfold clamp, Rmax, Rmin.
  destruct (Rltb x lo) eqn:E1; [apply Rltb_true in E1|apply Rltb_false in E1];
    [|destruct (Rltb hi x) eqn:E2; [apply Rltb_true in E2|apply Rltb_false in E2]];
    destruct (Rle_dec hi x); destruct (Rle_dec lo _); lra.
Qed.

Lemma clip_clamp x lo hi : lo <= hi -> clip x lo hi = clamp x lo hi.
Proof.
  intro H. unfold clip, clamp, Rmax, Rmin.
  destruct (Rltb x lo) eqn:E1; [apply Rltb_true in E1|apply Rltb_false in E1];
    [|destruct (Rltb hi x) eqn:E2; [apply Rltb_true in E2|apply Rltb_false in E2]];
    destruct (Rle_dec x lo); destruct (Rle_dec _ hi); lra.
Qed.

Lemma clamp_bounds x lo hi : lo <= hi -> lo <= clamp x lo hi <= hi.
Proof.
  intro H. unfold clamp.
  destruct (Rltb x lo) eqn:E1; [lra|apply Rltb_false in E1].
  destruct (Rltb hi x) eqn:E2; [lra|apply Rltb_false in E2]. lra.
Qed.

(** ** The occupancy requirement *)

Lemma sqrt_between x lo hi :
  0 <= lo -> 0 <= hi -> lo * lo < x -> x < hi * hi -> lo < sqrt x < hi.
Proof.
  intros Hlo Hhi H1 H2. split.
  - rewrite <- (sqrt_square lo Hlo). apply sqrt_lt_1; nra.
  - rewrite <- (sqrt_square hi Hhi). apply sqrt_lt_1; nra.
Qed.

Lemma occ_requirement_cases occ_min N sfm :
  let base := clamp (occ_min * sqrt (256 / Rmax 64 (INR N))) 0.10 0.45 in
  (-3.5 <= sfm -> occ_requirement occ_min N sfm = Rmax 0.10 (0.85 * base))
  /\ (-4.0 <= sfm < -3.5 -> occ_requirement occ_min N sfm = Rmax 0.12 (0.92 * base))
  /\ (sfm < -4.0 -> occ_requirement occ_min N sfm = base).
Proof.
  intro base. unfold occ_requirement.
  rewrite (Rmax_min_clamp _ 0.10 0.45) by lra. fold base.
  repeat split; intro H.
  - now rewrite (proj2 (Rleb_true (-3.5) sfm)).
  - rewrite (proj2 (Rleb_false (-3.5) sfm)) by lra.
    now rewrite (proj2 (Rleb_true (-4.0) sfm)).
  - rewrite (proj2 (Rleb_false (-3.5) sfm)) by lra.
    now rewrite (proj2 (Rleb_false (-4.0) sfm)).
Qed.

(** ** The first half of a tick *)

(** What it takes for a tick to reach the masked spectra. *)
Lemma jam_front_spectra w inp j1 power_db masked_curr masked_base :
  jam_front w inp = FrontSpectra j1 power_db masked_curr masked_base ->
  rebuilding w = false
  /\ is_jamming (mode w) = true
  /\ toggle_checked w = true
  /\ (0 < fft_size w)%nat
  /\ (forall t, jam_ignore_until (jam w) = Some t -> t <= now inp)
  /\ jam_ready_at (jam w) <= now inp
  /\ exists mags base m,
       read_mags (raw inp) (fft_size w) = Some mags
       /\ power_db = power_db_of (fft_size w) mags
       /\ j1 = set_baseline (Some base) (jam w)
       /\ jam_mask w = Some m
       /\ mask_select m power_db = Some masked_curr
       /\ mask_select m base = Some masked_base.
Proof.
  unfold jam_front. intro H.
  destruct (rebuilding w); [discriminate|].
  destruct (is_jamming (mode w)); [|discriminate].
  destruct (toggle_checked w); [|discriminate]. cbn [negb orb] in H.
  destruct (read_mags (raw inp) (fft_size w)) as [mags|] eqn:Hr; [|discriminate].
  destruct (fft_size w) as [|n'] eqn:Hn; [discriminate|]. rewrite <- Hn in *.
  destruct (match jam_ignore_until (jam w) with
            | Some t => Rltb (now inp) t
            | None => false
            end) eqn:Hi; [discriminate|].
  destruct (jam_baseline_db (jam w)) as [base0|]; [|discriminate].
  destruct (if Rleb (baseline_freeze_until (jam w)) (now inp)
            then broadcast2 _ base0 (power_db_of (fft_size w) mags)
            else Some base0) as [base|]; [|discriminate].
  destruct (Rltb (now inp) (jam_ready_at (jam w))) eqn:Hready; [discriminate|].
  destruct (jam_mask w) as [m|]; [|discriminate].
  destruct ((length m =? 0)%nat || negb (existsb (fun b => b) m)); [discriminate|].
  destruct (mask_select m (power_db_of (fft_size w) mags)) as [mc|] eqn:Hmc; [|discriminate].
  destruct (mask_select m base) as [mb|] eqn:Hmb; [|discriminate].
  injection H as <- <- <- <-.
  repeat split; try lia.
  - intros t Ht. rewrite Ht in Hi. now apply Rltb_false in Hi.
  - now apply Rltb_false in Hready.
  - exists mags, base, m. repeat split; assumption.
Qed.



(** ** The switch *)

Lemma ports_nth_valid i :
  (i < 8)%nat ->
  let p := nth i ports ""%string in
  upper (strip p) = p /\ mem p valid = true /\ mem p ports = true /\ index p ports = i.
Proof.
  intro H. do 8 (destruct i as [|i]; [repeat split; reflexivity|]). lia.
Qed.

(** In jamming mode, where the antenna line edit exists, a switch commits
    the next port of [ports]. *)
Lemma fire_commits w j2 power_db mt inp txt :
  antenna_edit w = Some txt -> is_jamming (mode w) = true ->
  let idx := ((current_port_index j2 + 1) mod 8)%nat in
  let p := nth idx ports ""%string in
  fire w j2 power_db mt inp
  = (set_jam (rearmed (params w) j2 power_db mt (now inp) idx)
       (set_antenna_select p (set_antenna_edit (Some p) w)),
     JamAlert :: (if src_present w then [SetAntenna p] else [])
              ++ (if oc_panel_present w then [PanelSetActive p] else [])
              ++ [AntennaChanged p]).
Proof.
  intros He Hm idx p.
  assert (Hidx : (idx < 8)%nat) by (apply Nat.mod_upper_bound; lia).
  destruct (ports_nth_valid idx Hidx) as (Hu & Hv & Hp & Hi). fold p in Hu, Hv, Hp, Hi.
  unfold fire. change (length ports) with 8%nat. fold idx. fold p.
  cbn [antenna_edit set_jam]. rewrite He.
  unfold update_antenna, requested_port.
  cbn [antenna_edit set_antenna_edit set_jam mode src_present oc_panel_present].
  rewrite Hu, Hv, Hm, Hp, Hi. reflexivity.
Qed.

Lemma existsb_switch_app l1 l2 :
  existsb is_switch (l1 ++ l2) = existsb is_switch l1 || existsb is_switch l2.
Proof. apply existsb_app. Qed.

Lemma fire_events_switch w p :
  existsb is_switch
    (JamAlert :: (if src_present w then [SetAntenna p] else [])
              ++ (if oc_panel_present w then [PanelSetActive p] else [])
              ++ [AntennaChanged p]) = true.
Proof. destruct (src_present w), (oc_panel_present w); reflexivity. Qed.

(** ** The second half of a tick *)

Section Decide.

Variables (w : window) (inp : tick_input) (j1 : jam_state).
Variables (power_db masked_curr masked_base : list R).

Let med_lift := median masked_curr - median masked_base.
Let mt := jam_metrics (params w) j1 (now inp) masked_curr masked_base med_lift.
Let j2 := store_metrics j1 (now inp) mt.

Lemma jam_decide_valve :
  8 < med_lift ->
  jam_decide w inp j1 power_db masked_curr masked_base
  = (set_jam (set_ignore_until (Some (now inp + 0.8))
                (set_baseline (Some power_db) j1)) w, []).
Proof.
  intro H. unfold jam_decide. fold med_lift.
  now rewrite (proj2 (Rltb_true _ _) H).
Qed.

Lemma jam_decide_released :
  med_lift <= 8 -> m_cond mt && m_improves mt = false ->
  jam_decide w inp j1 power_db masked_curr masked_base
  = (set_jam (set_started None j2) w, []).
Proof.
  intros H Hc. unfold jam_decide. fold med_lift.
  rewrite (proj2 (Rltb_false _ _) H). fold mt. now rewrite Hc.
Qed.

Lemma jam_decide_holding :
  med_lift <= 8 -> m_cond mt && m_improves mt = true ->
  may_fire (params w) j2 (now inp) (hold_start j2 (now inp)) = false ->
  jam_decide w inp j1 power_db masked_curr masked_base
  = (set_jam (set_started (Some (hold_start j2 (now inp))) j2) w, []).
Proof.
  intros H Hc Hf. unfold jam_decide. fold med_lift.
  rewrite (proj2 (Rltb_false _ _) H). fold mt. rewrite Hc. fold j2. now rewrite Hf.
Qed.

Lemma jam_decide_fired :
  med_lift <= 8 -> m_cond mt && m_improves mt = true ->
  may_fire (params w) j2 (now inp) (hold_start j2 (now inp)) = true ->
  jam_decide w inp j1 power_db masked_curr masked_base
  = fire w (set_started (Some (hold_start j2 (now inp))) j2) power_db mt inp.
Proof.
  intros H Hc Hf. unfold jam_decide. fold med_lift.
  rewrite (proj2 (Rltb_false _ _) H). fold mt. rewrite Hc. fold j2. now rewrite Hf.
Qed.

End Decide.

(** ** Early returns *)

Ltac front_cases H :=
  unfold jam_front in H;
  repeat match type of H with
         | context [match ?x with _ => _ end] => destruct x eqn:?
         end;
  try discriminate H.

(** A tick that ends in the first half emits no command, and leaves alone
    everything but the baseline. *)
Lemma jam_front_return w inp w' evs :
  jam_front w inp = FrontReturn w' evs ->
  existsb is_switch evs = false
  /\ (w' = w \/ exists b, w' = set_jam (set_baseline b (jam w)) w).
Proof.
  intro H. front_cases H; injection H as <- <-;
    (split; [reflexivity|]); solve [left; reflexivity | right; eexists; reflexivity].
Qed.

Lemma check_jamming_spectra w inp j1 power_db masked_curr masked_base :
  jam_front w inp = FrontSpectra j1 power_db masked_curr masked_base ->
  check_jamming w inp = jam_decide w inp j1 power_db masked_curr masked_base.
Proof. intro H. unfold check_jamming. now rewrite H. Qed.

Lemma may_fire_true p j2 now started :
  may_fire p j2 now started = true ->
  jam_hold_s p <= now - started
  /\ 0.6 <= now - jam_last_switch j2
  /\ jam_cooldown_until j2 <= now.
Proof.
  unfold may_fire. intro H.
  apply andb_true_iff in H. destruct H as [H H3].
  apply andb_true_iff in H. destruct H as [H1 H2].
  apply Rleb_true in H1, H2, H3. auto.
Qed.


(** ** Cooldown *)

(** One tick, seen from the cooldown deadline: a tick that emits a switch
    found the deadline passed and moves it to [now + jam_cooldown_s]; any
    other tick leaves it where it is. *)
Lemma check_jamming_cooldown w inp :
  antenna_edit w <> None ->
  params (fst (check_jamming w inp)) = params w
  /\ antenna_edit (fst (check_jamming w inp)) <> None
  /\ if existsb is_switch (snd (check_jamming w inp))
     then jam_cooldown_until (jam w) <= now inp
          /\ jam_cooldown_until (jam (fst (check_jamming w inp)))
             = now inp + jam_cooldown_s (params w)
     else jam_cooldown_until (jam (fst (check_jamming w inp)))
          = jam_cooldown_until (jam w).
Proof.
  intro He. unfold check_jamming.
  destruct (jam_front w inp) as [w' evs|j1 pdb mc mb] eqn:Hf.
  - destruct (jam_front_return _ _ _ _ Hf) as [Hq Hw]. cbn [fst snd]. rewrite Hq.
    destruct Hw as [->|[b ->]]; repeat split; assumption.
  - destruct (jam_front_spectra _ _ _ _ _ _ Hf)
      as (_ & Hmode & _ & _ & _ & _ & mags & base & m & _ & _ & Hj & _).
    set (med_lift := median mc - median mb).
    set (mt := jam_metrics (params w) j1 (now inp) mc mb med_lift).
    set (j2 := store_metrics j1 (now inp) mt).
    destruct (Rle_lt_dec med_lift 8) as [Hl|Hl].
    2:{ rewrite (jam_decide_valve w inp j1 pdb mc mb Hl). cbn [fst snd existsb].
        subst j1. repeat split; assumption. }
    destruct (m_cond mt && m_improves mt) eqn:Hc.
    2:{ rewrite (jam_decide_released w inp j1 pdb mc mb Hl Hc). cbn [fst snd existsb].
        subst j1. repeat split; assumption. }
    destruct (may_fire (params w) j2 (now inp) (hold_start j2 (now inp))) eqn:Hm.
    2:{ rewrite (jam_decide_holding w inp j1 pdb mc mb Hl Hc Hm). cbn [fst snd existsb].
        subst j1. repeat split; assumption. }
    rewrite (jam_decide_fired w inp j1 pdb mc mb Hl Hc Hm).
    destruct (antenna_edit w) as [txt|] eqn:Het; [|congruence].
    rewrite (fire_commits w _ pdb _ inp txt Het Hmode). cbn [fst snd].
    rewrite fire_events_switch.
    apply may_fire_true in Hm. destruct Hm as (_ & _ & H3).
    subst j2 j1. cbn in H3. repeat split; [discriminate|exact H3].
Qed.

Lemma switch_times_cons w inp rest :
  switch_times w (inp :: rest)
  = if existsb is_switch (snd (check_jamming w inp))
    then now inp :: switch_times (fst (check_jamming w inp)) rest
    else switch_times (fst (check_jamming w inp)) rest.
Proof.
  unfold switch_times. cbn [run]. destruct (check_jamming w inp) as [w' evs].
  cbn [filter snd fst]. destruct (existsb is_switch evs); reflexivity.
Qed.

(** Along a run the switch times are spaced by the cooldown, and the first
    of them is not before the cooldown deadline the run started with. *)
Lemma run_spaced ticks :
  forall w, antenna_edit w <> None ->
    spaced (jam_cooldown_s (params w)) (switch_times w ticks)
    /\ forall t, hd_error (switch_times w ticks) = Some t ->
                 jam_cooldown_until (jam w) <= t.
Proof.
  induction ticks as [|inp rest IH]; intros w He.
  - split; [exact I|discriminate].
  - rewrite switch_times_cons.
    destruct (check_jamming_cooldown w inp He) as (Hp & He' & Hc).
    destruct (IH _ He') as [Hs Hh]. rewrite Hp in Hs.
    destruct (existsb is_switch (snd (check_jamming w inp))).
    + destruct Hc as [Hc1 Hc2]. split.
      * destruct (switch_times (fst (check_jamming w inp)) rest) as [|t2 tl] eqn:E;
          [exact I|].
        split; [|exact Hs]. rewrite <- Hc2. apply Hh. reflexivity.
      * intros t Ht. injection Ht as <-. exact Hc1.
    + split; [exact Hs|]. intros t Ht. rewrite <- Hc. now apply Hh.
Qed.

(** C2. In jamming mode, where the antenna line edit exists, a tick that
    emits a port switch found the cooldown deadline passed and sets it to
    [now + jam_cooldown_s], and along every run of ticks any two consecutive
    port switches are at least [jam_cooldown_s] apart; with the default
    parameters that is 4 seconds. *)
Theorem C2_switches_spaced_by_cooldown :
  (forall w inp,
      antenna_edit w <> None ->
      existsb is_switch (snd (check_jamming w inp)) = true ->
      jam_cooldown_until (jam w) <= now inp
      /\ jam_cooldown_until (jam (fst (check_jamming w inp)))
         = now inp + jam_cooldown_s (params w))
  /\ (forall w ticks,
         antenna_edit w <> None ->
         spaced (jam_cooldown_s (params w)) (switch_times w ticks))
  /\ jam_cooldown_s default_params = 4.
Proof.
  split; [|split].
  - intros w inp He H.
    destruct (check_jamming_cooldown w inp He) as (_ & _ & Hc).
    rewrite H in Hc. exact Hc.
  - intros w ticks He. now apply run_spaced.
  - cbn. lra.
Qed.

(** ** The hold is continuous *)










Lemma update_antenna_occ val t1 t2 w :
  occ_req_ema (jam (fst (update_antenna val t1 t2 w))) = occ_req_ema (jam w).
Proof.
  unfold update_antenna. destruct (mem _ valid).
  - destruct (is_jamming (mode w)); reflexivity.
  - destruct (antenna_edit w); reflexivity.
Qed.

(** A tick that gets past the safety valve stores the smoothed requirement. *)
Lemma check_jamming_stores_occ w inp j1 power_db masked_curr masked_base :
  jam_front w inp = FrontSpectra j1 power_db masked_curr masked_base ->
  median masked_curr - median masked_base <= 8 ->
  let mt := jam_metrics (params w) j1 (now inp) masked_curr masked_base
              (median masked_curr - median masked_base) in
  occ_req_ema (jam (fst (check_jamming w inp))) = Some (m_occ_req_ema mt)
  /\ occ_req_ema j1 = occ_req_ema (jam w).
Proof.
  intros Hf Hl mt.
  destruct (jam_front_spectra _ _ _ _ _ _ Hf)
    as (_ & _ & _ & _ & _ & _ & mags & base & m & _ & _ & Hj & _).
  split; [|subst j1; reflexivity].
  rewrite (check_jamming_spectra _ _ _ _ _ _ Hf). unfold jam_decide.
  rewrite (proj2 (Rltb_false _ _) Hl). fold mt.
  destruct (m_cond mt && m_improves mt); [|reflexivity].
  match goal with |- context [may_fire ?p ?j2 ?t ?s] =>
    destruct (may_fire p j2 t s) end; [|reflexivity].
  unfold fire.
  match goal with |- context [update_antenna ?a ?b ?c ?d] =>
    pose proof (update_antenna_occ a b c d) as Hp;
    destruct (update_antenna a b c d) as [w3 evs] end.
  cbn [fst jam set_jam occ_req_ema] in *. rewrite Hp.
  destruct (antenna_edit _); reflexivity.
Qed.

(** C5 (as the code has it). The occupancy requirement is
    [clamp(occMin * sqrt(256/max(64,N)), 0.10, 0.45)] when the flatness is
    below -4.0 dB; it is that value times 0.85, but not below 0.10, when the
    flatness is at least -3.5 dB, and that value times 0.92, but not below
    0.12, when the flatness is in [-4.0, -3.5).  The detector computes it
    from its [jam_occ_min], the masked bin count and the flatness of the
    tick; the smoothed requirement is its exponential average with factor
    0.4 (the value itself on the first tick), the effective requirement is
    the average clamped to [[0.10, 0.45]], and a tick that gets past the
    safety valve stores the average.  With N = 1000 and occMin = 0.5 and no
    relief the requirement lies between 0.2529 and 0.2530. *)
Theorem C5_occupancy_requirement :
  (forall occ_min N sfm,
      let base := clamp (occ_min * sqrt (256 / Rmax 64 (INR N))) 0.10 0.45 in
      (-3.5 <= sfm -> occ_requirement occ_min N sfm = Rmax 0.10 (0.85 * base))
      /\ (-4.0 <= sfm < -3.5 -> occ_requirement occ_min N sfm = Rmax 0.12 (0.92 * base))
      /\ (sfm < -4.0 -> occ_requirement occ_min N sfm = base))
  /\ (forall p j now masked_curr masked_base med_lift,
         let mt := jam_metrics p j now masked_curr masked_base med_lift in
         m_occ_req mt = occ_requirement (jam_occ_min p) (length masked_curr) (m_sfm_db mt)
         /\ m_occ_req_ema mt
            = match occ_req_ema j with
              | None => m_occ_req mt
              | Some e => (1 - 0.4) * e + 0.4 * m_occ_req mt
              end
         /\ m_occ_req_eff mt = clamp (m_occ_req_ema mt) 0.10 0.45)
  /\ (forall w inp j1 power_db masked_curr masked_base,
         jam_front w inp = FrontSpectra j1 power_db masked_curr masked_base ->
         median masked_curr - median masked_base <= 8 ->
         let mt := jam_metrics (params w) j1 (now inp) masked_curr masked_base
                     (median masked_curr - median masked_base) in
         occ_req_ema (jam (fst (check_jamming w inp))) = Some (m_occ_req_ema mt)
         /\ occ_req_ema j1 = occ_req_ema (jam w))
  /\ (forall sfm, sfm < -4.0 -> 0.2529 < occ_requirement 0.5 1000 sfm < 0.2530).
Proof.
  split; [exact occ_requirement_cases|split; [|split]].
  - intros p j now mc mb ml mt. subst mt.
    cbn [jam_metrics m_occ_req m_sfm_db m_occ_req_ema m_occ_req_eff].
    split; [reflexivity|split].
    + unfold occ_req_smooth. destruct (occ_req_ema j); [lra|reflexivity].
    + apply clip_clamp. lra.
  - exact check_jamming_stores_occ.
  - intros sfm H.
    rewrite (proj2 (proj2 (occ_requirement_cases 0.5 1000 sfm)) H).
    replace (INR 1000) with 1000 by (rewrite INR_IZR_INZ; reflexivity).
    replace (Rmax 64 1000) with 1000 by (unfold Rmax; destruct (Rle_dec 64 1000); lra).
    assert (Hs : 0.5058 < sqrt (256 / 1000) < 0.5060) by (apply sqrt_between; lra).
    unfold clamp.
    rewrite (proj2 (Rltb_false _ 0.10)) by lra.
    rewrite (proj2 (Rltb_false 0.45 _)) by lra.
    lra.
Qed.

(** C5 as the claim words it fails.  With the default [occMin = 0.5] and the
    8123 masked bins of an 8192-point FFT the clamped requirement is 0.10;
    at a flatness of -3 dB the code keeps 0.10 where the claim's product is
    0.085, and at -3.8 dB the code gives 0.12 where the claim's product is
    0.092. *)
Lemma C5_counterexample :
  occ_requirement 0.5 8123 (-3) = 0.10
  /\ occ_requirement_spec 0.5 8123 (-3) = 0.085
  /\ occ_requirement 0.5 8123 (-3.8) = 0.12
  /\ occ_requirement_spec 0.5 8123 (-3.8) = 0.092
  /\ occ_requirement 0.5 8123 (-3) <> occ_requirement_spec 0.5 8123 (-3)
  /\ occ_requirement 0.5 8123 (-3.8) <> occ_requirement_spec 0.5 8123 (-3.8).
Proof.
  assert (HN : INR 8123 = 8123) by (rewrite INR_IZR_INZ; reflexivity).
  assert (Hm : Rmax 64 (INR 8123) = 8123).
  { rewrite HN. unfold Rmax. destruct (Rle_dec 64 8123); lra. }
  assert (Hs : 0.17 < sqrt (256 / 8123) < 0.18) by (apply sqrt_between; lra).
  assert (Hb : clamp (0.5 * sqrt (256 / Rmax 64 (INR 8123))) 0.10 0.45 = 0.10).
  { rewrite Hm. unfold clamp. rewrite (proj2 (Rltb_true _ 0.10)) by lra. reflexivity. }
  assert (H1 : occ_requirement 0.5 8123 (-3) = 0.10).
  { rewrite (proj1 (occ_requirement_cases 0.5 8123 (-3))) by lra. rewrite Hb.
    unfold Rmax. destruct (Rle_dec 0.10 (0.85 * 0.10)); lra. }
  assert (H2 : occ_requirement_spec 0.5 8123 (-3) = 0.085).
  { unfold occ_requirement_spec. rewrite Hb.
    rewrite (proj2 (Rleb_true (-3.5) (-3))) by lra. lra. }
  assert (H3 : occ_requirement 0.5 8123 (-3.8) = 0.12).
  { rewrite (proj1 (proj2 (occ_requirement_cases 0.5 8123 (-3.8)))) by lra. rewrite Hb.
    unfold Rmax. destruct (Rle_dec 0.12 (0.92 * 0.10)); lra. }
  assert (H4 : occ_requirement_spec 0.5 8123 (-3.8) = 0.092).
  { unfold occ_requirement_spec. rewrite Hb.
    rewrite (proj2 (Rleb_false (-3.5) (-3.8))) by lra.
    rewrite (proj2 (Rleb_true (-4.0) (-3.8))) by lra. lra. }
  repeat split; auto; rewrite ?H1, ?H2, ?H3, ?H4; lra.
Qed.

(** ** Flat spectra on a 16-bin window *)

Lemma rebuild_jam_mask_16 :
  rebuild_jam_mask 16
  = [false; false; true; true; true; true; false; false;
     false; false; false; true; true; true; false; false].
Proof. reflexivity. Qed.

Lemma INR_16 : INR 16 = 16.
Proof. rewrite INR_IZR_INZ. reflexivity. Qed.

Lemma clip_id x lo hi : lo <= x -> x <= hi -> clip x lo hi = x.
Proof.
  intros H1 H2. unfold clip, Rmin, Rmax.
  destruct (Rle_dec x lo); destruct (Rle_dec _ hi); lra.
Qed.

Lemma log10_1 : log10 1 = 0.
Proof. unfold log10. rewrite ln_1. lra. Qed.

Lemma ln_10_pos : 0 < ln 10.
Proof. rewrite <- ln_1. apply ln_increasing; lra. Qed.

Lemma log10_pow10 y : log10 (pow10 y) = y.
Proof.
  unfold log10, pow10, Rpower. rewrite ln_exp. field.
  pose proof ln_10_pos. lra.
Qed.

Lemma pow10_bounds y : 0 <= y <= 1 -> 1 <= pow10 y <= 10.
Proof.
  intros [H0 H1]. unfold pow10, Rpower. pose proof ln_10_pos as Hl. split.
  - rewrite <- exp_0. destruct (Req_dec (y * ln 10) 0) as [->|Hne]; [lra|].
    left. apply exp_increasing. nra.
  - replace 10 with (exp (ln 10)) at 2 by (apply exp_ln; lra).
    destruct (Req_dec y 1) as [->|Hne]; [rewrite Rmult_1_l; lra|].
    left. apply exp_increasing. nra.
Qed.

Lemma db16_unit : db16 16 = 0.
Proof.
  unfold db16. rewrite INR_16.
  replace (16 * (1 / 16)) with 1 by lra.
  rewrite clip_id by lra. rewrite log10_1. lra.
Qed.

Lemma db16_pow10 y : 0 <= y <= 20 -> db16 (16 * pow10 (y / 20)) = y.
Proof.
  intro H. unfold db16. rewrite INR_16.
  replace (16 * pow10 (y / 20) * (1 / 16)) with (pow10 (y / 20)) by lra.
  pose proof (pow10_bounds (y / 20) ltac:(lra)) as Hb.
  rewrite clip_id by lra. rewrite log10_pow10. lra.
Qed.

Lemma power_db_flat x : power_db_of 16 (repeat x 16) = repeat (db16 x) 16.
Proof. reflexivity. Qed.

Lemma read_mags_flat x :
  read_mags (ReadVec (map Finite (repeat x 16))) 16 = Some (repeat x 16).
Proof. reflexivity. Qed.

Lemma mask_select_flat v :
  mask_select (rebuild_jam_mask 16) (repeat v 16) = Some (repeat v 7).
Proof. reflexivity. Qed.

Lemma blend_flat a b v :
  broadcast2 (fun x p => (1 - a) * x + a * p) (repeat b 16) (repeat v 16)
  = Some (repeat ((1 - a) * b + a * v) 16).
Proof. reflexivity. Qed.

Lemma window16_jamming n j : n = 16%nat -> window16 (jamming_window n j).
Proof. intros ->. repeat split. Qed.

(** The first half of a flat tick over a flat baseline [b]: the baseline
    moves towards the reading unless it is frozen. *)
Lemma jam_front_flat w x b t :
  window16 w ->
  jam_ignore_until (jam w) = None ->
  jam_baseline_db (jam w) = Some (repeat b 16) ->
  jam_ready_at (jam w) <= t ->
  let b' := if Rleb (baseline_freeze_until (jam w)) t
            then (1 - 0.05) * b + 0.05 * db16 x else b in
  jam_front w (flat_input x t)
  = FrontSpectra (set_baseline (Some (repeat b' 16)) (jam w))
      (repeat (db16 x) 16) (repeat (db16 x) 7) (repeat b' 7).
Proof.
  intros (H1 & H2 & H3 & H4 & H5 & H6) Hi Hb Hr b'. unfold jam_front.
  rewrite H1, H2, H3, H4, H5, H6.
  cbn [is_jamming negb orb raw now flat_input].
  rewrite read_mags_flat, power_db_flat, Hi, Hb.
  replace (jam_alpha default_params) with 0.05 by reflexivity.
  rewrite (proj2 (Rltb_false _ _) Hr).
  assert (Hm : ((length (rebuild_jam_mask 16) =? 0)%nat
                || negb (existsb (fun b0 : bool => b0) (rebuild_jam_mask 16))) = false)
    by reflexivity.
  subst b'. destruct (Rleb (baseline_freeze_until (jam w)) t).
  - rewrite blend_flat, Hm, !mask_select_flat. reflexivity.
  - rewrite Hm, !mask_select_flat. reflexivity.
Qed.

Lemma insert_repeat x n : insert x (repeat x n) = x :: repeat x n.
Proof.
  destruct n as [|n]; [reflexivity|]. cbn [repeat insert].
  now rewrite (proj2 (Rleb_true x x)) by lra.
Qed.

Lemma sort_repeat x n : sort (repeat x n) = repeat x n.
Proof.
  induction n as [|n IH]; [reflexivity|]. cbn [repeat sort fold_right].
  fold (sort (repeat x n)). rewrite IH. apply insert_repeat.
Qed.

Lemma nth_repeat_in (x : R) n i : (i < n)%nat -> nth i (repeat x n) 0 = x.
Proof.
  revert i. induction n as [|n IH]; intros i H; [lia|].
  destruct i as [|i]; [reflexivity|]. cbn [repeat nth]. apply IH. lia.
Qed.

Lemma median_repeat x n : (0 < n)%nat -> median (repeat x n) = x.
Proof.
  intro H. unfold median. rewrite sort_repeat, repeat_length.
  assert (Hh : (n / 2 < n)%nat) by (apply Nat.div_lt; lia).
  destruct (Nat.even n).
  - rewrite !nth_repeat_in by lia. lra.
  - now rewrite nth_repeat_in.
Qed.

(** ** Metrics of flat spectra *)

Section FlatMetrics.

Variables (p : jam_params) (j : jam_state) (t c b l : R).

Let mt := jam_metrics p j t (repeat c 7) (repeat b 7) l.

Lemma flat_over : m_over mt = repeat (Rleb (jam_thresh_db p) (c - b)) 7.
Proof. reflexivity. Qed.


Lemma flat_triggered :
  (if jam_med_state j then Rmax 0.5 (jam_median_db p - 0.8) else jam_median_db p) <= l ->
  m_cond mt = true.
Proof.
  intro Hl.
  change (m_cond mt)
    with (m_enough_bins mt && Rleb (m_occ_req_eff mt) (m_occ mt)
          && (Rleb (m_sfm_gate mt) (m_sfm_db mt) || m_band_ok mt)
          || m_enough_bins mt && Rleb (jam_occ_multipeak p) (m_occ mt)
             && Rleb (jam_span_min p) (m_span_frac mt)
          || Rleb (if jam_med_state j then Rmax 0.5 (jam_median_db p - 0.8)
                   else jam_median_db p) l).
  rewrite (proj2 (Rleb_true _ _) Hl). apply orb_true_r.
Qed.

Lemma flat_saturated : jam_thresh_db p <= c - b -> m_occ mt = 1.
Proof.
  intro Ho.
  change (m_occ mt) with (INR (count_true (m_over mt)) / INR (Nat.max 1 7)).
  rewrite flat_over, (proj2 (Rleb_true _ _) Ho).
  change (count_true (repeat true 7)) with 7%nat. change (Nat.max 1 7) with 7%nat.
  rewrite INR_IZR_INZ. change (Z.of_nat 7) with 7%Z. lra.
Qed.

Lemma clip_bounds x lo hi : lo <= hi -> lo <= clip x lo hi <= hi.
Proof. intro H. rewrite clip_clamp by exact H. now apply clamp_bounds. Qed.

(** With every masked bin over the threshold the score is at least 4/3. *)
Lemma flat_score : m_occ mt = 1 -> 4 / 3 <= m_score mt.
Proof.
  intro Ho.
  change (m_score mt)
    with (0.6 * (m_occ mt / Rmax (m_occ_req_eff mt) 1e-6)
          + 0.25 * Rmax 0 (m_band_lift mt / Rmax (jam_band_db p) 1e-6)
          + 0.15 * Rmax 0 (l / Rmax (jam_median_db p) 1e-6)).
  rewrite Ho.
  assert (He : 0.10 <= m_occ_req_eff mt <= 0.45) by (apply clip_bounds; lra).
  rewrite Rmax_left by lra.
  pose proof (Rmax_l 0 (m_band_lift mt / Rmax (jam_band_db p) 1e-6)) as H1.
  pose proof (Rmax_l 0 (l / Rmax (jam_median_db p) 1e-6)) as H2.
  assert (H3 : 1 / 0.45 <= 1 / m_occ_req_eff mt).
  { unfold Rdiv. rewrite !Rmult_1_l. apply Rinv_le_contravar; lra. }
  lra.
Qed.

Lemma decay_le_half y : 1 <= y -> 0 < Rpower 0.5 y <= 0.5.
Proof.
  intro H. unfold Rpower. split; [apply exp_pos|].
  assert (Hl : ln 0.5 < 0) by (rewrite <- ln_1; apply ln_increasing; lra).
  replace 0.5 with (exp (ln 0.5)) at 2 by (apply exp_ln; lra).
  destruct (Req_dec y 1) as [->|Hne]; [rewrite Rmult_1_l; lra|].
  left. apply exp_increasing. nra.
Qed.

(** The first trigger after a start improves on the empty record. *)
Lemma flat_improves_first :
  score_ema j = None -> last_score_at_switch j = 0 -> m_occ mt = 1 ->
  m_improves mt = true /\ 4 / 3 <= m_score_ema mt.
Proof.
  intros He Hl Ho. pose proof (flat_score Ho) as Hs.
  change (m_score_ema mt)
    with (match score_ema j with None => m_score mt | Some e => 0.8 * e + 0.2 * m_score mt end).
  change (m_improves mt)
    with (Rleb (Rmax 1.10 (last_score_at_switch j
                           * Rpower 0.5 (Rmax 0 ((t - jam_last_switch j) / 8)) + 0.10))
               (match score_ema j with None => m_score mt | Some e => 0.8 * e + 0.2 * m_score mt end)).
  rewrite He, Hl, Rmult_0_l. split; [|exact Hs].
  apply Rleb_true. rewrite Rmax_left by lra. lra.
Qed.

(** A later trigger improves once the recorded score has decayed for 8 s. *)
Lemma flat_improves_again e :
  score_ema j = Some e -> 4 / 3 <= e -> 0 <= last_score_at_switch j ->
  0.625 * last_score_at_switch j <= e ->
  8 <= t - jam_last_switch j -> m_occ mt = 1 ->
  m_improves mt = true
  /\ m_score_ema mt = 0.8 * e + 0.2 * m_score mt
  /\ 4 / 3 <= m_score mt.
Proof.
  intros He He1 Hl0 Hl Ha Ho. pose proof (flat_score Ho) as Hs.
  change (m_score_ema mt)
    with (match score_ema j with None => m_score mt | Some e => 0.8 * e + 0.2 * m_score mt end).
  change (m_improves mt)
    with (Rleb (Rmax 1.10 (last_score_at_switch j
                           * Rpower 0.5 (Rmax 0 ((t - jam_last_switch j) / 8)) + 0.10))
               (match score_ema j with None => m_score mt | Some e => 0.8 * e + 0.2 * m_score mt end)).
  rewrite He.
  assert (Hy : 1 <= Rmax 0 ((t - jam_last_switch j) / 8)).
  { rewrite Rmax_right by lra. lra. }
  pose proof (decay_le_half _ Hy) as [Hd0 Hd].
  set (d := Rpower 0.5 (Rmax 0 ((t - jam_last_switch j) / 8))) in *.
  assert (Hld : last_score_at_switch j * d <= last_score_at_switch j * 0.5) by nra.
  split; [|split; [reflexivity|exact Hs]].
  apply Rleb_true. apply Rmax_lub; lra.
Qed.

End FlatMetrics.

(** ** A flat tick through the gate *)

Lemma median_lift_flat c b : median (repeat c 7) - median (repeat b 7) = c - b.
Proof. rewrite !median_repeat by lia. reflexivity. Qed.

Section FlatTick.

Variables (w : window) (x t b : R) (txt : string).
Hypothesis Hw : window16 w.
Hypothesis Hedit : antenna_edit w = Some txt.
Hypothesis Hignore : jam_ignore_until (jam w) = None.
Hypothesis Hbase : jam_baseline_db (jam w) = Some (repeat b 16).
Hypothesis Hready : jam_ready_at (jam w) <= t.
Hypothesis Hover : 6.5 <= db16 x - flat_base w x t b.
Hypothesis Hvalve : db16 x - flat_base w x t b <= 8.

Let mt := flat_metrics w x t b.
Let j2 := flat_stored w x t b.

Lemma flat_tick_params : params w = default_params.
Proof. now destruct Hw as (_ & _ & _ & _ & _ & H). Qed.

Lemma flat_tick_front :
  jam_front w (flat_input x t)
  = FrontSpectra (set_baseline (Some (repeat (flat_base w x t b) 16)) (jam w))
      (repeat (db16 x) 16) (repeat (db16 x) 7) (repeat (flat_base w x t b) 7).
Proof. now apply jam_front_flat. Qed.

Lemma flat_tick_occ : m_occ mt = 1.
Proof.
  apply flat_saturated. rewrite flat_tick_params. cbn [jam_thresh_db default_params].
  exact Hover.
Qed.

Lemma flat_tick_cond : m_cond mt = true.
Proof.
  apply flat_triggered. rewrite flat_tick_params, median_lift_flat.
  cbn [jam_median_db default_params].
  destruct (jam_med_state _); [apply Rmax_lub|]; lra.
Qed.

Lemma flat_tick_pre : m_pre mt = true.
Proof.
  pose proof flat_tick_occ as Ho.
  change (m_pre mt)
    with (Rleb (0.8 * m_occ_req_eff mt) (m_occ mt)
          && (Rleb (0.8 * jam_band_db (params w)) (m_band_lift mt)
              || Rleb (0.8 * jam_median_db (params w))
                      (median (repeat (db16 x) 7) - median (repeat (flat_base w x t b) 7))
              || Rleb (0.8 * jam_span_min (params w)) (m_span_frac mt))).
  rewrite Ho, median_lift_flat, flat_tick_params.
  assert (He : 0.10 <= m_occ_req_eff mt <= 0.45) by (apply clip_bounds; lra).
  rewrite (proj2 (Rleb_true (0.8 * m_occ_req_eff mt) 1)) by lra.
  rewrite (proj2 (Rleb_true (0.8 * jam_median_db default_params) _))
    by (cbn [jam_median_db default_params]; lra).
  cbn [andb]. now rewrite orb_true_r.
Qed.

(** The tick holds: the hold start is recorded and nothing is emitted. *)
Lemma flat_tick_holds :
  m_improves mt = true ->
  may_fire (params w) j2 t (hold_start j2 t) = false ->
  check_jamming w (flat_input x t)
  = (set_jam (set_started (Some (hold_start (jam w) t)) j2) w, []).
Proof.
  intros Hi Hm.
  rewrite (check_jamming_spectra _ _ _ _ _ _ flat_tick_front).
  rewrite (jam_decide_holding w (flat_input x t) _ _ _ _); try assumption.
  - reflexivity.
  - rewrite median_lift_flat. exact Hvalve.
  - change (m_cond mt && m_improves mt = true). now rewrite flat_tick_cond, Hi.
Qed.

(** The tick switches to the next port. *)
Lemma flat_tick_switches :
  m_improves mt = true ->
  may_fire (params w) j2 t (hold_start j2 t) = true ->
  let idx := ((current_port_index (jam w) + 1) mod 8)%nat in
  let p := nth idx ports ""%string in
  check_jamming w (flat_input x t)
  = (set_jam (rearmed (params w) (set_started (Some (hold_start (jam w) t)) j2)
                (repeat (db16 x) 16) mt t idx)
       (set_antenna_select p (set_antenna_edit (Some p) w)),
     JamAlert :: (if src_present w then [SetAntenna p] else [])
              ++ (if oc_panel_present w then [PanelSetActive p] else [])
              ++ [AntennaChanged p]).
Proof.
  intros Hi Hm idx p.
  rewrite (check_jamming_spectra _ _ _ _ _ _ flat_tick_front).
  rewrite (jam_decide_fired w (flat_input x t) _ _ _ _); try assumption.
  - rewrite (fire_commits w _ _ _ _ txt Hedit); [reflexivity|].
    destruct Hw as (_ & -> & _). reflexivity.
  - rewrite median_lift_flat. exact Hvalve.
  - change (m_cond mt && m_improves mt = true). now rewrite flat_tick_cond, Hi.
Qed.

Lemma flat_tick_may_fire :
  may_fire (params w) j2 t (hold_start j2 t)
  = Rleb 0.4 (t - hold_start (jam w) t)
    && Rleb 0.6 (t - jam_last_switch (jam w))
    && Rleb (jam_cooldown_until (jam w)) t.
Proof. unfold may_fire. rewrite flat_tick_params. reflexivity. Qed.

Lemma flat_tick_improves_first :
  score_ema (jam w) = None -> last_score_at_switch (jam w) = 0 ->
  m_improves mt = true /\ 4 / 3 <= m_score_ema mt.
Proof.
  intros He Hl.
  apply (flat_improves_first (params w)
           (set_baseline (Some (repeat (flat_base w x t b) 16)) (jam w)));
    [exact He|exact Hl|exact flat_tick_occ].
Qed.

Lemma flat_tick_improves_again e :
  score_ema (jam w) = Some e -> 4 / 3 <= e ->
  0 <= last_score_at_switch (jam w) ->
  0.625 * last_score_at_switch (jam w) <= e ->
  8 <= t - jam_last_switch (jam w) ->
  m_improves mt = true
  /\ m_score_ema mt = 0.8 * e + 0.2 * m_score mt
  /\ 4 / 3 <= m_score mt.
Proof.
  intros He He1 Hl0 Hl Ha.
  apply (flat_improves_again (params w)
           (set_baseline (Some (repeat (flat_base w x t b) 16)) (jam w)));
    try assumption. exact flat_tick_occ.
Qed.

Lemma flat_tick_verdict :
  m_improves mt = true -> verdict w (flat_input x t) = Some true.
Proof.
  intro Hi. unfold verdict. rewrite flat_tick_front.
  change (jam_metrics (params w) _ (now (flat_input x t)) _ _ _) with mt.
  rewrite flat_tick_cond, Hi, median_lift_flat.
  now rewrite (proj2 (Rltb_false _ _) Hvalve).
Qed.

(** What the detector holds after the tick, when it did not switch. *)
Lemma flat_tick_held_state :
  m_improves mt = true ->
  may_fire (params w) j2 t (hold_start j2 t) = false ->
  let w' := fst (check_jamming w (flat_input x t)) in
  snd (check_jamming w (flat_input x t)) = []
  /\ window16 w'
  /\ antenna_edit w' = Some txt
  /\ jam_ignore_until (jam w') = None
  /\ jam_baseline_db (jam w') = Some (repeat (flat_base w x t b) 16)
  /\ jam_ready_at (jam w') = jam_ready_at (jam w)
  /\ baseline_freeze_until (jam w')
     = (if Rleb (baseline_freeze_until (jam w)) t
        then t + 0.6 else baseline_freeze_until (jam w))
  /\ jam_cooldown_until (jam w') = jam_cooldown_until (jam w)
  /\ jam_last_switch (jam w') = jam_last_switch (jam w)
  /\ last_score_at_switch (jam w') = last_score_at_switch (jam w)
  /\ jam_started (jam w') = Some (hold_start (jam w) t)
  /\ current_port_index (jam w') = current_port_index (jam w)
  /\ score_ema (jam w') = Some (m_score_ema mt).
Proof.
  intros Hi Hm w'. subst w'. rewrite (flat_tick_holds Hi Hm). cbn [fst snd].
  repeat split;
    try solve [destruct Hw as (H1 & H2 & H3 & H4 & H5 & H6); assumption
              | exact Hedit | exact Hignore].
  cbn [jam set_jam baseline_freeze_until set_started j2 flat_stored store_metrics
       set_baseline].
  change (flat_metrics w x t b) with mt. now rewrite flat_tick_pre.
Qed.

(** What the detector holds after the tick, when it switched. *)
Lemma flat_tick_switched_state :
  m_improves mt = true ->
  may_fire (params w) j2 t (hold_start j2 t) = true ->
  let w' := fst (check_jamming w (flat_input x t)) in
  existsb is_switch (snd (check_jamming w (flat_input x t))) = true
  /\ window16 w'
  /\ antenna_edit w'
     = Some (nth ((current_port_index (jam w) + 1) mod 8) ports ""%string)
  /\ jam_ignore_until (jam w') = None
  /\ jam_baseline_db (jam w') = Some (repeat (db16 x) 16)
  /\ jam_ready_at (jam w') = t + 0.8
  /\ baseline_freeze_until (jam w') = t + 0.6
  /\ jam_cooldown_until (jam w') = t + 4
  /\ jam_last_switch (jam w') = t
  /\ last_score_at_switch (jam w') = m_score_ema mt
  /\ jam_started (jam w') = None
  /\ current_port_index (jam w') = ((current_port_index (jam w) + 1) mod 8)%nat
  /\ score_ema (jam w') = Some (m_score_ema mt).
Proof.
  intros Hi Hm w'. subst w'. rewrite (flat_tick_switches Hi Hm). cbn [fst snd].
  split; [apply fire_events_switch|].
  repeat split;
    try solve [destruct Hw as (H1 & H2 & H3 & H4 & H5 & H6); assumption
              | exact Hignore].
  cbn [jam set_jam jam_cooldown_until rearmed]. rewrite flat_tick_params.
  cbn [jam_cooldown_s default_params]. lra.
Qed.

End FlatTick.

(** ** A run with two switches *)

Lemma db16_loud : db16 loud = 7.
Proof. unfold loud. apply db16_pow10. lra. Qed.

(** The first tick starts the hold. *)
Lemma tick1_holds :
  snd (check_jamming start16 tick1) = []
  /\ verdict start16 tick1 = Some true
  /\ window16 after1
  /\ antenna_edit after1 = Some "A4"%string
  /\ jam_ignore_until (jam after1) = None
  /\ jam_baseline_db (jam after1) = Some (repeat (-7) 16)
  /\ jam_ready_at (jam after1) = 0
  /\ baseline_freeze_until (jam after1) = 100
  /\ jam_cooldown_until (jam after1) = 0
  /\ jam_last_switch (jam after1) = 0
  /\ last_score_at_switch (jam after1) = 0
  /\ jam_started (jam after1) = Some 9.5
  /\ current_port_index (jam after1) = 0%nat
  /\ exists e, score_ema (jam after1) = Some e /\ 4 / 3 <= e.
Proof.
  assert (Hw : window16 start16) by (now apply window16_jamming).
  assert (Hf : Rleb (baseline_freeze_until (jam start16)) 9.5 = false).
  { apply Rleb_false. cbn. lra. }
  assert (Hb : flat_base start16 16 9.5 (-7) = -7).
  { unfold flat_base. now rewrite Hf. }
  assert (Ho : 6.5 <= db16 16 - flat_base start16 16 9.5 (-7))
    by (rewrite Hb, db16_unit; lra).
  assert (Hv : db16 16 - flat_base start16 16 9.5 (-7) <= 8)
    by (rewrite Hb, db16_unit; lra).
  assert (Hr : jam_ready_at (jam start16) <= 9.5) by (cbn; lra).
  destruct (flat_tick_improves_first start16 16 9.5 (-7) Hw Ho eq_refl eq_refl)
    as [Hi He].
  assert (Hm : may_fire (params start16) (flat_stored start16 16 9.5 (-7)) 9.5
                 (hold_start (flat_stored start16 16 9.5 (-7)) 9.5) = false).
  { rewrite (flat_tick_may_fire start16 16 9.5 (-7) Hw).
    replace (Rleb 0.4 (9.5 - hold_start (jam start16) 9.5)) with false; [reflexivity|].
    symmetry. apply Rleb_false. cbn. lra. }
  pose proof (flat_tick_held_state start16 16 9.5 (-7) "A4"%string
                Hw eq_refl eq_refl eq_refl Hr Ho Hv Hi Hm) as H.
  cbv zeta in H. fold tick1 in H. fold after1 in H.
  destruct H as (H1 & H2 & H3 & H4 & H5 & H6 & H7 & H8 & H9 & H10 & H11 & H12 & H13).
  rewrite Hb in H5. rewrite Hf in H7.
  split; [exact H1|]. split.
  { exact (flat_tick_verdict start16 16 9.5 (-7) Hw eq_refl eq_refl Hr Ho Hv Hi). }
  repeat (split; [assumption|]).
  exists (m_score_ema (flat_metrics start16 16 9.5 (-7))). split; assumption.
Qed.

(** Half a second later the hold is long enough: the second tick switches
    to A3. *)
Lemma tick2_switches :
  existsb is_switch (snd (check_jamming after1 tick2)) = true
  /\ window16 after2
  /\ antenna_edit after2 = Some "A3"%string
  /\ jam_ignore_until (jam after2) = None
  /\ jam_baseline_db (jam after2) = Some (repeat 0 16)
  /\ jam_ready_at (jam after2) = 10 + 0.8
  /\ baseline_freeze_until (jam after2) = 10 + 0.6
  /\ jam_cooldown_until (jam after2) = 10 + 4
  /\ jam_last_switch (jam after2) = 10
  /\ jam_started (jam after2) = None
  /\ current_port_index (jam after2) = 1%nat
  /\ exists e, score_ema (jam after2) = Some e
               /\ last_score_at_switch (jam after2) = e /\ 4 / 3 <= e.
Proof.
  destruct tick1_holds
    as (_ & _ & Hw & Hed & Hig & Hba & Hre & Hfr & Hco & Hls & Hlc & Hst & Hix
        & e1 & Hsc & He1).
  assert (Hf : Rleb (baseline_freeze_until (jam after1)) 10 = false).
  { apply Rleb_false. rewrite Hfr. lra. }
  assert (Hb : flat_base after1 16 10 (-7) = -7).
  { unfold flat_base. now rewrite Hf. }
  assert (Ho : 6.5 <= db16 16 - flat_base after1 16 10 (-7))
    by (rewrite Hb, db16_unit; lra).
  assert (Hv : db16 16 - flat_base after1 16 10 (-7) <= 8)
    by (rewrite Hb, db16_unit; lra).
  assert (Hr : jam_ready_at (jam after1) <= 10) by (rewrite Hre; lra).
  destruct (flat_tick_improves_again after1 16 10 (-7) Hw Ho e1 Hsc He1)
    as (Hi & Hem & Hs); try (rewrite ?Hlc, ?Hls; lra).
  assert (Hm : may_fire (params after1) (flat_stored after1 16 10 (-7)) 10
                 (hold_start (flat_stored after1 16 10 (-7)) 10) = true).
  { rewrite (flat_tick_may_fire after1 16 10 (-7) Hw).
    unfold hold_start. rewrite Hst, Hls, Hco.
    rewrite !(proj2 (Rleb_true _ _)) by lra. reflexivity. }
  pose proof (flat_tick_switched_state after1 16 10 (-7) "A4"%string
                Hw Hed Hig Hba Hr Ho Hv Hi Hm) as H.
  cbv zeta in H. fold tick2 in H. fold after2 in H.
  destruct H as (H1 & H2 & H3 & H4 & H5 & H6 & H7 & H8 & H9 & H10 & H11 & H12 & H13).
  rewrite Hix in H3, H12. rewrite db16_unit in H5.
  repeat (split; [assumption|]).
  exists (m_score_ema (flat_metrics after1 16 10 (-7))).
  repeat (split; [assumption|]). rewrite Hem. lra.
Qed.

(** Eight seconds on the reading is 7 dB up: the third tick starts a new
    hold and freezes the baseline. *)
Lemma tick3_holds :
  snd (check_jamming after2 tick3) = []
  /\ window16 after3
  /\ antenna_edit after3 = Some "A3"%string
  /\ jam_ignore_until (jam after3) = None
  /\ jam_baseline_db (jam after3) = Some (repeat ((1 - 0.05) * 0 + 0.05 * 7) 16)
  /\ jam_ready_at (jam after3) = 10 + 0.8
  /\ baseline_freeze_until (jam after3) = 18 + 0.6
  /\ jam_cooldown_until (jam after3) = 10 + 4
  /\ jam_last_switch (jam after3) = 10
  /\ jam_started (jam after3) = Some 18
  /\ current_port_index (jam after3) = 1%nat
  /\ exists e l, score_ema (jam after3) = Some e
                 /\ last_score_at_switch (jam after3) = l
                 /\ 4 / 3 <= e /\ 0 <= l /\ 0.625 * l <= e.
Proof.
  destruct tick2_switches
    as (_ & Hw & Hed & Hig & Hba & Hre & Hfr & Hco & Hls & Hst & Hix
        & e2 & Hsc & Hlc & He2).
  assert (Hf : Rleb (baseline_freeze_until (jam after2)) 18 = true).
  { apply Rleb_true. rewrite Hfr. lra. }
  assert (Hb : flat_base after2 loud 18 0 = (1 - 0.05) * 0 + 0.05 * 7).
  { unfold flat_base. now rewrite Hf, db16_loud. }
  assert (Ho : 6.5 <= db16 loud - flat_base after2 loud 18 0)
    by (rewrite Hb, db16_loud; lra).
  assert (Hv : db16 loud - flat_base after2 loud 18 0 <= 8)
    by (rewrite Hb, db16_loud; lra).
  assert (Hr : jam_ready_at (jam after2) <= 18) by (rewrite Hre; lra).
  destruct (flat_tick_improves_again after2 loud 18 0 Hw Ho e2 Hsc He2)
    as (Hi & Hem & Hs); try (rewrite ?Hlc, ?Hls; lra).
  assert (Hm : may_fire (params after2) (flat_stored after2 loud 18 0) 18
                 (hold_start (flat_stored after2 loud 18 0) 18) = false).
  { rewrite (flat_tick_may_fire after2 loud 18 0 Hw).
    unfold hold_start. rewrite Hst.
    replace (Rleb 0.4 (18 - 18)) with false; [reflexivity|].
    symmetry. apply Rleb_false. lra. }
  pose proof (flat_tick_held_state after2 loud 18 0 "A3"%string
                Hw Hed Hig Hba Hr Ho Hv Hi Hm) as H.
  cbv zeta in H. fold tick3 in H. fold after3 in H.
  destruct H as (H1 & H2 & H3 & H4 & H5 & H6 & H7 & H8 & H9 & H10 & H11 & H12 & H13).
  rewrite Hb in H5. rewrite Hf in H7. rewrite Hre in H6. rewrite Hco in H8.
  rewrite Hls in H9. rewrite Hix in H12. unfold hold_start in H11. rewrite Hst in H11.
  repeat (split; [assumption|]).
  exists (m_score_ema (flat_metrics after2 loud 18 0)), e2.
  split; [assumption|]. split; [now rewrite H10|]. rewrite Hem. lra.
Qed.

(** Half a second later the fourth tick switches again. *)
Lemma tick4_switches :
  existsb is_switch (snd (check_jamming after3 tick4)) = true.
Proof.
  destruct tick3_holds
    as (_ & Hw & Hed & Hig & Hba & Hre & Hfr & Hco & Hls & Hst & Hix
        & e3 & l & Hsc & Hlc & He3 & Hl0 & Hl).
  set (b3 := (1 - 0.05) * 0 + 0.05 * 7) in *.
  assert (Hf : Rleb (baseline_freeze_until (jam after3)) 18.5 = false).
  { apply Rleb_false. rewrite Hfr. lra. }
  assert (Hb : flat_base after3 loud 18.5 b3 = b3).
  { unfold flat_base. now rewrite Hf. }
  assert (Ho : 6.5 <= db16 loud - flat_base after3 loud 18.5 b3)
    by (rewrite Hb, db16_loud; unfold b3; lra).
  assert (Hv : db16 loud - flat_base after3 loud 18.5 b3 <= 8)
    by (rewrite Hb, db16_loud; unfold b3; lra).
  assert (Hr : jam_ready_at (jam after3) <= 18.5) by (rewrite Hre; lra).
  destruct (flat_tick_improves_again after3 loud 18.5 b3 Hw Ho e3 Hsc He3)
    as (Hi & Hem & Hs); try (rewrite ?Hlc, ?Hls; lra).
  assert (Hm : may_fire (params after3) (flat_stored after3 loud 18.5 b3) 18.5
                 (hold_start (flat_stored after3 loud 18.5 b3) 18.5) = true).
  { rewrite (flat_tick_may_fire after3 loud 18.5 b3 Hw).
    unfold hold_start. rewrite Hst, Hls, Hco.
    rewrite !(proj2 (Rleb_true _ _)) by lra. reflexivity. }
  pose proof (flat_tick_switched_state after3 loud 18.5 b3 "A3"%string
                Hw Hed Hig Hba Hr Ho Hv Hi Hm) as H.
  cbv zeta in H. fold tick4 in H. exact (proj1 H).
Qed.

(** The run switches at 10 s and at 18.5 s. *)
Lemma two_switches :
  switch_times start16 [tick1; tick2; tick3; tick4] = [10; 18.5].
Proof.
  rewrite switch_times_cons. rewrite (proj1 tick1_holds). cbn [existsb].
  fold after1. rewrite switch_times_cons. rewrite (proj1 tick2_switches).
  fold after2. rewrite switch_times_cons. rewrite (proj1 tick3_holds). cbn [existsb].
  fold after3. rewrite switch_times_cons. rewrite tick4_switches.
  reflexivity.
Qed.

(** ** Two more ticks: a quiet one and a step *)



Lemma C5_witness :
  (occ_requirement 0.5 1000 (-3)
   = Rmax 0.10 (0.85 * clamp (0.5 * sqrt (256 / Rmax 64 (INR 1000))) 0.10 0.45))
  /\ (occ_requirement 0.5 1000 (-3.8)
      = Rmax 0.12 (0.92 * clamp (0.5 * sqrt (256 / Rmax 64 (INR 1000))) 0.10 0.45))
  /\ (occ_requirement 0.5 1000 (-6)
      = clamp (0.5 * sqrt (256 / Rmax 64 (INR 1000))) 0.10 0.45)
  /\ 0.2529 < occ_requirement 0.5 1000 (-6) < 0.2530
  /\ occ_req_ema (jam after1)
     = Some (m_occ_req_ema (flat_metrics start16 16 9.5 (-7))).
Proof.
  pose proof (proj1 C5_occupancy_requirement 0.5 1000%nat) as H.
  split; [apply (proj1 (H (-3))); lra|].
  split; [apply (proj1 (proj2 (H (-3.8)))); lra|].
  split; [apply (proj2 (proj2 (H (-6)))); lra|].
  split; [apply (proj2 (proj2 (proj2 C5_occupancy_requirement)) (-6)); lra|].
  assert (Hw : window16 start16) by (now apply window16_jamming).
  assert (Hr : jam_ready_at (jam start16) <= 9.5) by (cbn; lra).
  assert (Hb : flat_base start16 16 9.5 (-7) = -7).
  { unfold flat_base. rewrite (proj2 (Rleb_false _ _)); [reflexivity|]. cbn. lra. }
  apply (proj1 (proj2 (proj2 C5_occupancy_requirement))
           start16 tick1 _ _ _ _
           (flat_tick_front start16 16 9.5 (-7) Hw eq_refl eq_refl Hr)).
  rewrite median_lift_flat, Hb, db16_unit. lra.
Defined.



Lemma C2_witness :
  (jam_cooldown_until (jam after1) <= now tick2
   /\ jam_cooldown_until (jam after2) = now tick2 + jam_cooldown_s (params after1))
  /\ switch_times start16 [tick1; tick2; tick3; tick4] = [10; 18.5]
  /\ spaced (jam_cooldown_s (params start16))
       (switch_times start16 [tick1; tick2; tick3; tick4]).
Proof.
  pose proof tick1_holds as (_ & _ & _ & Hed & _).
  split; [|split].
  - apply (proj1 C2_switches_spaced_by_cooldown after1 tick2).
    + rewrite Hed. discriminate.
    + exact (proj1 tick2_switches).
  - exact two_switches.
  - apply (proj1 (proj2 C2_switches_spaced_by_cooldown)). discriminate.
Defined.

End DetectorProps.

(* ================================================================== *)
(** * Invariants of the sweep: planning, stepping and capturing *)
(* ================================================================== *)

Module SweepInvariants.

Import Sweep SweepStep SweepPlan SweepCapture.
Local Open Scope Q_scope.

Lemma retry_or_skip_frame st :
  let st' := fst (retry_or_skip st) in
  sweep_busy st' = false /\ same_plan st st'
  /\ sweep_buffer st' = sweep_buffer st /\ last_fft st' = last_fft st
  /\ sweep_prev_linear st' = sweep_prev_linear st
  /\ (snd (retry_or_skip st) = [] \/ snd (retry_or_skip st) = [SingleShot 8]).
Proof.
  unfold retry_or_skip, same_plan.
  destruct (cap_retries st <? 3)%nat; cbn; intuition auto.
Qed.

Lemma stitch_frame st :
  let st' := fst (stitch st) in
  sweep_busy st' = false /\ same_plan st st'
  /\ sweep_buffer st' = sweep_buffer st /\ last_fft st' = last_fft st.
Proof.
  unfold stitch, same_plan.
  destruct (in_range_idx _ _ _) as [|i idx]; [cbn; intuition auto|].
  destruct (gather (sweep_buffer st) _) as [y|]; [|cbn; intuition auto].
  destruct (gather (freq_axis st) _) as [x|]; cbn; intuition auto.
Qed.

Lemma accept_capture_frame st mags :
  let st' := fst (accept_capture st mags) in
  sweep_busy st' = false /\ same_plan st st' /\ last_fft st' = Some mags.
Proof.
  unfold accept_capture.
  destruct (fft_size st) eqn:En; [unfold same_plan; cbn; rewrite En; intuition auto|].
  destruct (write_segment _ _ _) as [buf|];
    [|unfold same_plan; cbn; rewrite En; intuition auto].
  match goal with |- context [stitch ?s] =>
    destruct (stitch_frame s) as (Hb & Hp & _ & Hl); revert Hb Hp Hl end.
  unfold same_plan; cbn; rewrite En; intuition auto.
Qed.

Lemma retry_or_skip_pointer st : stayed_or_advanced st (fst (retry_or_skip st)).
Proof.
  unfold retry_or_skip, stayed_or_advanced.
  destruct (cap_retries st <? 3)%nat eqn:E; cbn -[Nat.max].
  - left; split; [reflexivity|]. apply Nat.ltb_lt in E. lia.
  - right; auto.
Qed.

Lemma stitch_pointer st :
  stayed_or_advanced st (fst (stitch st)).
Proof.
  unfold stitch, stayed_or_advanced.
  destruct (in_range_idx _ _ _) as [|i idx]; [cbn; right; auto|].
  destruct (gather (sweep_buffer st) _) as [y|];
    [|cbn -[Nat.max]; left; split; [reflexivity|lia]].
  destruct (gather (freq_axis st) _) as [x|]; cbn -[Nat.max];
    [right; auto|left; split; [reflexivity|lia]].
Qed.

Lemma accept_capture_pointer st mags :
  stayed_or_advanced st (fst (accept_capture st mags)).
Proof.
  unfold accept_capture.
  destruct (fft_size st) eqn:En; [left; cbn -[Nat.max]; split; [reflexivity|lia]|].
  destruct (write_segment _ _ _) as [buf|];
    [|left; cbn -[Nat.max]; split; [reflexivity|lia]].
  match goal with |- context [stitch ?s] => pose proof (stitch_pointer s) as H end.
  exact H.
Qed.

Ltac capture_cases st inp :=
  unfold capture_fft;
  destruct (negb (is_sweep_mode (mode st)) || negb (sweep_active st) || rebuilding st);
  [|destruct (negb (probe_present st) || (length (center_freqs st) =? 0)%nat);
    [|destruct (step_freq_hz st) as [step|];
      [destruct (match tuned_before inp with Some t => off_tune t step | None => false end);
       [|destruct (read_mags (raw inp) (fft_size st)) as [mags|];
         [destruct (match tuned_after inp with Some t => off_tune t step | None => true end);
          [|destruct (match last_fft st with Some prev => allclose mags prev | None => Some false end)
              as [[|]|]]|]]|]]].

Lemma capture_fft_frame st inp :
  sweep_busy (fst (capture_fft st inp)) = false
  /\ same_plan st (fst (capture_fft st inp)).
Proof.
  capture_cases st inp;
    try (destruct (retry_or_skip_frame st) as (Hb & Hp & _); split; assumption);
    try (destruct (accept_capture_frame st mags) as (Hb & Hp & _); split; assumption);
    unfold same_plan; cbn; intuition auto.
Qed.

Lemma capture_fft_pointer st inp :
  stayed_or_advanced st (fst (capture_fft st inp)).
Proof.
  capture_cases st inp;
    try apply retry_or_skip_pointer; try apply accept_capture_pointer;
    left; cbn -[Nat.max]; split; try reflexivity; lia.
Qed.

(** X3.  Whatever it reads, one run of [capture_fft] clears the busy flag
    and writes none of the fields that make up the plan: mode, activity and
    rebuild flags, probe, FFT size, sample rate, centre frequencies,
    frequency axis, the step to capture and the sweep range. *)
Theorem capture_fft_clears_busy_keeps_plan :
  forall st inp,
    let st' := fst (capture_fft st inp) in
    sweep_busy st' = false /\ same_plan st st'.
Proof.
  intros st inp. apply capture_fft_frame.
Qed.

(** X4.  A pointer that is on a step of the plan stays on one, and a retry
    count of at most three stays at most three: a run of [capture_fft]
    either leaves the pointer where it is, or moves it to the next step
    modulo the number of steps and clears the retry count. *)
Theorem capture_fft_pointer_in_plan :
  forall st inp,
    (sweep_ptr st < length (center_freqs st))%nat ->
    (cap_retries st <= 3)%nat ->
    let st' := fst (capture_fft st inp) in
    (sweep_ptr st' < length (center_freqs st'))%nat
    /\ (cap_retries st' <= 3)%nat
    /\ (sweep_ptr st' = sweep_ptr st
        \/ (sweep_ptr st' = ((sweep_ptr st + 1) mod length (center_freqs st))%nat
            /\ cap_retries st' = 0%nat)).
Proof.
  intros st inp Hp Hr st'.
  destruct (capture_fft_frame st inp) as (_ & Hsame).
  destruct Hsame as (_ & _ & _ & _ & _ & _ & Hc & _).
  fold st' in Hc. rewrite Hc.
  destruct (capture_fft_pointer st inp) as [[H1 H2]|[H1 H2]]; fold st' in H1, H2.
  - repeat split; [lia|lia|left; assumption].
  - repeat split; [rewrite H1; apply Nat.mod_upper_bound; lia|lia|right; auto].
Qed.

Lemma demo_pointer_in_plan :
  (sweep_ptr (demo_state None) < length (center_freqs (demo_state None)))%nat
  /\ (cap_retries (demo_state None) <= 3)%nat.
Proof. cbn. lia. Qed.

Lemma capture_fft_pointer_in_plan_witness :
  let st := demo_state None in
  let st' := fst (capture_fft st (demo_input spike16)) in
  (sweep_ptr st' < length (center_freqs st'))%nat
  /\ (cap_retries st' <= 3)%nat
  /\ (sweep_ptr st' = sweep_ptr st
      \/ (sweep_ptr st' = ((sweep_ptr st + 1) mod length (center_freqs st))%nat
          /\ cap_retries st' = 0%nat)).
Proof.
  apply (capture_fft_pointer_in_plan (demo_state None) (demo_input spike16));
    apply demo_pointer_in_plan.
Defined.

Lemma clamp_edge_range f : 0 < clamp_edge f /\ clamp_edge f <= 4000000000.
Proof.
  unfold clamp_edge.
  destruct (Qle_bool f 0) eqn:E1; [split; lra|].
  apply Qle_bool_false in E1.
  destruct (Qltb 4000000000 f) eqn:E2; [split; lra|].
  apply Qltb_false in E2. split; assumption.
Qed.

Lemma plan_freq_axis_length step n cfs :
  length (plan_freq_axis step n cfs) = (length cfs * n)%nat.
Proof.
  unfold plan_freq_axis.
  induction cfs as [|cf cfs IH]; [reflexivity|].
  cbn [flat_map length]. rewrite length_app, IH.
  unfold linspace_open. rewrite !length_map, length_seq. cbn. reflexivity.
Qed.


(** X2.  An accepted plan is consistent: at least one step, [total_steps]
    centre frequencies, [total_steps * fft_size] bins on the axis and in the
    zeroed buffer, the pointer on the first step, the smoothing history
    dropped, and a recorded sweep range with [0 < start < end <= 4 GHz]. *)
Theorem validate_sweep_inputs_accepted_plan :
  forall st a b st',
    validate_sweep_inputs st a b = (st', true) ->
    (1 <= total_steps st')%nat
    /\ length (center_freqs st') = total_steps st'
    /\ total_bins st' = (total_steps st' * fft_size st)%nat
    /\ length (freq_axis st') = total_bins st'
    /\ sweep_buffer st' = zeros (total_bins st')
    /\ sweep_ptr st' = 0%nat
    /\ sweep_prev_linear st' = None
    /\ fft_size st' = fft_size st
    /\ 0 < last_valid_sweep_start st'
    /\ last_valid_sweep_start st' < last_valid_sweep_end st'
    /\ last_valid_sweep_end st' <= 4000000000.
Proof.
  intros st a b st' H.
  destruct a as [s0|]; [|discriminate H].
  destruct b as [e0|]; [|discriminate H].
  cbn [validate_sweep_inputs] in H.
  destruct (Qle_bool (clamp_edge e0) (clamp_edge s0)) eqn:E1; [discriminate H|].
  destruct (Qle_bool (samp_rate st) 0) eqn:E2; [discriminate H|].
  apply Qle_bool_false in E1, E2.
  pose proof (plan_num_steps_pos _ _ _ E1 E2) as Hk.
  destruct (Z.ltb_spec (plan_num_steps (clamp_edge s0) (clamp_edge e0) (samp_rate st)) 1);
    [lia|].
  injection H as <-. cbn.
  rewrite plan_freq_axis_length, plan_center_freqs_length.
  destruct (clamp_edge_range s0), (clamp_edge_range e0).
  repeat split; try assumption; try reflexivity. lia.
Qed.

Lemma validate_sweep_inputs_accepted_plan_witness :
  let st' := fst (validate_sweep_inputs (initial_state 16 16) (Some 100) (Some 120)) in
  (1 <= total_steps st')%nat
  /\ length (center_freqs st') = total_steps st'
  /\ total_bins st' = (total_steps st' * 16)%nat
  /\ length (freq_axis st') = total_bins st'
  /\ sweep_buffer st' = zeros (total_bins st')
  /\ sweep_ptr st' = 0%nat
  /\ sweep_prev_linear st' = None
  /\ fft_size st' = 16%nat
  /\ 0 < last_valid_sweep_start st'
  /\ last_valid_sweep_start st' < last_valid_sweep_end st'
  /\ last_valid_sweep_end st' <= 4000000000.
Proof.
  apply (validate_sweep_inputs_accepted_plan (initial_state 16 16) (Some 100) (Some 120)).
  vm_compute. reflexivity.
Defined.

(** X5.  Every rejection installs the same single-window fallback: Start
    is unchecked, the axis becomes [fft_size] points from 0 to the sample
    rate over a zeroed buffer of [fft_size] bins, while the centre
    frequencies, the step count and the pointer of the previous plan are
    left as they were. *)
Theorem validate_sweep_inputs_rejected_fallback :
  forall st a b st',
    validate_sweep_inputs st a b = (st', false) ->
    toggle_checked st' = false
    /\ total_bins st' = fft_size st
    /\ freq_axis st' = linspace_closed 0 (samp_rate st) (fft_size st)
    /\ sweep_buffer st' = zeros (fft_size st)
    /\ center_freqs st' = center_freqs st
    /\ total_steps st' = total_steps st
    /\ sweep_ptr st' = sweep_ptr st
    /\ sweep_prev_linear st' = sweep_prev_linear st.
Proof.
  intros st a b st' H.
  unfold validate_sweep_inputs in H.
  destruct a as [s0|]; [|injection H as <-; cbn; intuition auto].
  destruct b as [e0|]; [|injection H as <-; cbn; intuition auto].
  destruct (Qle_bool (clamp_edge e0) (clamp_edge s0));
    [injection H as <-; cbn; intuition auto|].
  destruct (Qle_bool (samp_rate st) 0); [injection H as <-; cbn; intuition auto|].
  destruct (_ <? 1)%Z; [injection H as <-; cbn; intuition auto|discriminate H].
Qed.

Lemma validate_sweep_inputs_rejected_fallback_witness :
  let st := demo_state None in
  let st' := fst (validate_sweep_inputs st (Some 120) (Some 100)) in
  toggle_checked st' = false
  /\ total_bins st' = fft_size st
  /\ freq_axis st' = linspace_closed 0 (samp_rate st) (fft_size st)
  /\ sweep_buffer st' = zeros (fft_size st)
  /\ center_freqs st' = center_freqs st
  /\ total_steps st' = total_steps st
  /\ sweep_ptr st' = sweep_ptr st
  /\ sweep_prev_linear st' = sweep_prev_linear st.
Proof.
  apply (validate_sweep_inputs_rejected_fallback (demo_state None) (Some 120) (Some 100)).
  vm_compute. reflexivity.
Defined.

Lemma off_tune_true t step : 1 < Qabs (t - step) -> off_tune t step = true.
Proof. intros H. unfold off_tune. apply Qltb_true. exact H. Qed.

(** X6.  A capture that fails a validation never reaches the display or
    the buffer: the sweep buffer, the last accepted vector and the
    smoothing history are untouched, and the only thing the run may
    schedule is the 8 ms retry. *)
Theorem capture_fft_rejected_leaves_data :
  forall st inp,
    rejected st inp ->
    let r := capture_fft st inp in
    sweep_buffer (fst r) = sweep_buffer st
    /\ last_fft (fst r) = last_fft st
    /\ sweep_prev_linear (fst r) = sweep_prev_linear st
    /\ (snd r = [] \/ snd r = [SingleShot 8]).
Proof.
  intros st inp Hrej.
  assert (Hretry : let r := retry_or_skip st in
            sweep_buffer (fst r) = sweep_buffer st
            /\ last_fft (fst r) = last_fft st
            /\ sweep_prev_linear (fst r) = sweep_prev_linear st
            /\ (snd r = [] \/ snd r = [SingleShot 8])).
  { destruct (retry_or_skip_frame st) as (_ & _ & H1 & H2 & H3 & H4). auto. }
  unfold capture_fft.
  destruct (negb (is_sweep_mode (mode st)) || negb (sweep_active st) || rebuilding st);
    [cbn; auto|].
  destruct (negb (probe_present st) || (length (center_freqs st) =? 0)%nat);
    [cbn; auto|].
  destruct (step_freq_hz st) as [step|] eqn:Es; [|cbn; auto].
  destruct (Hrej step Es) as [(t & Ht & Hoff)|[Hr|[Ha|(t & Ht & Hoff)]]].
  - rewrite Ht, (off_tune_true _ _ Hoff). exact Hretry.
  - destruct (match tuned_before inp with Some t => off_tune t step | None => false end);
      [exact Hretry|]. rewrite Hr. exact Hretry.
  - destruct (match tuned_before inp with Some t => off_tune t step | None => false end);
      [exact Hretry|].
    destruct (read_mags (raw inp) (fft_size st)); [|exact Hretry].
    rewrite Ha. exact Hretry.
  - destruct (match tuned_before inp with Some t => off_tune t step | None => false end);
      [exact Hretry|].
    destruct (read_mags (raw inp) (fft_size st)); [|exact Hretry].
    rewrite Ht, (off_tune_true _ _ Hoff). exact Hretry.
Qed.

Lemma short_reading_rejected :
  rejected (demo_state None) {| tuned_before := Some 108; raw := ReadVec [Finite 1];
                                tuned_after := Some 108 |}.
Proof. intros step _. right; left. reflexivity. Qed.

Lemma capture_fft_rejected_leaves_data_witness :
  let st := demo_state None in
  let r := capture_fft st {| tuned_before := Some 108; raw := ReadVec [Finite 1];
                             tuned_after := Some 108 |} in
  sweep_buffer (fst r) = sweep_buffer st
  /\ last_fft (fst r) = last_fft st
  /\ sweep_prev_linear (fst r) = sweep_prev_linear st
  /\ (snd r = [] \/ snd r = [SingleShot 8]).
Proof.
  apply (capture_fft_rejected_leaves_data (demo_state None) _ short_reading_rejected).
Defined.

(** ** Decimation and indexed selection *)

Lemma gather_map l sel r :
  gather l sel = Some r -> r = map (fun i => nth i l 0) sel.
Proof.
  revert r. induction sel as [|i sel IH]; intros r H; cbn in H.
  - injection H as <-. reflexivity.
  - destruct (nth_error l i) as [x|] eqn:Ex; [|discriminate H].
    destruct (gather l sel) as [r'|]; [|discriminate H].
    injection H as <-. cbn. rewrite <- (IH r' eq_refl).
    f_equal. symmetry. apply nth_error_nth. exact Ex.
Qed.

Lemma gather_total l sel :
  Forall (fun i => (i < length l)%nat) sel -> exists r, gather l sel = Some r.
Proof.
  induction 1 as [|i sel Hi _ IH]; [exists []; reflexivity|].
  destruct IH as [r Hr]. cbn. rewrite Hr.
  destruct (nth_error l i) as [x|] eqn:Ex; [exists (x :: r); reflexivity|].
  apply nth_error_None in Ex. lia.
Qed.

Lemma combine_snoc {A B} (l1 : list A) (l2 : list B) a b :
  length l1 = length l2 ->
  combine (l1 ++ [a]) (l2 ++ [b]) = combine l1 l2 ++ [(a, b)].
Proof.
  revert l2. induction l1 as [|x l1 IH]; intros [|y l2] H; try discriminate H.
  - reflexivity.
  - cbn. f_equal. apply IH. injection H as H. exact H.
Qed.

Lemma decimate_snoc {A} s (l : list A) x :
  decimate s (l ++ [x])
  = decimate s l ++ (if (length l mod s =? 0)%nat then [x] else []).
Proof.
  unfold decimate.
  rewrite length_app. cbn [length]. rewrite Nat.add_1_r, seq_S. cbn [Nat.add].
  rewrite combine_snoc by (rewrite length_seq; reflexivity).
  rewrite filter_app, map_app. cbn [filter fst].
  destruct (length l mod s =? 0)%nat; reflexivity.
Qed.

Lemma decimate_In {A} s (l : list A) x : In x (decimate s l) -> In x l.
Proof.
  unfold decimate. intros H.
  apply in_map_iff in H. destruct H as ((i & y) & <- & H).
  apply filter_In in H. destruct H as [H _].
  apply in_combine_r in H. exact H.
Qed.

(** Every [s]-th element: the count is the ceiling of [length l / s]. *)
Lemma decimate_count {A} s (l : list A) :
  (0 < s)%nat ->
  (length l <= length (decimate s l) * s)%nat
  /\ (length (decimate s l) * s < length l + s)%nat.
Proof.
  intros Hs. induction l as [|x l IH] using rev_ind.
  - cbn. lia.
  - rewrite decimate_snoc, !length_app. cbn [length].
    set (n := length l) in *. set (c := length (decimate s l)) in *.
    pose proof (Nat.div_mod_eq n s) as Hdm.
    pose proof (Nat.mod_upper_bound n s ltac:(lia)) as Hr.
    destruct (Nat.eqb_spec (n mod s) 0) as [E|E]; cbn [length].
    + assert (c = (n / s)%nat) by nia. nia.
    + assert ((c * s)%nat <> n).
      { intros Hc. assert (c = (n / s)%nat) by nia. nia. }
      lia.
Qed.

Lemma decimate_at_most_1024 {A} (l : list A) :
  l <> [] ->
  (1 <= length (decimate ((length l + 1023) / 1024) l) <= 1024)%nat.
Proof.
  intros Hl.
  assert (Hn : (1 <= length l)%nat) by (destruct l; [congruence|cbn; lia]).
  set (s := ((length l + 1023) / 1024)%nat).
  pose proof (Nat.div_mod_eq (length l + 1023) 1024) as Hdm.
  pose proof (Nat.mod_upper_bound (length l + 1023) 1024 ltac:(lia)) as Hr.
  fold s in Hdm.
  assert (Hs : (0 < s)%nat) by lia.
  destruct (decimate_count s l Hs) as [H1 H2].
  split; nia.
Qed.

Lemma in_range_idx_In axis lo hi i :
  In i (in_range_idx axis lo hi) ->
  (i < length axis)%nat /\ in_range lo hi (nth i axis 0) = true.
Proof.
  unfold in_range_idx. intros H. apply filter_In in H. destruct H as [H1 H2].
  apply in_seq in H1. split; [lia|exact H2].
Qed.

Lemma in_range_bounds lo hi f : in_range lo hi f = true -> lo <= f /\ f <= hi.
Proof.
  unfold in_range. intros H. apply andb_true_iff in H. destruct H as [H1 H2].
  apply Qle_bool_iff in H1, H2. auto.
Qed.

Lemma blend_length a prev y :
  length prev = length y -> length (blend a prev y) = length y.
Proof.
  intros H. unfold blend. rewrite length_map, length_combine, H. apply Nat.min_id.
Qed.

Lemma smoothing_history_length (p : option (list Q)) (y : list Q) :
  length (match p with
          | Some p => if (length p =? length y)%nat then p else y
          | None => y
          end) = length y.
Proof.
  destruct p as [p|]; [|reflexivity].
  destruct (Nat.eqb_spec (length p) (length y)); auto.
Qed.

(** What a plot handed over by [stitch] looks like. *)
Lemma stitch_plot st x y :
  In (Plot x y) (snd (stitch st)) ->
  length x = length y
  /\ (1 <= length x <= 1024)%nat
  /\ Forall (fun f => last_valid_sweep_start st <= f /\ f <= last_valid_sweep_end st) x
  /\ sweep_prev_linear (fst (stitch st)) = Some y.
Proof.
  unfold stitch.
  destruct (in_range_idx (freq_axis st) (last_valid_sweep_start st)
              (last_valid_sweep_end st)) as [|i0 idx0] eqn:Ei; [intros []|].
  set (idx := i0 :: idx0) in *.
  set (sel := decimate ((length idx + 1023) / 1024) idx).
  destruct (gather (sweep_buffer st) sel) as [y_lin|] eqn:Ey;
    [|intros [H|[]]; discriminate H].
  destruct (gather (freq_axis st) sel) as [x_hz|] eqn:Ex;
    [|intros [H|[]]; discriminate H].
  intros [H|[]]. injection H as <- <-.
  apply gather_map in Ey, Ex.
  assert (Hlen : length x_hz = length sel) by (rewrite Ex, length_map; reflexivity).
  assert (Hleny : length y_lin = length sel) by (rewrite Ey, length_map; reflexivity).
  repeat split.
  - rewrite blend_length by apply smoothing_history_length. congruence.
  - rewrite Hlen. apply (decimate_at_most_1024 idx). subst idx. discriminate.
  - rewrite Hlen. apply (decimate_at_most_1024 idx). subst idx. discriminate.
  - rewrite Ex. apply Forall_forall. intros f Hf.
    apply in_map_iff in Hf. destruct Hf as (i & <- & Hi).
    apply decimate_In in Hi. rewrite <- Ei in Hi.
    apply in_range_idx_In in Hi. apply in_range_bounds, Hi.
Qed.

Lemma accept_capture_plot st mags x y :
  In (Plot x y) (snd (accept_capture st mags)) ->
  length x = length y
  /\ (1 <= length x <= 1024)%nat
  /\ Forall (fun f => last_valid_sweep_start st <= f /\ f <= last_valid_sweep_end st) x
  /\ sweep_prev_linear (fst (accept_capture st mags)) = Some y.
Proof.
  unfold accept_capture.
  destruct (fft_size st); [intros [H|[]]; discriminate H|].
  destruct (write_segment _ _ _) as [buf|]; [|intros [H|[]]; discriminate H].
  intros H. apply stitch_plot in H. exact H.
Qed.

Lemma retry_or_skip_no_plot st x y : ~ In (Plot x y) (snd (retry_or_skip st)).
Proof.
  destruct (retry_or_skip_frame st) as (_ & _ & _ & _ & _ & [H|H]);
    rewrite H; [intros []|intros [E|[]]; discriminate E].
Qed.

(** X7.  Whatever [capture_fft] hands to the plot has one power value per
    frequency, between 1 and 1024 points, every frequency inside the
    recorded sweep range, and its powers are the new smoothing history. *)
Theorem capture_fft_plot_bounded :
  forall st inp x y,
    In (Plot x y) (snd (capture_fft st inp)) ->
    length x = length y
    /\ (1 <= length x <= 1024)%nat
    /\ Forall (fun f => last_valid_sweep_start st <= f /\ f <= last_valid_sweep_end st) x
    /\ sweep_prev_linear (fst (capture_fft st inp)) = Some y.
Proof.
  intros st inp x y. capture_cases st inp;
    try (intros H; exfalso; exact (retry_or_skip_no_plot st x y H));
    try (apply accept_capture_plot);
    intros H; cbn in H; intuition discriminate.
Qed.

Lemma capture_fft_plot_bounded_witness :
  let st := demo_state None in
  let r := capture_fft st (demo_input spike16) in
  match snd r with
  | [Plot x y] =>
      length x = length y
      /\ (1 <= length x <= 1024)%nat
      /\ Forall (fun f => last_valid_sweep_start st <= f /\ f <= last_valid_sweep_end st) x
      /\ sweep_prev_linear (fst r) = Some y
  | _ => False
  end.
Proof.
  cbv zeta.
  destruct (snd (capture_fft (demo_state None) (demo_input spike16)))
    as [|[ | | |x y] [|]] eqn:E; try (vm_compute in E; discriminate E).
  apply (capture_fft_plot_bounded (demo_state None) (demo_input spike16) x y).
  rewrite E. left. reflexivity.
Defined.

(** With a buffer as long as the axis, stitching cannot fail: it plots or
    finds nothing in range, and moves on to the next step either way. *)
Lemma stitch_advances st :
  (length (freq_axis st) <= length (sweep_buffer st))%nat ->
  existsb is_error (snd (stitch st)) = false
  /\ sweep_ptr (fst (stitch st)) = ((sweep_ptr st + 1) mod length (center_freqs st))%nat
  /\ cap_retries (fst (stitch st)) = 0%nat.
Proof.
  intros Hlen. unfold stitch.
  destruct (in_range_idx (freq_axis st) (last_valid_sweep_start st)
              (last_valid_sweep_end st)) as [|i0 idx0] eqn:Ei; [cbn; auto|].
  set (idx := i0 :: idx0) in *.
  set (sel := decimate ((length idx + 1023) / 1024) idx).
  assert (Hsel : Forall (fun i => (i < length (freq_axis st))%nat) sel).
  { apply Forall_forall. intros i Hi. apply decimate_In in Hi.
    rewrite <- Ei in Hi. apply in_range_idx_In in Hi. apply Hi. }
  destruct (gather_total (freq_axis st) sel Hsel) as [x_hz ->].
  destruct (gather_total (sweep_buffer st) sel) as [y_lin ->].
  { eapply Forall_impl; [|exact Hsel]. cbn. intros. lia. }
  cbn. auto.
Qed.

Lemma scale_mags_length n mags : length (scale_mags n mags) = length mags.
Proof. unfold scale_mags. apply length_map. Qed.

Lemma accept_capture_planned st mags :
  planned st -> length mags = fft_size st ->
  exists buf,
    length buf = (length (center_freqs st) * fft_size st)%nat
    /\ accept_capture st mags = stitch (set_buffer buf (set_last_fft (Some mags) st)).
Proof.
  intros (Hn & Hp & Hax) Hm. unfold accept_capture.
  set (expected := (length (center_freqs st) * fft_size st)%nat).
  set (buf0 := if (length (sweep_buffer st) =? expected)%nat
               then sweep_buffer st else zeros expected).
  assert (Hb0 : length buf0 = expected).
  { subst buf0. destruct (Nat.eqb_spec (length (sweep_buffer st)) expected); [assumption|].
    unfold zeros. apply repeat_length. }
  set (seg := dc_notch (fft_size st) (scale_mags (fft_size st) mags)).
  assert (Hseg : length seg = fft_size st).
  { subst seg. rewrite dc_notch_length, scale_mags_length. exact Hm. }
  assert (Hfit : (sweep_ptr st * fft_size st + length seg <= length buf0)%nat).
  { rewrite Hseg, Hb0. subst expected. nia. }
  rewrite (write_segment_fits _ _ _ Hfit).
  destruct (fft_size st) as [|n'] eqn:En; [lia|].
  eexists. split; [|reflexivity].
  rewrite !length_app, length_firstn, length_skipn. lia.
Qed.

Lemma capture_fft_fresh_ok st inp mags :
  planned st -> validated st inp mags -> fresh st mags ->
  existsb is_error (snd (capture_fft st inp)) = false
  /\ last_fft (fst (capture_fft st inp)) = Some mags
  /\ length (sweep_buffer (fst (capture_fft st inp)))
     = (length (center_freqs st) * fft_size st)%nat
  /\ sweep_ptr (fst (capture_fft st inp))
     = ((sweep_ptr st + 1) mod length (center_freqs st))%nat
  /\ cap_retries (fst (capture_fft st inp)) = 0%nat
  /\ sweep_busy (fst (capture_fft st inp)) = false.
Proof.
  intros Hplan Hval Hfresh.
  rewrite (capture_fft_validated st inp mags Hval).
  assert (Hm : length mags = fft_size st).
  { destruct Hval as (_ & _ & _ & _ & _ & _ & Hr). exact (read_mags_length _ _ _ Hr). }
  replace (match last_fft st with
           | Some prev => allclose mags prev
           | None => Some false
           end) with (Some false)
    by (destruct Hfresh as [-> | (prev & -> & ->)]; reflexivity).
  destruct (accept_capture_frame st mags) as (Hbusy & _ & Hlast).
  destruct (accept_capture_planned st mags Hplan Hm) as (buf & Hbuf & Hacc).
  destruct Hplan as (Hn & Hp & Hax).
  set (s1 := set_buffer buf (set_last_fft (Some mags) st)) in *.
  assert (Hl : (length (freq_axis s1) <= length (sweep_buffer s1))%nat).
  { subst s1. cbn [freq_axis sweep_buffer set_buffer set_last_fft]. lia. }
  destruct (stitch_advances s1 Hl) as (Herr & Hptr & Hret).
  pose proof (stitch_buffer s1) as Hsb.
  rewrite Hacc in *. rewrite Hsb.
  repeat split; assumption.
Qed.

(** X8.  On a planned sweep, a validated capture that differs from the last
    accepted one always goes through: no error is logged, the capture
    becomes the last accepted vector, the buffer keeps the size of the
    plan, the retry count is cleared and the pointer moves to the next step
    modulo the number of steps. *)
Theorem capture_fft_accepts_fresh :
  forall st inp mags,
    planned st -> validated st inp mags -> fresh st mags ->
    let r := capture_fft st inp in
    existsb is_error (snd r) = false
    /\ last_fft (fst r) = Some mags
    /\ length (sweep_buffer (fst r)) = (length (center_freqs st) * fft_size st)%nat
    /\ sweep_ptr (fst r) = ((sweep_ptr st + 1) mod length (center_freqs st))%nat
    /\ cap_retries (fst r) = 0%nat
    /\ sweep_busy (fst r) = false.
Proof.
  intros st inp mags Hplan Hval Hfresh. apply capture_fft_fresh_ok; assumption.
Qed.

Lemma demo_planned : planned (demo_state None).
Proof. unfold planned. cbn. repeat split; lia. Qed.

Lemma demo_fresh mags : fresh (demo_state None) mags.
Proof. left. reflexivity. Qed.

Lemma capture_fft_accepts_fresh_witness :
  let st := demo_state None in
  let r := capture_fft st (demo_input spike16) in
  existsb is_error (snd r) = false
  /\ last_fft (fst r) = Some spike16
  /\ length (sweep_buffer (fst r)) = (length (center_freqs st) * fft_size st)%nat
  /\ sweep_ptr (fst r) = ((sweep_ptr st + 1) mod length (center_freqs st))%nat
  /\ cap_retries (fst r) = 0%nat
  /\ sweep_busy (fst r) = false.
Proof.
  apply (capture_fft_accepts_fresh (demo_state None) (demo_input spike16) spike16
           demo_planned (demo_validated spike16 eq_refl) (demo_fresh spike16)).
Defined.

(** ** Stepping *)

Lemma update_sweep_freq_idle st tuned :
  idle st ->
  update_sweep_freq st tuned
  = (let ptr := if (length (center_freqs st) <=? sweep_ptr st)%nat
                then O else sweep_ptr st in
     let cf_hz := nth ptr (center_freqs st) 0 in
     let st1 := set_retries 0 (set_step (Some cf_hz) (set_ptr ptr (set_busy true st))) in
     (st1, if match tuned with
              | None => true
              | Some t => off_tune t cf_hz
              end
           then [SetCenterFreq cf_hz; Settle 85] else [Settle 85])).
Proof.
  intros (Hm & Ha & Hb & Hr & Hc). unfold update_sweep_freq.
  rewrite Hm, Ha, Hb, Hr. cbn [negb orb].
  destruct (center_freqs st) as [|c cs]; [congruence|].
  cbv zeta. destruct (match tuned with None => true | Some t => off_tune t _ end);
    reflexivity.
Qed.

(** X9.  On a running sweep that is not busy, [update_sweep_freq] takes the
    busy flag, clears the retry count, brings a pointer that ran past the
    plan back to the first step, records the centre frequency under the
    pointer as the step to capture, and schedules exactly one capture 85 ms
    later; it retunes only when the tuner cannot be read or is more than
    1 Hz away. *)
Theorem update_sweep_freq_arms_step :
  forall st tuned,
    idle st ->
    let r := update_sweep_freq st tuned in
    let ptr := sweep_ptr (fst r) in
    let cf := nth ptr (center_freqs st) 0 in
    sweep_busy (fst r) = true
    /\ cap_retries (fst r) = 0%nat
    /\ (ptr < length (center_freqs st))%nat
    /\ ((sweep_ptr st < length (center_freqs st))%nat -> ptr = sweep_ptr st)
    /\ ((length (center_freqs st) <= sweep_ptr st)%nat -> ptr = 0%nat)
    /\ step_freq_hz (fst r) = Some cf
    /\ center_freqs (fst r) = center_freqs st
    /\ ((exists t, tuned = Some t /\ Qabs (t - cf) <= 1) -> snd r = [Settle 85])
    /\ (~ (exists t, tuned = Some t /\ Qabs (t - cf) <= 1) ->
        snd r = [SetCenterFreq cf; Settle 85]).
Proof.
  intros st tuned Hidle. cbv zeta.
  rewrite (update_sweep_freq_idle st tuned Hidle). cbv zeta.
  cbn [fst snd sweep_busy cap_retries sweep_ptr step_freq_hz center_freqs
       set_retries set_step set_ptr set_busy].
  destruct Hidle as (_ & _ & _ & _ & Hc).
  assert (Hlen : (0 < length (center_freqs st))%nat)
    by (destruct (center_freqs st); [congruence|cbn; lia]).
  set (ptr := if (length (center_freqs st) <=? sweep_ptr st)%nat then O else sweep_ptr st).
  assert (Hptr : (ptr < length (center_freqs st))%nat
                 /\ ((sweep_ptr st < length (center_freqs st))%nat -> ptr = sweep_ptr st)
                 /\ ((length (center_freqs st) <= sweep_ptr st)%nat -> ptr = 0%nat)).
  { subst ptr. destruct (Nat.leb_spec (length (center_freqs st)) (sweep_ptr st));
      repeat split; intros; lia. }
  destruct Hptr as (H1 & H2 & H3).
  repeat split; try assumption.
  - intros (t & -> & Ht). rewrite (off_tune_false _ _ Ht). reflexivity.
  - intros Hno. destruct tuned as [t|]; [|reflexivity].
    destruct (off_tune t (nth ptr (center_freqs st) 0)) eqn:E; [reflexivity|].
    exfalso. apply Hno. exists t. split; [reflexivity|].
    unfold off_tune in E. apply Qltb_false in E. exact E.
Qed.

Lemma demo_idle : idle (set_busy false (demo_state None)).
Proof. unfold idle. cbn. repeat split; discriminate. Qed.

Lemma update_sweep_freq_arms_step_witness :
  let st := set_busy false (demo_state None) in
  let r := update_sweep_freq st (Some 90) in
  let ptr := sweep_ptr (fst r) in
  let cf := nth ptr (center_freqs st) 0 in
  sweep_busy (fst r) = true
  /\ cap_retries (fst r) = 0%nat
  /\ (ptr < length (center_freqs st))%nat
  /\ ((sweep_ptr st < length (center_freqs st))%nat -> ptr = sweep_ptr st)
  /\ ((length (center_freqs st) <= sweep_ptr st)%nat -> ptr = 0%nat)
  /\ step_freq_hz (fst r) = Some cf
  /\ center_freqs (fst r) = center_freqs st
  /\ ((exists t, Some 90 = Some t /\ Qabs (t - cf) <= 1) -> snd r = [Settle 85])
  /\ (~ (exists t, Some 90 = Some t /\ Qabs (t - cf) <= 1) ->
      snd r = [SetCenterFreq cf; Settle 85]).
Proof.
  apply (update_sweep_freq_arms_step (set_busy false (demo_state None)) (Some 90) demo_idle).
Defined.

(** X10.  A second timer tick before the capture has run does nothing: the
    step is neither advanced nor scheduled twice. *)
Theorem update_sweep_freq_no_double_step :
  forall st tuned1 tuned2,
    let st1 := fst (update_sweep_freq st tuned1) in
    update_sweep_freq st1 tuned2 = (st1, []).
Proof.
  intros st tuned1 tuned2. cbv zeta.
  destruct (negb (is_sweep_mode (mode st)) || negb (sweep_active st)
            || sweep_busy st || rebuilding st) eqn:G.
  - assert (E : update_sweep_freq st tuned1 = (st, []))
      by (unfold update_sweep_freq; rewrite G; reflexivity).
    rewrite E. cbn [fst]. unfold update_sweep_freq. rewrite G. reflexivity.
  - destruct (center_freqs st) as [|c cs] eqn:Ec.
    + assert (E : update_sweep_freq st tuned1 = (st, []))
        by (unfold update_sweep_freq; rewrite G, Ec; reflexivity).
      rewrite E. cbn [fst]. unfold update_sweep_freq. rewrite G, Ec. reflexivity.
    + assert (Hidle : idle st).
      { apply orb_false_iff in G. destruct G as [G G4].
        apply orb_false_iff in G. destruct G as [G G3].
        apply orb_false_iff in G. destruct G as [G1 G2].
        apply negb_false_iff in G1, G2.
        unfold idle. rewrite Ec. repeat split; try assumption. discriminate. }
      rewrite (update_sweep_freq_idle st tuned1 Hidle). cbv zeta. cbn [fst].
      unfold update_sweep_freq.
      cbn [mode sweep_active sweep_busy rebuilding set_retries set_step set_ptr set_busy].
      rewrite orb_true_r. reflexivity.
Qed.

(** X11.  One whole step of a planned, running sweep: when the timer tick
    is followed by a capture that passes validation at the step it armed
    and differs from the last accepted one, no error is logged, the
    pointer moves on by one step modulo the plan, and the sweep is left
    planned and waiting for the next tick. *)
Theorem step_and_capture_advances :
  forall st tuned inp mags,
    idle st -> planned st ->
    validated (fst (update_sweep_freq st tuned)) inp mags -> fresh st mags ->
    let r := step_and_capture st tuned inp in
    existsb is_error (snd r) = false
    /\ last_fft (fst r) = Some mags
    /\ sweep_ptr (fst r) = ((sweep_ptr st + 1) mod length (center_freqs st))%nat
    /\ idle (fst r) /\ planned (fst r).
Proof.
  intros st tuned inp mags Hidle Hplan Hval Hfresh. cbv zeta.
  unfold step_and_capture.
  pose proof (update_sweep_freq_idle st tuned Hidle) as Hup. cbv zeta in Hup.
  destruct Hplan as (Hn & Hp & Hax).
  replace (if (length (center_freqs st) <=? sweep_ptr st)%nat then O else sweep_ptr st)
    with (sweep_ptr st) in Hup
    by (destruct (Nat.leb_spec (length (center_freqs st)) (sweep_ptr st)); [lia|reflexivity]).
  set (st1 := fst (update_sweep_freq st tuned)) in *.
  assert (E1 : st1 = set_retries 0
                       (set_step (Some (nth (sweep_ptr st) (center_freqs st) 0))
                          (set_ptr (sweep_ptr st) (set_busy true st))))
    by (subst st1; rewrite Hup; reflexivity).
  assert (Hplan1 : planned st1) by (rewrite E1; unfold planned; cbn; auto).
  assert (Hfresh1 : fresh st1 mags) by (rewrite E1; exact Hfresh).
  destruct (capture_fft_fresh_ok st1 inp mags Hplan1 Hval Hfresh1)
    as (He & Hl & _ & Hptr & _ & Hb).
  destruct (capture_fft_frame st1 inp)
    as (_ & Hm & Ha & Hr & _ & Hf & _ & Hc & Hx & _).
  assert (F1 : mode st1 = mode st) by (rewrite E1; reflexivity).
  assert (F2 : sweep_active st1 = sweep_active st) by (rewrite E1; reflexivity).
  assert (F3 : rebuilding st1 = rebuilding st) by (rewrite E1; reflexivity).
  assert (F4 : fft_size st1 = fft_size st) by (rewrite E1; reflexivity).
  assert (F5 : center_freqs st1 = center_freqs st) by (rewrite E1; reflexivity).
  assert (F6 : freq_axis st1 = freq_axis st) by (rewrite E1; reflexivity).
  assert (F7 : sweep_ptr st1 = sweep_ptr st) by (rewrite E1; reflexivity).
  destruct Hidle as (Im & Ia & _ & Ir & Ic).
  rewrite F5, F7 in Hptr.
  unfold idle, planned.
  repeat split; try assumption; try congruence.
  rewrite Hptr, Hc, F5. apply Nat.mod_upper_bound. lia.
Qed.

Lemma demo_step_validated :
  validated (fst (update_sweep_freq (set_busy false (demo_state None)) (Some 108)))
            (demo_input spike16) spike16.
Proof.
  unfold validated. cbn [fst]. repeat split; try reflexivity; try discriminate.
  exists 108. repeat split.
  - intros t Ht. injection Ht as <-. vm_compute. discriminate.
  - exists 108. split; [reflexivity|]. vm_compute. discriminate.
Qed.

Lemma step_and_capture_advances_witness :
  let st := set_busy false (demo_state None) in
  let r := step_and_capture st (Some 108) (demo_input spike16) in
  existsb is_error (snd r) = false
  /\ last_fft (fst r) = Some spike16
  /\ sweep_ptr (fst r) = ((sweep_ptr st + 1) mod length (center_freqs st))%nat
  /\ idle (fst r) /\ planned (fst r).
Proof.
  apply (step_and_capture_advances (set_busy false (demo_state None)) (Some 108)
           (demo_input spike16) spike16 demo_idle demo_planned
           demo_step_validated (demo_fresh spike16)).
Defined.

(** ** The plot range *)

Lemma pymax_spec a b : a <= pymax a b /\ b <= pymax a b /\ (pymax a b == a \/ pymax a b == b).
Proof.
  unfold pymax. destruct (Qltb a b) eqn:E.
  - apply Qltb_true in E. repeat split; lra.
  - apply Qltb_false in E. repeat split; lra.
Qed.

(** X12.  For a recorded sweep range with [start < end], the limits handed
    to the plot pad both edges by one and the same margin of at least
    0.1 MHz, the widest allowed view is exactly the padded range, and the
    narrowest allowed view is positive and smaller than it. *)
Theorem update_sweep_xrange_padded :
  forall st,
    last_valid_sweep_start st < last_valid_sweep_end st ->
    let r := update_sweep_xrange st in
    let s := last_valid_sweep_start st / 1000000 in
    let e := last_valid_sweep_end st / 1000000 in
    x_lo r + 0.1 <= s
    /\ e + 0.1 <= x_hi r
    /\ s - x_lo r == x_hi r - e
    /\ max_x_range r == x_hi r - x_lo r
    /\ 0 < min_x_range r
    /\ min_x_range r < max_x_range r.
Proof.
  intros st H. cbv zeta. unfold update_sweep_xrange.
  cbn [x_lo x_hi min_x_range max_x_range].
  set (s := last_valid_sweep_start st) in *.
  set (e := last_valid_sweep_end st) in *.
  destruct (pymax_spec 100000 (0.005 * pymax 1 (e - s))) as (H1 & _ & _).
  set (eps := pymax 100000 (0.005 * pymax 1 (e - s))) in *.
  unfold Qdiv.
  assert (K : / 1000000 == 1 # 1000000) by reflexivity.
  rewrite !K.
  repeat split; lra.
Qed.

Lemma update_sweep_xrange_padded_witness :
  let st := initial_state 20000000 1024 in
  let r := update_sweep_xrange st in
  let s := last_valid_sweep_start st / 1000000 in
  let e := last_valid_sweep_end st / 1000000 in
  x_lo r + 0.1 <= s
  /\ e + 0.1 <= x_hi r
  /\ s - x_lo r == x_hi r - e
  /\ max_x_range r == x_hi r - x_lo r
  /\ 0 < min_x_range r
  /\ min_x_range r < max_x_range r.
Proof.
  apply (update_sweep_xrange_padded (initial_state 20000000 1024)).
  vm_compute. reflexivity.
Defined.

End SweepInvariants.

(* ================================================================== *)
(** * Frequency mode: disjoint ranges and the port lookup *)
(* ================================================================== *)

Module FrequencyLookup.

Import Policy FrequencyMode SweepPlan PolicyValidation.
Local Open Scope Q_scope.










(** ** The lookup *)

Lemma select_port_sound inputs f p :
  select_port inputs f = Some p ->
  exists lo hi, In (p, Bounds lo hi) inputs /\ lo <= f /\ f <= hi.
Proof.
  induction inputs as [|[port [|lo hi]] rest IH]; cbn; intros H.
  - discriminate H.
  - destruct (IH H) as (lo & hi & Hin & Hb). exists lo, hi. auto.
  - destruct (Qle_bool lo f && Qle_bool f hi) eqn:E.
    + injection H as <-. apply andb_true_iff in E. destruct E as [E1 E2].
      apply Qle_bool_iff in E1, E2. exists lo, hi. auto.
    + destruct (IH H) as (lo' & hi' & Hin & Hb). exists lo', hi'. auto.
Qed.

Lemma select_port_complete inputs f p lo hi :
  In (p, Bounds lo hi) inputs -> lo <= f -> f <= hi ->
  exists q, select_port inputs f = Some q.
Proof.
  intros Hin H1 H2.
  induction inputs as [|[port [|lo' hi']] rest IH]; cbn.
  - destruct Hin.
  - destruct Hin as [E|Hin]; [discriminate E|]. auto.
  - destruct (Qle_bool lo' f && Qle_bool f hi') eqn:E; [eexists; reflexivity|].
    destruct Hin as [Heq|Hin]; [|auto].
    injection Heq as -> -> ->.
    apply andb_false_iff in E.
    destruct E as [E|E]; apply Qle_bool_false in E; lra.
Qed.






(** X15.  The lookup never invents a port: it answers with a port only
    when that port's own range holds the frequency, and it answers nothing
    exactly when no field's range does. *)
Theorem select_port_sound_and_complete :
  forall inputs f,
    (forall p, select_port inputs f = Some p ->
               exists lo hi, In (p, Bounds lo hi) inputs /\ lo <= f /\ f <= hi)
    /\ (select_port inputs f = None <->
        forall p lo hi, In (p, Bounds lo hi) inputs -> ~ (lo <= f /\ f <= hi)).
Proof.
  intros inputs f. split; [intros p; apply select_port_sound|]. split.
  - intros Hn p lo hi Hin [H1 H2].
    destruct (select_port_complete _ f p lo hi Hin H1 H2) as [q Hq]. congruence.
  - intros Hno. destruct (select_port inputs f) as [p|] eqn:E; [|reflexivity].
    destruct (select_port_sound _ _ _ E) as (lo & hi & Hin & Hb).
    exfalso. exact (Hno p lo hi Hin Hb).
Qed.

(** ** [auto_switch_port_if_needed] *)





Lemma update_antenna_changes val t1 t2 w :
  Detector.antenna_select (fst (Detector.update_antenna val t1 t2 w))
  <> Detector.antenna_select w ->
  Detector.antenna_select (fst (Detector.update_antenna val t1 t2 w))
  = Detector.requested_port w val
  /\ Detector.mem (Detector.requested_port w val) Detector.valid = true.
Proof.
  unfold Detector.update_antenna.
  destruct (Detector.mem (Detector.requested_port w val) Detector.valid).
  - destruct (Detector.is_jamming (Detector.mode w)); cbn; auto.
  - destruct (Detector.antenna_edit w); cbn; intros H; congruence.
Qed.

(** X17.  [auto_switch_port_if_needed] changes the selection only to a
    port of the form whose own range holds the centre frequency; on a
    rejected table it changes nothing at all and only shows the error
    label. *)
Theorem auto_switch_only_to_matching_port :
  forall inputs cf t1 t2 w,
    let r := auto_switch_port_if_needed inputs cf t1 t2 w in
    (validate_port_ranges inputs = false ->
     r = (w, [Detector.Notice "port_error_label"], Abort))
    /\ (Detector.antenna_select (fst (fst r)) <> Detector.antenna_select w ->
        exists p lo hi,
          In (p, Bounds lo hi) inputs
          /\ lo <= cf / 1000000 /\ cf / 1000000 <= hi
          /\ snd r = Switching p
          /\ Detector.antenna_select (fst (fst r)) = Detector.upper (Detector.strip p)
          /\ Detector.mem (Detector.upper (Detector.strip p)) Detector.valid = true).
Proof.
  intros inputs cf t1 t2 w. cbv zeta. unfold auto_switch_port_if_needed. split.
  - intros ->. reflexivity.
  - destruct (validate_port_ranges inputs); cbn [negb fst snd]; [|congruence].
    destruct (select_port inputs (cf / 1000000)) as [p|] eqn:Es;
      cbn [fst snd]; [|congruence].
    destruct (String.eqb p EmptyString); cbn [fst snd]; [congruence|].
    destruct (negb (String.eqb p (Detector.antenna_select w))); cbn [fst snd];
      [|congruence].
    pose proof (update_antenna_changes (Some p) t1 t2 w) as Hch.
    destruct (Detector.update_antenna (Some p) t1 t2 w) as [w' evs].
    cbn [fst snd] in *. intros Hne. destruct (Hch Hne) as [Hs Hm].
    destruct (select_port_sound _ _ _ Es) as (lo & hi & Hin & H1 & H2).
    exists p, lo, hi. repeat split; assumption.
Qed.

End FrequencyLookup.

(* ================================================================== *)
(** * Time mode: properties of the schedule *)
(* ================================================================== *)

Module TimeSchedule.

Import TimeMode SweepPlan.
Local Open Scope Q_scope.



Lemma valid_rows_In rows port dur :
  In (port, dur) (valid_rows rows)
  <-> In (port, Some dur) rows /\ port <> EmptyString /\ 0 < dur.
Proof.
  induction rows as [|[p [d|]] rest IH]; cbn.
  - tauto.
  - destruct (String.eqb_spec p EmptyString) as [E|E]; cbn [negb andb].
    + rewrite IH. split; [tauto|]. intros [[H|H] [H1 H2]]; [|tauto].
      injection H as -> ->. contradiction.
    + destruct (Sweep.Qltb 0 d) eqn:E2.
      * apply Qltb_true in E2. cbn [In]. rewrite IH. split.
        -- intros [H|H]; [injection H as -> ->; tauto|tauto].
        -- intros [[H|H] [H1 H2]]; [left; congruence|tauto].
      * apply Qltb_false in E2. rewrite IH. split; [tauto|].
        intros [[H|H] [H1 H2]]; [|tauto]. injection H as -> ->. lra.
  - rewrite IH. split; [tauto|]. intros [[H|H] H']; [discriminate H|tauto].
Qed.

(** X18.  [refresh_time_config] keeps exactly the rows with a port and a
    duration above zero.  When none is left it empties the table, stops the
    timer and the flowgraph, unchecks Start and answers [False]; otherwise
    it answers [True], commands nothing, and leaves the row index inside
    the table. *)
Theorem refresh_time_config_result :
  forall st rows,
    let r := refresh_time_config st rows in
    let st' := fst (fst r) in
    (forall port dur,
        In (port, dur) (time_config st')
        <-> In (port, Some dur) rows /\ port <> EmptyString /\ 0 < dur)
    /\ (snd r = true ->
        (last_time_index st' < length (time_config st'))%nat
        /\ snd (fst r) = []
        /\ toggle_checked st' = toggle_checked st)
    /\ (snd r = false ->
        time_config st' = []
        /\ snd (fst r) = [TimerStop; StopFlowgraph]
        /\ toggle_checked st' = false)
    /\ per_port_elapsed st' = per_port_elapsed st
    /\ timer_start_time st' = timer_start_time st.
Proof.
  intros st rows. cbv zeta. unfold refresh_time_config.
  pose proof (valid_rows_In rows) as Hin.
  destruct (valid_rows rows) as [|pd cfg] eqn:E; cbn [fst snd time_config
    last_time_index per_port_elapsed timer_start_time toggle_checked].
  - split; [exact Hin|]. repeat split; discriminate.
  - split; [exact Hin|]. repeat split; try discriminate.
    destruct (Nat.leb_spec (length (pd :: cfg)) (last_time_index st)); cbn in *; lia.
Qed.

(** ** The search for the next row *)










(** ** Round robin *)






Lemma next_slot_row fuel cfg :
  forall idx el port rem idx' el',
    next_slot fuel cfg idx el = Some (Some (port, rem), idx', el') ->
    exists dur, nth_error cfg idx' = Some (port, dur).
Proof.
  induction fuel as [|fuel IH]; intros idx el port rem idx' el' H; cbn [next_slot] in H.
  - discriminate H.
  - destruct (nth_error cfg idx) as [[p d]|] eqn:E; [|discriminate H].
    destruct (Sweep.Qltb 0 _).
    + injection H as <- _ <- _. exists d. exact E.
    + exact (IH _ _ _ _ _ _ H).
Qed.

(** X21.  [perform_time_switch] never changes the table and only ever
    switches to a port that is in it; on an empty table it switches to
    nothing, stops the timer and the flowgraph and unchecks Start. *)
Theorem perform_time_switch_only_table_ports :
  forall st now now' st' cmds,
    perform_time_switch st now now' = Some (st', cmds) ->
    time_config st' = time_config st
    /\ (forall p, In (UpdateAntenna p) cmds -> exists dur, In (p, dur) (time_config st))
    /\ (time_config st = [] ->
        cmds = [TimerStop; StopFlowgraph] /\ toggle_checked st' = false).
Proof.
  intros st now now' st' cmds. unfold perform_time_switch.
  destruct (time_config st) as [|pd0 cfg0] eqn:Ec.
  - intros H. injection H as <- <-. cbn.
    split; [reflexivity|]. split; [|auto].
    intros q [Hq|[Hq|[]]]; discriminate Hq.
  - rewrite <- Ec. destruct (account st now) as [el|]; [|discriminate].
    destruct (next_slot _ _ _ el) as [[[[[port rem]|] idx] el']|] eqn:En; [| |discriminate].
    + intros H. injection H as <- <-. cbn [time_config].
      destruct (next_slot_row _ _ _ _ _ _ _ _ En) as [dur Hrow].
      split; [reflexivity|]. split; [|rewrite Ec; discriminate].
      intros q [Hq|[Hq|[]]]; [|discriminate Hq]. injection Hq as <-.
      exists dur. exact (nth_error_In _ _ Hrow).
    + destruct (nth_error (time_config st) idx) as [[port dur]|] eqn:Hrow; [|discriminate].
      intros H. injection H as <- <-. cbn [time_config].
      split; [reflexivity|]. split; [|rewrite Ec; discriminate].
      intros q [Hq|[Hq|[]]]; [|discriminate Hq]. injection Hq as <-.
      exists dur. exact (nth_error_In _ _ Hrow).
Qed.

Lemma perform_time_switch_only_table_ports_witness :
  let r := perform_time_switch demo_schedule 12 12 in
  match r with
  | Some (st', cmds) =>
      time_config st' = time_config demo_schedule
      /\ (forall p, In (UpdateAntenna p) cmds ->
                    exists dur, In (p, dur) (time_config demo_schedule))
      /\ (time_config demo_schedule = [] ->
          cmds = [TimerStop; StopFlowgraph] /\ toggle_checked st' = false)
  | None => False
  end.
Proof.
  cbv zeta.
  destruct (perform_time_switch demo_schedule 12 12) as [[st' cmds]|] eqn:E;
    [|vm_compute in E; discriminate E].
  exact (perform_time_switch_only_table_ports demo_schedule 12 12 st' cmds E).
Defined.

(** ** The wholesale reset is out of reach while the timer runs *)





End TimeSchedule.

(* ================================================================== *)
(** * DSP utilities: properties of the peak picker and of the taper *)
(* ================================================================== *)

Module DspProps.

Import Dsp SweepPlan.
Local Open Scope Q_scope.

(** ** Building blocks of the peak picker *)

Lemma argmax_from_bound l : forall i best_i best,
  (best_i < i)%nat -> (argmax_from l i best_i best < i + length l)%nat.
Proof.
  induction l as [|x l IH]; intros i bi b H; cbn [argmax_from length].
  - lia.
  - destruct (Sweep.Qltb b x).
    + specialize (IH (S i) i x ltac:(lia)). lia.
    + specialize (IH (S i) bi b ltac:(lia)). lia.
Qed.

Lemma argmax_bound l i : argmax l = Some i -> (i < length l)%nat.
Proof.
  destruct l as [|x l]; cbn [argmax]; [discriminate|].
  intros H. injection H as <-.
  pose proof (argmax_from_bound l 1 0 x ltac:(lia)). cbn [length]. lia.
Qed.

Lemma masked_db_length used db :
  length used = length db -> length (masked_db used db) = length db.
Proof.
  intros H. unfold masked_db. rewrite length_map, length_combine, H. apply Nat.min_id.
Qed.

Lemma combine_nth_in {A B} (l1 : list A) (l2 : list B) i d1 d2 :
  length l1 = length l2 -> nth i (combine l1 l2) (d1, d2) = (nth i l1 d1, nth i l2 d2).
Proof. intros H. apply combine_nth. exact H. Qed.

Lemma masked_db_nth used db i :
  length used = length db -> (i < length db)%nat ->
  nth i (masked_db used db) 0
  = if nth i used false then - 1000000000 else nth i db 0.
Proof.
  intros Hl Hi. unfold masked_db.
  rewrite (SweepCapture.nth_map_in _ _ _ _ (false, 0))
    by (rewrite length_combine, Hl, Nat.min_id; exact Hi).
  rewrite combine_nth by exact Hl. reflexivity.
Qed.

Lemma mark_length a b used : length (mark a b used) = length used.
Proof.
  unfold mark. rewrite length_map, length_combine, length_seq. apply Nat.min_id.
Qed.

Lemma mark_nth a b used k :
  (k < length used)%nat ->
  nth k (mark a b used) false = ((a <=? k) && (k <? b))%nat || nth k used false.
Proof.
  intros Hk. unfold mark.
  rewrite (SweepCapture.nth_map_in _ _ _ _ (O, false))
    by (rewrite length_combine, length_seq, Nat.min_id; exact Hk).
  rewrite combine_nth by (rewrite length_seq; reflexivity).
  rewrite seq_nth by exact Hk. reflexivity.
Qed.

Lemma pairs_snoc {A} (R : A -> A -> Prop) (l : list A) (x : A) :
  ForallOrdPairs R l -> Forall (fun p => R p x) l -> ForallOrdPairs R (l ++ [x]).
Proof.
  induction 1 as [|a l Ha Hl IH]; intros Hx; cbn.
  - constructor; constructor.
  - inversion Hx as [|? ? Hax Hlx]; subst.
    constructor; [|apply IH, Hlx].
    apply Forall_app. split; [exact Ha|constructor; [exact Hax|constructor]].
Qed.

Lemma pairs_perm {A} (R : A -> A -> Prop) (l l' : list A) :
  (forall a b, R a b -> R b a) ->
  Permutation l l' -> ForallOrdPairs R l -> ForallOrdPairs R l'.
Proof.
  intros Hsym.
  induction 1 as [|x l l' Hp IH|x y l|l l' l'' _ IH1 _ IH2]; intros H.
  - constructor.
  - inversion H as [|? ? Hx Hl]; subst. constructor; [|apply IH, Hl].
    eapply Permutation_Forall; eassumption.
  - inversion H as [|? ? Hy Hl]; subst. inversion Hl as [|? ? Hx Hl']; subst.
    inversion Hy as [|? ? Hyx Hy']; subst.
    constructor; [constructor; [apply Hsym, Hyx|exact Hx]|].
    constructor; assumption.
  - auto.
Qed.

(** ** [sorted] *)

Lemma insert_index_perm x l : Permutation (insert_index x l) (x :: l).
Proof.
  induction l as [|y l IH]; cbn; [reflexivity|].
  destruct (x <=? y)%nat; [reflexivity|].
  rewrite IH. apply perm_swap.
Qed.

Lemma sorted_perm l : Permutation (sorted l) l.
Proof.
  induction l as [|x l IH]; cbn; [reflexivity|].
  rewrite insert_index_perm. constructor. exact IH.
Qed.

Lemma insert_index_sorted x l :
  StronglySorted le l -> StronglySorted le (insert_index x l).
Proof.
  induction 1 as [|y l Hs IH Hall]; cbn [insert_index].
  - constructor; constructor.
  - destruct (Nat.leb_spec x y).
    + constructor; [constructor; assumption|].
      constructor; [assumption|].
      eapply Forall_impl; [|exact Hall]. cbn. intros. lia.
    + constructor; [exact IH|].
      eapply Permutation_Forall; [apply Permutation_sym, insert_index_perm|].
      constructor; [lia|exact Hall].
Qed.

Lemma sorted_ascending l : StronglySorted le (sorted l).
Proof.
  induction l as [|x l IH]; cbn; [constructor|].
  apply insert_index_sorted, IH.
Qed.

Lemma far_sym sep a b : far sep a b -> far sep b a.
Proof. unfold far. tauto. Qed.

Lemma ascending_far sep l :
  StronglySorted le l -> ForallOrdPairs (far sep) l ->
  StronglySorted (fun a b => (a + sep < b)%nat) l.
Proof.
  induction 1 as [|a l Hs IH Hall]; intros Hp; [constructor|].
  inversion Hp as [|? ? Hfar Hp']; subst.
  constructor; [apply IH, Hp'|].
  rewrite Forall_forall in *. intros x Hx.
  specialize (Hall x Hx). destruct (Hfar x Hx); lia.
Qed.

(** ** The loop *)

Lemma pick_peaks_inv sep db : forall n used peaks res,
  length used = length db ->
  ForallOrdPairs (far sep) peaks ->
  (forall p, In p peaks ->
     (p < length db)%nat /\ - 100000000 < nth p db 0
     /\ forall k, (k < length db)%nat -> (p - sep <= k)%nat -> (k <= p + sep)%nat ->
                  nth k used false = true) ->
  pick_peaks n sep db used peaks = Some res ->
  ForallOrdPairs (far sep) res
  /\ (forall p, In p res -> (p < length db)%nat /\ - 100000000 < nth p db 0)
  /\ (length res <= length peaks + n)%nat
  /\ incl peaks res.
Proof.
  induction n as [|n IH]; intros used peaks res Hlen Hpairs Hinv H; cbn [pick_peaks] in H.
  - injection H as <-. split; [exact Hpairs|];
      split; [intros p Hp; destruct (Hinv p Hp) as (H1 & H2 & _); auto|];
      split; [lia|apply incl_refl].
  - destruct (argmax (masked_db used db)) as [i|] eqn:Ea; [|discriminate H].
    pose proof (argmax_bound _ _ Ea) as Hi. rewrite masked_db_length in Hi by exact Hlen.
    rewrite (masked_db_nth used db i Hlen Hi) in H.
    destruct (nth i used false) eqn:Eu.
    { replace (Qle_bool (- 1000000000) (- 100000000)) with true in H by reflexivity.
      injection H as <-. split; [exact Hpairs|];
      split; [intros p Hp; destruct (Hinv p Hp) as (H1 & H2 & _); auto|];
      split; [lia|apply incl_refl]. }
    destruct (Qle_bool (nth i db 0) (- 100000000)) eqn:Ev.
    { injection H as <-. split; [exact Hpairs|];
      split; [intros p Hp; destruct (Hinv p Hp) as (H1 & H2 & _); auto|];
      split; [lia|apply incl_refl]. }
    apply Qle_bool_false in Ev.
    apply IH in H.
    + destruct H as (R1 & R2 & R3 & R4).
      split; [exact R1|]. split; [exact R2|]. split.
      * rewrite length_app in R3. cbn in R3. lia.
      * intros p Hp. apply R4, in_or_app. left. exact Hp.
    + rewrite mark_length. exact Hlen.
    + apply pairs_snoc; [exact Hpairs|].
      apply Forall_forall. intros p Hp.
      destruct (Hinv p Hp) as (_ & _ & Hwin).
      unfold far.
      destruct (Nat.le_gt_cases (p - sep) i) as [L|L];
        [destruct (Nat.le_gt_cases i (p + sep)) as [U|U]|]; try lia.
      rewrite (Hwin i Hi L U) in Eu. discriminate Eu.
    + intros p Hp. apply in_app_or in Hp.
      destruct Hp as [Hp|[<-|[]]].
      * destruct (Hinv p Hp) as (H1 & H2 & Hwin).
        split; [exact H1|]. split; [exact H2|].
        intros k Hk L U. rewrite mark_nth by (rewrite Hlen; exact Hk).
        rewrite (Hwin k Hk L U). apply orb_true_r.
      * split; [exact Hi|]. split; [exact Ev|].
        intros k Hk L U. rewrite mark_nth by (rewrite Hlen; exact Hk).
        apply orb_true_iff. left. apply andb_true_iff. split.
        -- apply Nat.leb_le. exact L.
        -- apply Nat.ltb_lt. lia.
Qed.

Lemma find_peaks_spec db n sep peaks :
  find_peaks db n sep = Some peaks ->
  (length peaks <= n)%nat
  /\ (forall p, In p peaks -> (p < length db)%nat /\ - 100000000 < nth p db 0)
  /\ StronglySorted (fun a b => (a + sep < b)%nat) peaks.
Proof.
  unfold find_peaks.
  destruct (pick_peaks n sep db (repeat false (length db)) []) as [res|] eqn:E;
    [|discriminate].
  intros H. injection H as <-.
  apply pick_peaks_inv in E;
    [|apply repeat_length|constructor|intros p []].
  destruct E as (R1 & R2 & R3 & _).
  pose proof (sorted_perm res) as Hperm.
  split; [|split].
  - rewrite (Permutation_length Hperm). cbn in R3. exact R3.
  - intros p Hp. apply R2. eapply Permutation_in; eassumption.
  - apply ascending_far; [apply sorted_ascending|].
    apply (pairs_perm (far sep) res); [apply far_sym|apply Permutation_sym, Hperm|exact R1].
Qed.

(** X23.  The peaks [_find_peaks] reports are at most [n] bins of the
    trace, each above -1e8, listed in rising order with more than
    [min_sep_bins] bins between one and the next. *)
Theorem find_peaks_separated :
  forall db n min_sep_bins peaks,
    find_peaks db n min_sep_bins = Some peaks ->
    (length peaks <= n)%nat
    /\ (forall p, In p peaks -> (p < length db)%nat /\ - 100000000 < nth p db 0)
    /\ StronglySorted (fun a b => (a + min_sep_bins < b)%nat) peaks.
Proof.
  intros db n sep peaks. apply find_peaks_spec.
Qed.

Lemma find_peaks_separated_witness :
  match find_peaks humps 5 8 with
  | Some peaks =>
      (length peaks <= 5)%nat
      /\ (forall p, In p peaks -> (p < length humps)%nat /\ - 100000000 < nth p humps 0)
      /\ StronglySorted (fun a b => (a + 8 < b)%nat) peaks
  | None => False
  end.
Proof.
  destruct (find_peaks humps 5 8) as [peaks|] eqn:E; [|vm_compute in E; discriminate E].
  exact (find_peaks_separated humps 5 8 peaks E).
Defined.

Lemma masked_db_fresh db : masked_db (repeat false (length db)) db = db.
Proof.
  unfold masked_db. induction db as [|x db IH]; [reflexivity|].
  cbn. f_equal. exact IH.
Qed.

Lemma pick_peaks_some sep db : forall n used peaks,
  db <> [] -> length used = length db ->
  exists res, pick_peaks n sep db used peaks = Some res.
Proof.
  induction n as [|n IH]; intros used peaks Hdb Hlen; cbn [pick_peaks].
  - eexists; reflexivity.
  - pose proof (masked_db_length used db Hlen) as Hm.
    destruct (masked_db used db) as [|x m] eqn:Em.
    + destruct db; [congruence|discriminate Hm].
    + cbn [argmax]. destruct (Qle_bool _ _); [eexists; reflexivity|].
      apply IH; [exact Hdb|]. rewrite mark_length. exact Hlen.
Qed.

Lemma pick_peaks_incl sep db : forall n used peaks res,
  pick_peaks n sep db used peaks = Some res -> incl peaks res.
Proof.
  induction n as [|n IH]; intros used peaks res; cbn [pick_peaks].
  - intros H. injection H as <-. apply incl_refl.
  - destruct (argmax (masked_db used db)) as [j|]; [|discriminate].
    destruct (Qle_bool _ _); [intros H; injection H as <-; apply incl_refl|].
    intros H. apply IH in H. intros p Hp. apply H, in_or_app. left. exact Hp.
Qed.

(** X24.  [_find_peaks] fails only on an empty trace with at least one
    peak asked for; otherwise, when the largest value of the trace is above
    -1e8 and one peak or more is asked for, the first bin that holds it is
    among the peaks reported. *)
Theorem find_peaks_reports_maximum :
  forall db n min_sep_bins,
    (find_peaks db n min_sep_bins = None <-> db = [] /\ (0 < n)%nat)
    /\ (forall i peaks,
           (0 < n)%nat -> argmax db = Some i -> - 100000000 < nth i db 0 ->
           find_peaks db n min_sep_bins = Some peaks -> In i peaks).
Proof.
  intros db n sep. split.
  - split.
    + intros H. unfold find_peaks in H.
      destruct db as [|x db].
      * split; [reflexivity|]. destruct n; [discriminate H|lia].
      * destruct (pick_peaks_some sep (x :: db) n (repeat false (length (x :: db))) [])
          as [res E]; [discriminate|apply repeat_length|].
        rewrite E in H. discriminate H.
    + intros [-> Hn]. destruct n; [lia|]. reflexivity.
  - intros i peaks Hn Ha Hv H. unfold find_peaks in H.
    destruct (pick_peaks n sep db (repeat false (length db)) []) as [res|] eqn:E;
      [|discriminate H].
    injection H as <-.
    apply (Permutation_in _ (Permutation_sym (sorted_perm res))).
    destruct n as [|n]; [lia|]. cbn [pick_peaks] in E.
    rewrite masked_db_fresh, Ha in E.
    destruct (Qle_bool (nth i db 0) (- 100000000)) eqn:Ev;
      [apply Qle_bool_iff in Ev; lra|].
    apply pick_peaks_incl in E. apply E. left. reflexivity.
Qed.

Lemma find_peaks_reports_maximum_witness :
  exists peaks, find_peaks humps 5 8 = Some peaks /\ In 8%nat peaks.
Proof.
  destruct (find_peaks humps 5 8) as [peaks|] eqn:E; [|vm_compute in E; discriminate E].
  exists peaks. split; [reflexivity|].
  apply (proj2 (find_peaks_reports_maximum humps 5 8) 8%nat peaks);
    [lia|vm_compute; reflexivity|vm_compute; reflexivity|exact E].
Defined.

(** ** The taper *)

Lemma py_index_in l i :
  (0 <= i < Z.of_nat (length l))%Z -> py_index l i = Some (nth (Z.to_nat i) l 0).
Proof.
  intros [H1 H2]. unfold py_index.
  destruct (Z.leb_spec 0 i); [|lia].
  apply nth_error_nth'. lia.
Qed.

Lemma scale_head_length w l :
  (length w <= length l)%nat -> length (scale_head w l) = length l.
Proof.
  intros H. unfold scale_head.
  rewrite length_app, length_map, length_combine, length_firstn, length_skipn. lia.
Qed.

Lemma scale_tail_length w l :
  (length w <= length l)%nat -> length (scale_tail w l) = length l.
Proof.
  intros H. unfold scale_tail.
  rewrite length_app, length_map, length_combine, length_firstn, length_skipn. lia.
Qed.

Lemma scale_head_nth w l i :
  (length w <= length l)%nat ->
  nth i (scale_head w l) 0
  = if (i <? length w)%nat then nth i l 0 * nth i w 0 else nth i l 0.
Proof.
  intros H. unfold scale_head.
  assert (Hc : length (combine (firstn (length w) l) w) = length w)
    by (rewrite length_combine, length_firstn; lia).
  destruct (Nat.ltb_spec i (length w)) as [Hi|Hi].
  - rewrite app_nth1 by (rewrite length_map, Hc; exact Hi).
    rewrite (SweepCapture.nth_map_in _ _ _ _ (0, 0)) by (rewrite Hc; exact Hi).
    rewrite combine_nth by (rewrite length_firstn; lia).
    cbn [fst snd]. rewrite nth_firstn.
    destruct (Nat.ltb_spec i (length w)); [reflexivity|lia].
  - rewrite app_nth2 by (rewrite length_map, Hc; exact Hi).
    rewrite length_map, Hc, nth_skipn. f_equal. lia.
Qed.

Lemma scale_tail_nth w l i :
  (length w <= length l)%nat ->
  nth i (scale_tail w l) 0
  = if (i <? length l - length w)%nat then nth i l 0
    else nth i l 0 * nth (i - (length l - length w)) w 0.
Proof.
  intros H. unfold scale_tail.
  set (k := (length l - length w)%nat).
  assert (Hf : length (firstn k l) = k) by (rewrite length_firstn; lia).
  assert (Hc : length (combine (skipn k l) w) = length w)
    by (rewrite length_combine, length_skipn; lia).
  destruct (Nat.ltb_spec i k) as [Hi|Hi].
  - rewrite app_nth1 by (rewrite Hf; exact Hi).
    rewrite nth_firstn. destruct (Nat.ltb_spec i k); [reflexivity|lia].
  - rewrite app_nth2 by (rewrite Hf; exact Hi). rewrite Hf.
    destruct (Nat.lt_ge_cases (i - k) (length w)) as [Hj|Hj].
    + rewrite (SweepCapture.nth_map_in _ _ _ _ (0, 0)) by (rewrite Hc; exact Hj).
      rewrite combine_nth by (rewrite length_skipn; lia).
      cbn [fst snd]. rewrite nth_skipn. do 2 f_equal. lia.
    + rewrite (nth_overflow (map _ _)) by (rewrite length_map, Hc; exact Hj).
      rewrite (nth_overflow l) by lia.
      rewrite (nth_overflow w) by exact Hj. reflexivity.
Qed.

Lemma half_bounds n : (10 <= n)%nat -> (5 <= n / 2)%nat /\ (n / 2 + 5 <= n)%nat.
Proof.
  intros H. pose proof (Nat.div_mod_eq n 2) as E.
  pose proof (Nat.mod_upper_bound n 2 ltac:(lia)). lia.
Qed.

Lemma process_fft_data_long mags :
  (10 <= length mags)%nat ->
  process_fft_data mags
  = let c := (length mags / 2)%nat in
    Some (scale_tail (Sweep.linspace_closed 1.0 0.3 10)
            (scale_head (Sweep.linspace_closed 0.3 1.0 10)
               (Sweep.fill (c - 2) (c + 3)
                  (Sweep.mean [nth (c - 4) mags 0; nth (c - 3) mags 0;
                               nth (c + 3) mags 0; nth (c + 4) mags 0]) mags))).
Proof.
  intros Hn. destruct (half_bounds _ Hn) as [H5 Hc].
  unfold process_fft_data. cbv zeta.
  set (c := (length mags / 2)%nat) in *.
  destruct (Nat.leb_spec 3 c); [|lia].
  rewrite !py_index_in by lia.
  replace (Z.to_nat (Z.of_nat c - 4)) with (c - 4)%nat by lia.
  replace (Z.to_nat (Z.of_nat c - 3)) with (c - 3)%nat by lia.
  replace (Z.to_nat (Z.of_nat c + 3)) with (c + 3)%nat by lia.
  replace (Z.to_nat (Z.of_nat c + 4)) with (c + 4)%nat by lia.
  destruct (Nat.ltb_spec (length mags) 10); [lia|]. reflexivity.
Qed.

(** X25.  [process_fft_data] raises exactly on vectors of fewer than ten
    bins, and otherwise returns a vector of the same length. *)
Theorem process_fft_data_defined_iff :
  forall mags,
    (process_fft_data mags = None <-> (length mags < 10)%nat)
    /\ (forall out, process_fft_data mags = Some out -> length out = length mags).
Proof.
  intros mags.
  destruct (Nat.lt_ge_cases (length mags) 10) as [Hs|Hl].
  - assert (E : process_fft_data mags = None).
    { unfold process_fft_data. cbv zeta.
      destruct (Nat.ltb_spec (length mags) 10) as [_|]; [|lia].
      destruct (if (3 <=? length mags / 2)%nat then _ else _); reflexivity. }
    rewrite E. split; [tauto|discriminate].
  - rewrite (process_fft_data_long mags Hl). cbv zeta. split.
    + split; [discriminate|lia].
    + intros out H. injection H as <-.
      assert (L1 : length (Sweep.linspace_closed 0.3 1.0 10) = 10%nat) by reflexivity.
      assert (L2 : length (Sweep.linspace_closed 1.0 0.3 10) = 10%nat) by reflexivity.
      rewrite scale_tail_length;
        rewrite scale_head_length; rewrite ?SweepCapture.fill_length;
        cbn [length]; lia.
Qed.

Lemma some_eq {A} (a b : A) : Some a = Some b -> a = b.
Proof. congruence. Qed.

Lemma process_fft_data_nth mags out i :
  (25 <= length mags)%nat ->
  process_fft_data mags = Some out ->
  (i < length mags)%nat ->
  let n := length mags in
  let c := (n / 2)%nat in
  let notched :=
    if ((c - 2 <=? i) && (i <? c + 3))%nat
    then Sweep.mean [nth (c - 4) mags 0; nth (c - 3) mags 0;
                     nth (c + 3) mags 0; nth (c + 4) mags 0]
    else nth i mags 0 in
  nth i out 0
  = if (i <? n - 10)%nat
    then if (i <? 10)%nat
         then notched * nth i (Sweep.linspace_closed 0.3 1.0 10) 0
         else notched
    else (if (i <? 10)%nat
          then notched * nth i (Sweep.linspace_closed 0.3 1.0 10) 0
          else notched)
         * nth (i - (n - 10)) (Sweep.linspace_closed 1.0 0.3 10) 0.
Proof.
  intros Hn H Hi. cbv zeta.
  rewrite (process_fft_data_long mags) in H by lia. cbv zeta in H.
  apply some_eq in H. subst out.
  set (c := (length mags / 2)%nat).
  set (v := Sweep.mean _).
  assert (L1 : length (Sweep.linspace_closed 0.3 1.0 10) = 10%nat) by reflexivity.
  assert (L2 : length (Sweep.linspace_closed 1.0 0.3 10) = 10%nat) by reflexivity.
  assert (Hf : length (Sweep.fill (c - 2) (c + 3) v mags) = length mags)
    by apply SweepCapture.fill_length.
  assert (Hh : length (scale_head (Sweep.linspace_closed 0.3 1.0 10)
                         (Sweep.fill (c - 2) (c + 3) v mags)) = length mags)
    by (rewrite scale_head_length; [exact Hf|rewrite L1, Hf; lia]).
  rewrite scale_tail_nth by (rewrite L2, Hh; lia).
  rewrite Hh, L2.
  rewrite scale_head_nth by (rewrite L1, Hf; lia).
  rewrite L1.
  rewrite (SweepCapture.nth_fill _ _ _ _ _ _ Hi).
  reflexivity.
Qed.

(** X26.  On a vector of 25 bins or more, [process_fft_data] sets the five
    bins around the centre to the mean of the bins at centre -4, -3, +3 and
    +4, multiplies the first ten bins by a ramp that starts at 0.3 and the
    last ten by one that ends at 0.3, and leaves every other bin as it
    was. *)
Theorem process_fft_data_shape :
  forall mags out,
    (25 <= length mags)%nat ->
    process_fft_data mags = Some out ->
    let n := length mags in
    let c := (n / 2)%nat in
    (forall i, (c - 2 <= i)%nat -> (i <= c + 2)%nat ->
       nth i out 0 = Sweep.mean [nth (c - 4) mags 0; nth (c - 3) mags 0;
                                 nth (c + 3) mags 0; nth (c + 4) mags 0])
    /\ (forall i, (10 <= i)%nat -> (i < n - 10)%nat -> (i < c - 2 \/ c + 2 < i)%nat ->
          nth i out 0 = nth i mags 0)
    /\ (forall j, (j < 10)%nat ->
          nth j out 0 = nth j mags 0 * nth j (Sweep.linspace_closed 0.3 1.0 10) 0
          /\ nth (n - 10 + j) out 0
             = nth (n - 10 + j) mags 0 * nth j (Sweep.linspace_closed 1.0 0.3 10) 0)
    /\ nth 0 (Sweep.linspace_closed 0.3 1.0 10) 0 == 0.3
    /\ nth 9 (Sweep.linspace_closed 1.0 0.3 10) 0 == 0.3.
Proof.
  intros mags out Hn H n c.
  assert (Hc : (12 <= c)%nat /\ (c + 13 <= n)%nat).
  { subst c n. pose proof (Nat.div_mod_eq (length mags) 2) as E.
    pose proof (Nat.mod_upper_bound (length mags) 2 ltac:(lia)). lia. }
  destruct Hc as [Hc1 Hc2].
  pose proof (fun i => process_fft_data_nth mags out i Hn H) as Hnth.
  cbv zeta in Hnth. fold n in Hnth. fold c in Hnth.
  split; [|split; [|split]].
  - intros i L U. rewrite Hnth by lia.
    destruct (Nat.ltb_spec i (n - 10)); [|lia].
    destruct (Nat.ltb_spec i 10); [lia|].
    destruct (Nat.leb_spec (c - 2) i); [|lia].
    destruct (Nat.ltb_spec i (c + 3)); [|lia]. reflexivity.
  - intros i L U Hout. rewrite Hnth by lia.
    destruct (Nat.ltb_spec i (n - 10)); [|lia].
    destruct (Nat.ltb_spec i 10); [lia|].
    destruct (Nat.leb_spec (c - 2) i); destruct (Nat.ltb_spec i (c + 3));
      cbn [andb]; try reflexivity; lia.
  - intros j Hj. split.
    + rewrite Hnth by lia.
      destruct (Nat.ltb_spec j (n - 10)); [|lia].
      destruct (Nat.ltb_spec j 10); [|lia].
      destruct (Nat.leb_spec (c - 2) j); [lia|]. reflexivity.
    + rewrite Hnth by lia.
      destruct (Nat.ltb_spec (n - 10 + j) (n - 10)); [lia|].
      destruct (Nat.ltb_spec (n - 10 + j) 10); [lia|].
      destruct (Nat.leb_spec (c - 2) (n - 10 + j)); destruct (Nat.ltb_spec (n - 10 + j) (c + 3));
        cbn [andb]; try lia; do 2 f_equal; lia.
  - split; vm_compute; reflexivity.
Qed.

Lemma process_fft_data_shape_witness :
  match process_fft_data ramp25 with
  | Some out =>
      let n := length ramp25 in
      let c := (n / 2)%nat in
      (forall i, (c - 2 <= i)%nat -> (i <= c + 2)%nat ->
         nth i out 0 = Sweep.mean [nth (c - 4) ramp25 0; nth (c - 3) ramp25 0;
                                   nth (c + 3) ramp25 0; nth (c + 4) ramp25 0])
      /\ (forall i, (10 <= i)%nat -> (i < n - 10)%nat -> (i < c - 2 \/ c + 2 < i)%nat ->
            nth i out 0 = nth i ramp25 0)
      /\ (forall j, (j < 10)%nat ->
            nth j out 0 = nth j ramp25 0 * nth j (Sweep.linspace_closed 0.3 1.0 10) 0
            /\ nth (n - 10 + j) out 0
               = nth (n - 10 + j) ramp25 0 * nth j (Sweep.linspace_closed 1.0 0.3 10) 0)
      /\ nth 0 (Sweep.linspace_closed 0.3 1.0 10) 0 == 0.3
      /\ nth 9 (Sweep.linspace_closed 1.0 0.3 10) 0 == 0.3
  | None => False
  end.
Proof.
  destruct (process_fft_data ramp25) as [out|] eqn:E; [|vm_compute in E; discriminate E].
  apply (process_fft_data_shape ramp25 out); [cbn; lia|exact E].
Defined.

End DspProps.

(* ================================================================== *)
(** * Invariants of the detector *)
(* ================================================================== *)

Module DetectorInvariants.

Import Detector DetectorProps DetectorSetup.
Local Open Scope R_scope.

Lemma same_setup_refl w : same_setup w w.
Proof. unfold same_setup. repeat split. Qed.

Lemma same_setup_trans w1 w2 w3 :
  same_setup w1 w2 -> same_setup w2 w3 -> same_setup w1 w3.
Proof. unfold same_setup. intuition congruence. Qed.

Lemma index_bound s l : mem s l = true -> (index s l < length l)%nat.
Proof.
  unfold mem. induction l as [|x l IH]; cbn; [discriminate|].
  rewrite (String.eqb_sym x s).
  destruct (String.eqb s x); cbn; [lia|]. intros H. specialize (IH H). lia.
Qed.

Ltac fields :=
  cbn [fst snd mode toggle_checked rebuilding antenna_select antenna_edit
       antenna_error_label src_present oc_panel_present fft_size jam_mask params jam
       set_jam set_antenna_select set_antenna_edit
       current_port_index set_port_index set_baseline set_started set_ignore_until
       store_metrics].

Lemma update_antenna_inv val t1 t2 w :
  let w' := fst (update_antenna val t1 t2 w) in
  same_setup w w'
  /\ (selection_valid w -> selection_valid w')
  /\ (index_in_ring w -> index_in_ring w').
Proof.
  unfold update_antenna, same_setup, selection_valid, index_in_ring.
  destruct (mem (requested_port w val) valid) eqn:Ev.
  - destruct (is_jamming (mode w)); fields.
    + repeat split; auto.
      destruct (mem (requested_port w val) ports) eqn:Ep; [|auto].
      intros _. apply (index_bound _ ports Ep).
    + repeat split; auto.
  - destruct (antenna_edit w); fields; repeat split; auto.
Qed.

Lemma fire_inv w j2 power_db mt inp :
  let w' := fst (fire w j2 power_db mt inp) in
  same_setup w w'
  /\ (selection_valid w -> selection_valid w')
  /\ index_in_ring w'.
Proof.
  unfold fire.
  set (idx := ((current_port_index j2 + 1) mod length ports)%nat).
  set (w1 := set_jam (set_port_index idx j2) w).
  set (w2 := match antenna_edit w1 with
             | None => w1
             | Some _ => set_antenna_edit (Some (nth idx ports ""%string)) w1
             end).
  assert (H2 : same_setup w w2 /\ (selection_valid w -> selection_valid w2)
               /\ index_in_ring w2).
  { subst w2 w1. unfold same_setup, selection_valid, index_in_ring.
    destruct (antenna_edit _); fields; repeat split; auto;
      subst idx; apply Nat.mod_upper_bound; cbn [length ports]; lia. }
  destruct H2 as (S2 & V2 & I2).
  destruct (update_antenna_inv None (clock1 inp) (clock2 inp) w2) as (S3 & V3 & I3).
  destruct (update_antenna None (clock1 inp) (clock2 inp) w2) as [w3 evs].
  cbn [fst] in *. split; [|split].
  - eapply same_setup_trans; [exact S2|].
    revert S3. unfold same_setup. fields. auto.
  - intros Hv. specialize (V3 (V2 Hv)). exact V3.
  - specialize (I3 I2). exact I3.
Qed.

Lemma check_jamming_inv w inp :
  let w' := fst (check_jamming w inp) in
  same_setup w w'
  /\ (selection_valid w -> selection_valid w')
  /\ (index_in_ring w -> index_in_ring w').
Proof.
  cbv zeta. unfold check_jamming.
  destruct (jam_front w inp) as [w' evs|j1 pdb mc mb] eqn:Hf.
  - destruct (jam_front_return _ _ _ _ Hf) as [_ [->|[b ->]]]; cbn [fst];
      (split; [unfold same_setup; fields; repeat split|split; auto]).
  - destruct (jam_front_spectra _ _ _ _ _ _ Hf)
      as (_ & _ & _ & _ & _ & _ & mags & base & m & _ & _ & Hj & _).
    unfold jam_decide.
    destruct (Rltb 8 _);
      [subst j1; cbn [fst]; split;
       [unfold same_setup; fields; repeat split|split; auto]|].
    destruct (m_cond _ && m_improves _);
      [|subst j1; cbn [fst]; split;
        [unfold same_setup; fields; repeat split|split; auto]].
    match goal with |- context [may_fire ?p ?j2 ?t ?s] =>
      destruct (may_fire p j2 t s) end;
      [|subst j1; cbn [fst]; split;
        [unfold same_setup; fields; repeat split|split; auto]].
    match goal with |- context [fire ?a ?b ?c ?d ?e] =>
      destruct (fire_inv a b c d e) as (F1 & F2 & F3) end.
    split; [exact F1|split; [exact F2|intros _; exact F3]].
Qed.

(** X27.  However long the detector runs and whatever it reads, it never
    writes the operating mode, the Start state, the rebuild flag, the FFT
    size, the mask or any parameter; a selection that is one of the eight
    port names stays one, and an index into the ring of ports stays inside
    it. *)
Theorem detector_run_keeps_setup :
  forall w ticks,
    same_setup w (after w ticks)
    /\ (selection_valid w -> selection_valid (after w ticks))
    /\ (index_in_ring w -> index_in_ring (after w ticks)).
Proof.
  intros w ticks. revert w.
  induction ticks as [|inp rest IH]; intros w; cbn [after].
  - split; [apply same_setup_refl|auto].
  - destruct (check_jamming_inv w inp) as (S1 & V1 & I1).
    destruct (IH (fst (check_jamming w inp))) as (S2 & V2 & I2).
    split; [eapply same_setup_trans; eassumption|split; auto].
Qed.

(** ** A switch in a window without the antenna line edit *)







(** ** Bounds on what the gate compares *)

Lemma count_true_le l : (count_true l <= length l)%nat.
Proof. unfold count_true. apply filter_length_le. Qed.

Lemma Rmax_floor a x hi : a <= hi -> x <= hi -> a <= Rmax a x <= hi.
Proof.
  intros H1 H2. unfold Rmax. destruct (Rle_dec a x); lra.
Qed.

(** X29.  Whatever the spectra and the knobs, the occupancy requirement
    and its smoothed, effective value stay between 0.10 and 0.45, the
    occupancy is a fraction between 0 and 1, and the score a switch has to
    beat is never below 1.10. *)
Theorem detector_thresholds_bounded :
  (forall occ_min N sfm, 0.10 <= occ_requirement occ_min N sfm <= 0.45)
  /\ (forall p j now masked_curr masked_base med_lift,
         let mt := jam_metrics p j now masked_curr masked_base med_lift in
         0.10 <= m_occ_req mt <= 0.45
         /\ 0.10 <= m_occ_req_eff mt <= 0.45
         /\ 0 <= m_occ mt <= 1
         /\ 1.10 <= m_need mt).
Proof.
  assert (Hreq : forall occ_min N sfm, 0.10 <= occ_requirement occ_min N sfm <= 0.45).
  { intros occ_min N sfm.
    destruct (occ_requirement_cases occ_min N sfm) as (C1 & C2 & C3).
    pose proof (clamp_bounds (occ_min * sqrt (256 / Rmax 64 (INR N))) 0.10 0.45
                  ltac:(lra)) as Hb.
    set (base := clamp _ 0.10 0.45) in *.
    destruct (Rle_lt_dec (-3.5) sfm) as [H1|H1].
    - rewrite (C1 H1). apply Rmax_floor; lra.
    - destruct (Rle_lt_dec (-4.0) sfm) as [H2|H2].
      + rewrite (C2 (conj H2 H1)).
        pose proof (Rmax_floor 0.12 (0.92 * base) 0.45 ltac:(lra) ltac:(lra)). lra.
      + rewrite (C3 H2). exact Hb. }
  split; [exact Hreq|].
  intros p j now mc mb ml. cbv zeta. unfold jam_metrics.
  cbn [m_occ_req m_occ_req_eff m_occ m_need].
  split; [apply Hreq|]. split; [|split].
  - unfold clip, Rmin, Rmax.
    destruct (Rle_dec _ 0.10); destruct (Rle_dec _ 0.45); lra.
  - set (over := map _ (combine mc mb)).
    assert (Hc : (count_true over <= Nat.max 1 (length mc))%nat).
    { pose proof (count_true_le over) as H. subst over.
      rewrite length_map, length_combine in H. lia. }
    assert (Hpos : 0 < INR (Nat.max 1 (length mc))) by (apply lt_0_INR; lia).
    apply le_INR in Hc. pose proof (pos_INR (count_true over)) as H0.
    split.
    + apply Rmult_le_reg_r with (INR (Nat.max 1 (length mc))); [exact Hpos|].
      unfold Rdiv. rewrite Rmult_assoc, Rinv_l by lra. lra.
    + apply Rmult_le_reg_r with (INR (Nat.max 1 (length mc))); [exact Hpos|].
      unfold Rdiv. rewrite Rmult_assoc, Rinv_l by lra. lra.
  - apply Rmax_l.
Qed.

End DetectorInvariants.

(* ================================================================== *)
(** * The OperaCake panel: which LEDs are lit *)
(* ================================================================== *)

Module PanelProps.

Import Panel.

Lemma get_put k v d q :
  get (put k v d) q = if String.eqb k q then Some v else get d q.
Proof.
  induction d as [|[k' v'] d IH]; cbn [put get].
  - reflexivity.
  - destruct (String.eqb_spec k' k) as [E|E]; cbn [get].
    + subst k'. destruct (String.eqb k q); reflexivity.
    + rewrite IH. destruct (String.eqb_spec k' q) as [E'|E']; [|reflexivity].
      subst k'. destruct (String.eqb_spec k q); [congruence|reflexivity].
Qed.

Lemma count_by_states (f : option PortState -> bool) (d : state_map) (l : list string) :
  length (filter (fun p => f (get d p)) l) = length (filter f (map (get d) l)).
Proof.
  induction l as [|p l IH]; [reflexivity|].
  cbn [filter map]. destruct (f (get d p)); cbn [length]; rewrite IH; reflexivity.
Qed.

Lemma set_active_connected_shape pn port :
  In port Detector.valid ->
  set_active pn (Some port) true (Some "A0"%string)
  = {| states :=
         put (partner port) UNAVAILABLE
           (put port ACTIVE
              (put "B0" UNAVAILABLE
                 (put "A0" ACTIVE
                    (fold_left (fun d p => put p INACTIVE d) leds (states pn)))));
       active_port := Some port |}.
Proof.
  intros H. cbn [Detector.valid In] in H.
  repeat (destruct H as [<-|H]; [reflexivity|]). destruct H.
Qed.

Lemma set_active_connected_map pn port :
  In port Detector.valid ->
  map (get (states (set_active pn (Some port) true (Some "A0"%string)))) leds
  = map (fun q => Some (if String.eqb q port || String.eqb q "A0"
                        then ACTIVE
                        else if String.eqb q "B0" || String.eqb q (partner port)
                             then UNAVAILABLE else INACTIVE)) leds.
Proof.
  intros H. rewrite (set_active_connected_shape pn port H).
  cbn [states leds fold_left map]. rewrite !get_put.
  cbn [Detector.valid In] in H.
  repeat (destruct H as [<-|H]; [reflexivity|]). destruct H.
Qed.

Lemma set_active_disconnected_shape pn port :
  set_active pn port false (Some "A0"%string)
  = {| states := put "A0" DISCONNECTED
                   (fold_left (fun d p => put p INACTIVE d) leds (states pn));
       active_port := None |}.
Proof. reflexivity. Qed.

Lemma set_active_disconnected_map pn port :
  map (get (states (set_active pn port false (Some "A0"%string)))) leds
  = map (fun q => Some (if String.eqb q "A0" then DISCONNECTED else INACTIVE)) leds.
Proof.
  rewrite set_active_disconnected_shape.
  cbn [states leds fold_left map]. rewrite !get_put. reflexivity.
Qed.

Lemma count_state_map s pn :
  count_state s pn
  = length (filter (fun o => match o with
                             | Some s' => state_eqb s' s
                             | None => false
                             end) (map (get (states pn)) leds)).
Proof.
  unfold count_state.
  apply (count_by_states (fun o => match o with
                                   | Some s' => state_eqb s' s
                                   | None => false
                                   end)).
Qed.

(** X30.  With the HackRF connected and one of the eight ports selected,
    [set_active] lights exactly two LEDs as active, the selected port and
    the fixed input A0, marks exactly two as unavailable, B0 and the
    selected port's partner on the other bank, and leaves the other six
    inactive.  Without a connection it shows A0 as disconnected and every
    other LED inactive, whatever port is passed, and forgets the active
    port. *)
Theorem set_active_lights :
  (forall pn port,
      In port Detector.valid ->
      let pn' := set_active pn (Some port) true (Some "A0"%string) in
      get (states pn') port = Some ACTIVE
      /\ get (states pn') "A0" = Some ACTIVE
      /\ get (states pn') "B0" = Some UNAVAILABLE
      /\ get (states pn') (partner port) = Some UNAVAILABLE
      /\ count_state ACTIVE pn' = 2%nat
      /\ count_state UNAVAILABLE pn' = 2%nat
      /\ count_state INACTIVE pn' = 6%nat
      /\ active_port pn' = Some port)
  /\ (forall pn port,
         let pn' := set_active pn port false (Some "A0"%string) in
         get (states pn') "A0" = Some DISCONNECTED
         /\ count_state DISCONNECTED pn' = 1%nat
         /\ count_state INACTIVE pn' = 9%nat
         /\ count_state ACTIVE pn' = 0%nat
         /\ active_port pn' = None).
Proof.
  split.
  - intros pn port H pn'.
    pose proof (set_active_connected_map pn port H) as Hmap. fold pn' in Hmap.
    pose proof (set_active_connected_shape pn port H) as Hshape. fold pn' in Hshape.
    rewrite !count_state_map, Hmap.
    rewrite Hshape. cbn [states active_port]. rewrite !get_put.
    cbn [Detector.valid In] in H.
    repeat (destruct H as [<-|H]; [repeat split; reflexivity|]). destruct H.
  - intros pn port pn'.
    pose proof (set_active_disconnected_map pn port) as Hmap. fold pn' in Hmap.
    rewrite !count_state_map, Hmap.
    subst pn'. rewrite set_active_disconnected_shape.
    cbn [states active_port leds fold_left]. rewrite !get_put.
    repeat split; reflexivity.
Qed.

Lemma set_active_lights_witness :
  let pn' := set_active {| states := []; active_port := None |}
               (Some "B3"%string) true (Some "A0"%string) in
  get (states pn') "B3" = Some ACTIVE
  /\ get (states pn') "A0" = Some ACTIVE
  /\ get (states pn') "B0" = Some UNAVAILABLE
  /\ get (states pn') (partner "B3") = Some UNAVAILABLE
  /\ count_state ACTIVE pn' = 2%nat
  /\ count_state UNAVAILABLE pn' = 2%nat
  /\ count_state INACTIVE pn' = 6%nat
  /\ active_port pn' = Some "B3"%string.
Proof.
  apply (proj1 set_active_lights {| states := []; active_port := None |} "B3"%string).
  cbn. do 6 right. left. reflexivity.
Defined.

End PanelProps.
